(** * Fan-out registration core of [auto_v2.py]: a shallow embedding

    The development follows the class [AutoRegistrationParallel]:
    the response classifier, the session pool, the credential (captcha)
    lifecycle, the chunked fan-out dispatcher and the per-pair retry
    orchestrator.

    Conventions.
    - A Python [str] is the list of its code points ([list N]); literals are
      written as UTF-8 text and decoded by [py].
    - A Python [dict] is a [gmap], a [set] a [gset], a [deque] a list.
    - The outside world (clock, HTTP server, OCR engine, stop event) is an
      oracle record [env] indexed by a tick counter kept in the state; every
      external call reads the oracle at the current tick and advances it.
    - Effects are threaded by a state-and-exception monad [M]; unbounded
      [while True] loops take a fuel argument and answer [Fuel] when it is
      used up (the loop is then still running).
    - Wall-clock readings are integers in milliseconds.
    - The worker threads of a chunk run one after the other, each task to
      its end before the next one starts: one schedule among those the
      executor allows. The session pool, which the tasks share, is also
      given as a transition system whose schedules cover every
      interleaving of its critical sections.
    - Console output ([print]) is not modelled. *)

From Stdlib Require Import ZArith NArith Ascii String DecimalString List Lia Sorted.
From stdpp Require Import gmap strings list fin_maps.

Open Scope Z_scope.

(* ===================================================================== *)
(** * Python strings *)
(* ===================================================================== *)

Abbreviation pystr := (list N).

(** UTF-8 decoding of a literal into code points. [pending] continuation
    bytes are still expected for the code point accumulated in [acc]. *)
Fixpoint utf8_decode (pending : nat) (acc : N) (s : string) : pystr :=
  match s with
  | EmptyString => []
  | String a rest =>
      let b := N_of_ascii a in
      match pending with
      | O =>
          if (b <? 128)%N then b :: utf8_decode 0 0%N rest
          else if (b <? 224)%N then utf8_decode 1 (b - 192)%N rest
          else if (b <? 240)%N then utf8_decode 2 (b - 224)%N rest
          else utf8_decode 3 (b - 240)%N rest
      | S p =>
          let acc' := (acc * 64 + (b - 128))%N in
          match p with
          | O => acc' :: utf8_decode 0 0%N rest
          | S _ => utf8_decode p acc' rest
          end
      end
  end.

Definition py (s : string) : pystr := utf8_decode 0 0%N s.
Arguments py s%_string.

(** [hay.startswith(needle)] *)
Fixpoint starts_with (needle hay : pystr) : bool :=
  match needle, hay with
  | [], _ => true
  | _ :: _, [] => false
  | a :: n', b :: h' => (a =? b)%N && starts_with n' h'
  end.

(** [needle in hay] on strings: substring test. *)
Fixpoint str_in (needle hay : pystr) : bool :=
  starts_with needle hay ||
  match hay with
  | [] => false
  | _ :: h' => str_in needle h'
  end.

(** [any(indicator in text for indicator in indicators)] *)
Definition any_in (indicators : list pystr) (text : pystr) : bool :=
  existsb (fun indicator => str_in indicator text) indicators.

(** [s[:n]] *)
Definition slice_to (n : nat) (s : pystr) : pystr := take n s.

(** Truthiness of a string: [bool(s)]. *)
Definition truthy (s : pystr) : bool :=
  match s with [] => false | _ :: _ => true end.

(** ASCII lower-casing; agrees with [str.lower] on ASCII text and is used
    to run the model on concrete bodies. *)
Definition ascii_lower (s : pystr) : pystr :=
  map (fun c => if ((65 <=? c) && (c <=? 90))%N then (c + 32)%N else c) s.

(* ===================================================================== *)
(** * Outcome tags *)
(* ===================================================================== *)

(** The classification strings used as [error_type]. *)
Inductive tag : Type :=
  | SUCCESS | CAPTCHA_ERROR | SLOT_FULL | ALREADY_REGISTERED
  | SERVER_ERROR | SERVER_CLOSED | CONNECTION_ERROR | UNKNOWN_ERROR
  | EMPTY_RESPONSE
  | SERVER_503 | SERVER_500 | HTTP_ERROR
  | TIMEOUT | EXCEPTION
  | CAPTCHA_EXPIRED | NO_RESULT.

#[global] Instance tag_eq_dec : EqDecision tag.
Proof. solve_decision. Defined.

(* ===================================================================== *)
(** * Response classifier: [classify_error] *)
(* ===================================================================== *)

Definition success_indicators : list pystr :=
  [py "!!!true|~~|"; py "thành công"; py "thanh cong"; py "success"].

Definition captcha_error_indicators : list pystr :=
  [py "captcha không hợp lệ"; py "captcha khong hop le"; py "invalid captcha";
   py "captcha sai"; py "sai captcha"; py "wrong captcha";
   py "captcha incorrect"; py "mã xác nhận không đúng";
   py "ma xac nhan khong dung"; py "verification code is incorrect";
   py "captcha expired"; py "captcha hết hạn"; py "captcha het han"].

Definition slot_full_indicators : list pystr :=
  [py "phiên mua hàng đã hết số lượng"; py "phien mua hang da het so luong";
   py "the purchase session is out of stock"; py "out of stock";
   py "het slot"; py "hết slot"].

Definition already_registered_indicators : list pystr :=
  [py "cccd/hộ chiếu đã được đăng ký"; py "cccd/ho chieu da duoc dang ky";
   py "đã đăng ký"; py "da dang ky"; py "already registered";
   py "already exists"].

Definition server_error_indicators : list pystr :=
  [py "service is unavailable"; py "server error";
   py "internal server error"; py "lỗi hệ thống"; py "loi he thong"].

Definition server_closed_indicators : list pystr :=
  [py "link đăng ký đang tạm đóng"; py "link dang ky dang tam dong";
   py "registration link is temporarily closed"; py "temporarily closed";
   py "tam dong"; py "tạm đóng"].

Definition connection_error_indicators : list pystr :=
  [py "connection error"; py "network error"; py "timeout";
   py "lỗi kết nối"; py "loi ket noi"].

Section Classifier.
(** Python's [str.lower], a builtin taken as a parameter. *)
Variable str_lower : pystr -> pystr.

(** [classify_error(response_text, status_code)]; the status code is not
    read by the body of the function. *)
Definition classify_error (response_text : pystr) (status_code : Z)
  : tag * pystr :=
  if negb (truthy response_text) then
    (EMPTY_RESPONSE, py "Không có response")
  else
    let response_lower := str_lower response_text in
    if any_in success_indicators response_lower then
      (SUCCESS, py "Đăng ký thành công")
    else if any_in captcha_error_indicators response_lower then
      (CAPTCHA_ERROR, py "Captcha không hợp lệ")
    else if any_in slot_full_indicators response_lower then
      (SLOT_FULL, py "Đã hết slot")
    else if any_in already_registered_indicators response_lower then
      (ALREADY_REGISTERED, py "Đã đăng ký rồi")
    else if any_in server_error_indicators response_lower then
      (SERVER_ERROR, py "Lỗi server")
    else if any_in server_closed_indicators response_lower then
      (SERVER_CLOSED, py "Server tạm đóng")
    else if any_in connection_error_indicators response_lower then
      (CONNECTION_ERROR, py "Lỗi kết nối")
    else
      (UNKNOWN_ERROR, py "Lỗi không xác định: " ++ slice_to 100 response_text).

(** The classifier as the specification words it: an ordered table of
    (phrases, tag) rules over the lower-cased body, first match wins. *)
Definition precedence_table : list (list pystr * tag) :=
  [ (success_indicators, SUCCESS);
    (captcha_error_indicators, CAPTCHA_ERROR);
    (slot_full_indicators, SLOT_FULL);
    (already_registered_indicators, ALREADY_REGISTERED);
    (server_error_indicators, SERVER_ERROR);
    (server_closed_indicators, SERVER_CLOSED);
    (connection_error_indicators, CONNECTION_ERROR) ].

Fixpoint first_match (rules : list (list pystr * tag)) (lowered : pystr)
  : option tag :=
  match rules with
  | [] => None
  | (phrases, t) :: rest =>
      if any_in phrases lowered then Some t else first_match rest lowered
  end.

(** Tag and, for [UNKNOWN_ERROR], the snippet carried with it. *)
Definition classify_by_precedence (body : pystr) : tag * option pystr :=
  match body with
  | [] => (EMPTY_RESPONSE, None)
  | _ :: _ =>
      match first_match precedence_table (str_lower body) with
      | Some t => (t, None)
      | None => (UNKNOWN_ERROR, Some (take 100 body))
      end
  end.

(** The snippet a classification result carries: what follows the fixed
    prefix of the [UNKNOWN_ERROR] description. *)
Definition snippet_of (r : tag * pystr) : option pystr :=
  match fst r with
  | UNKNOWN_ERROR => Some (drop (length (py "Lỗi không xác định: ")) (snd r))
  | _ => None
  end.
End Classifier.


(* ===================================================================== *)
(** * Exceptions, requests and the outside world *)
(* ===================================================================== *)

(** The exception classes the code distinguishes; each carries [str(e)]. *)
Inductive exn : Type :=
  | ExTimeout (msg : pystr)          (* requests.exceptions.Timeout *)
  | ExConnectionError (msg : pystr)  (* requests.exceptions.ConnectionError *)
  | ExRequest (msg : pystr)          (* any other RequestException *)
  | ExOther (msg : pystr)            (* any other subclass of Exception *)
  | ExBase (msg : pystr).            (* BaseException outside Exception *)

Definition exn_str (e : exn) : pystr :=
  match e with
  | ExTimeout m | ExConnectionError m | ExRequest m | ExOther m | ExBase m => m
  end.

(** [isinstance(e, Exception)] *)
Definition is_Exception (e : exn) : bool :=
  match e with ExBase _ => false | _ => true end.

(** [str(n)] for an integer. *)
Definition str_of_int (n : Z) : pystr :=
  py (DecimalString.NilZero.string_of_int (Z.to_int n)).

Record profile : Type := {
  profile_name : pystr;
  full_name : pystr;
  dob_day : pystr;
  dob_month : pystr;
  dob_year : pystr;
  phone : pystr;
  email : pystr;
  id_card : pystr
}.

(** Query parameters of the registration call. *)
Record payload : Type := {
  Action : pystr;
  idNgayBanHang : pystr;
  idPhien : pystr;
  HoTen : pystr;
  NgaySinh_Ngay : pystr;
  NgaySinh_Thang : pystr;
  NgaySinh_Nam : pystr;
  SoDienThoai : pystr;
  Email : pystr;
  CCCD : pystr;
  Captcha : pystr
}.

(** The three GET requests the program issues (the base URL and the fixed
    timeouts of each call site are left implicit). *)
Inductive request : Type :=
  | LoadCaptcha                      (* /Ajax.aspx?Action=LoadCaptcha *)
  | CaptchaImage (path : pystr)      (* base_url + path *)
  | Register (p : payload).          (* /Ajax.aspx with params=payload *)

Record response : Type := {
  status_code : Z;
  text : pystr;
  content : list N
}.

Inductive http_outcome : Type :=
  | Responded (r : response)
  | Failed (e : exn).

Inductive ocr_outcome : Type :=
  | Predicted (captcha_text : pystr)
  | OcrFailed (e : exn).

Abbreviation session := nat.

(** The outside world, read at the current tick. *)
Record env : Type := {
  str_lower : pystr -> pystr;                       (* str.lower *)
  clock : nat -> Z;                                 (* time.time(), in ms *)
  http : nat -> session -> request -> http_outcome; (* session.get *)
  ocr : nat -> list N -> ocr_outcome;               (* predict_from_bytes *)
  stop_is_set : nat -> bool                         (* stop_event.is_set() *)
}.

(** What the program does that the outside can observe, plus marks on the
    control flow used to state temporal properties. *)
Inductive event : Type :=
  | EvAcquire (s : session)          (* get_session_from_pool returned s *)
  | EvRelease (s : session)          (* return_session_to_pool(s) *)
  | EvClose (s : session)            (* session.close() *)
  | EvGet (s : session) (r : request)
  | EvSleep (ms : Z)                 (* time.sleep *)
  | EvSubmit (name : pystr) (date_id session_id : Z) (captcha_text : pystr)
                                     (* executor.submit(register_single_attempt, ...) *)
  | EvMarkSlotFull (date_id session_id : Z)
  | EvMarkRegistered (name : pystr) (date_id : Z)
  | EvMarkSuccessful (name : pystr) (date_id session_id : Z)
  | EvRound (captcha_text : pystr) (captcha_timestamp : Z)
                                     (* register_batch_with_shared_captcha entered *)
  | EvCaptcha (captcha_text : pystr) (captcha_timestamp : Z).
                                     (* get_fresh_captcha returned *)

(* ===================================================================== *)
(** * Program state *)
(* ===================================================================== *)

(** Session pool: the deque, the in-flight counter, and the number of
    sessions created so far (a session is identified by its rank). *)
Record pool_state : Type := {
  session_pool : list session;
  inflight_sessions : Z;
  created : nat
}.

(** Tracking store. *)
Record tracking : Type := {
  slot_full_pairs : gset (Z * Z);
  already_registered_profiles : gmap pystr (gset Z);
  profile_successful_pairs : gmap pystr (gset (Z * Z));
  successful_pairs_set : gset (pystr * Z * Z)
}.

Record success_record : Type := {
  sr_profile_name : pystr;
  sr_date_id : Z;
  sr_session_id : Z;
  sr_timestamp : Z;
  sr_response : pystr
}.

Record failure_record : Type := {
  fr_profile_name : pystr;
  fr_date_id : Z;
  fr_session_id : Z;
  fr_timestamp : Z;
  fr_error_type : tag;          (* the two parts of "{error_type} | {response[:200]}" *)
  fr_response : pystr
}.

(** An entry of the log queue: [(is_success, "[timestamp] message")], the
    message kept as its parts. *)
Record log_entry : Type := {
  le_is_success : bool;
  le_timestamp : Z;
  le_profile_name : pystr;
  le_date_id : Z;
  le_session_id : Z;
  le_error_type : tag;
  le_response : pystr
}.

Record journal : Type := {
  successful_registrations : list success_record;
  failed_registrations : list failure_record;
  log_queue : list log_entry
}.

Record sys : Type := {
  pool : pool_state;
  store : tracking;
  book : journal;
  tick : nat;
  trace : list event
}.

Definition set_pool (f : pool_state -> pool_state) (s : sys) : sys :=
  {| pool := f (pool s); store := store s; book := book s;
     tick := tick s; trace := trace s |}.
Definition set_store (f : tracking -> tracking) (s : sys) : sys :=
  {| pool := pool s; store := f (store s); book := book s;
     tick := tick s; trace := trace s |}.
Definition set_book (f : journal -> journal) (s : sys) : sys :=
  {| pool := pool s; store := store s; book := f (book s);
     tick := tick s; trace := trace s |}.
Definition next_tick (s : sys) : sys :=
  {| pool := pool s; store := store s; book := book s;
     tick := S (tick s); trace := trace s |}.
Definition add_event (e : event) (s : sys) : sys :=
  {| pool := pool s; store := store s; book := book s;
     tick := tick s; trace := trace s ++ [e] |}.

(* ===================================================================== *)
(** * The monad *)
(* ===================================================================== *)

Inductive res (A : Type) : Type :=
  | Ok (a : A)        (* returned *)
  | Raise (e : exn)   (* raised *)
  | Fuel.             (* a loop used up its budget and is still running *)
Arguments Ok {A} a.
Arguments Raise {A} e.
Arguments Fuel {A}.

Definition M (A : Type) : Type := sys -> res A * sys.

Definition ret {A} (a : A) : M A := fun s => (Ok a, s).

Definition bind {A B} (c : M A) (k : A -> M B) : M B :=
  fun s =>
    match c s with
    | (Ok a, s1) => k a s1
    | (Raise e, s1) => (Raise e, s1)
    | (Fuel, s1) => (Fuel, s1)
    end.

Definition raise {A} (e : exn) : M A := fun s => (Raise e, s).
Definition out_of_fuel {A} : M A := fun s => (Fuel, s).

Declare Scope M_scope.
Delimit Scope M_scope with M.
Notation "x <- c ;; k" := (bind c (fun x => k))
  (at level 100, c at next level, k at level 200, right associativity) : M_scope.
Notation "c ;; k" := (bind c (fun _ => k))
  (at level 100, k at level 200, right associativity) : M_scope.
Open Scope M_scope.

(** [try: body finally: fin]. The final block runs whether the body
    returned or raised; an exception of the final block replaces the
    outcome of the body. *)
Definition try_finally {A} (body : M A) (fin : M unit) : M A :=
  fun s =>
    match body s with
    | (Fuel, s1) => (Fuel, s1)
    | (r, s1) =>
        match fin s1 with
        | (Ok _, s2) => (r, s2)
        | (Raise e, s2) => (Raise e, s2)
        | (Fuel, s2) => (Fuel, s2)
        end
    end.

(** [try: body except ...: handler]. [handler e = None] when no clause
    matches [e], which then propagates. *)
Definition try_except {A} (body : M A) (handler : exn -> option (M A)) : M A :=
  fun s =>
    match body s with
    | (Raise e, s1) =>
        match handler e with
        | Some h => h s1
        | None => (Raise e, s1)
        end
    | out => out
    end.

Definition gets {A} (f : sys -> A) : M A := fun s => (Ok (f s), s).
Definition modify (f : sys -> sys) : M unit := fun s => (Ok tt, f s).
Definition emit (e : event) : M unit := modify (add_event e).

(** [for x in l: acc = body(acc, x)] *)
Fixpoint for_each {A B} (body : B -> A -> M B) (l : list A) (acc : B) : M B :=
  match l with
  | [] => ret acc
  | x :: l' => acc' <- body acc x ;; for_each body l' acc'
  end.

(* ===================================================================== *)
(** * Session pool *)
(* ===================================================================== *)

Record config : Type := {
  max_workers : Z;
  registration_api : pystr;
  profiles : list profile
}.

(** [self.max_pool_size] and [self.hard_cap] as set by [__init__]. *)
Definition max_pool_size (cfg : config) : Z := max_workers cfg + 8.
Definition hard_cap (cfg : config) : Z := max_workers cfg + 16.

Definition empty_pool : pool_state :=
  {| session_pool := []; inflight_sessions := 0; created := 0 |}.

(** [create_session_with_pool]: a new session object. *)
Definition create_session_with_pool (ps : pool_state) : session * pool_state :=
  (created ps,
   {| session_pool := session_pool ps;
      inflight_sessions := inflight_sessions ps;
      created := S (created ps) |}).

(** The loop of [init_session_pool]: append [n] new sessions. *)
Fixpoint fill_pool (n : nat) (ps : pool_state) : pool_state :=
  match n with
  | O => ps
  | S n' =>
      let (session, ps1) := create_session_with_pool ps in
      fill_pool n'
        {| session_pool := session_pool ps1 ++ [session];
           inflight_sessions := inflight_sessions ps1;
           created := created ps1 |}
  end.

(** [init_session_pool(pool_size=None)]: the size defaults to
    [max_workers]; clear the deque, then append [range(pool_size)] new
    sessions. *)
Definition init_session_pool (cfg : config) (pool_size : option Z) (ps : pool_state)
  : pool_state :=
  let pool_size := default (max_workers cfg) pool_size in
  fill_pool (Z.to_nat pool_size)
    {| session_pool := [];
       inflight_sessions := inflight_sessions ps;
       created := created ps |}.

(** The pool size [run] asks for:
    [max(self.max_workers, len(self.profiles) + 5)]. *)
Definition run_pool_size (cfg : config) : Z :=
  Z.max (max_workers cfg) (Z.of_nat (length (profiles cfg)) + 5).

(** The critical sections of [get_session_from_pool], each executed under
    [session_lock]. First block: take an idle session if there is one. *)
Definition pool_take (ps : pool_state) : option (session * pool_state) :=
  match session_pool ps with
  | [] => None
  | session :: rest =>
      Some (session,
            {| session_pool := rest;
               inflight_sessions := inflight_sessions ps + 1;
               created := created ps |})
  end.

(** Second block (inside [while True]): create a session when the total is
    under the hard cap. *)
Definition pool_create_under_cap (cfg : config) (ps : pool_state)
  : option (session * pool_state) :=
  let total := Z.of_nat (length (session_pool ps)) + inflight_sessions ps in
  if total <? hard_cap cfg then
    Some (create_session_with_pool
            {| session_pool := session_pool ps;
               inflight_sessions := inflight_sessions ps + 1;
               created := created ps |})
  else None.

(** Third block, reached when the second one found the total at or above
    the cap and the stop event is set: a session is created all the same. *)
Definition pool_create_on_stop (ps : pool_state) : session * pool_state :=
  create_session_with_pool
    {| session_pool := session_pool ps;
       inflight_sessions := inflight_sessions ps + 1;
       created := created ps |}.

(** [return_session_to_pool]: the flag tells whether the session was closed
    instead of being put back. *)
Definition pool_return (cfg : config) (session : session) (ps : pool_state)
  : bool * pool_state :=
  let inflight := inflight_sessions ps - 1 in
  if Z.of_nat (length (session_pool ps)) <? max_pool_size cfg then
    (false,
     {| session_pool := session_pool ps ++ [session];
        inflight_sessions := inflight;
        created := created ps |})
  else
    (true,
     {| session_pool := session_pool ps;
        inflight_sessions := inflight;
        created := created ps |}).

(** Any thread may run any of these sections at any time: the pool as a
    labelled transition system. *)
Inductive pool_op : Type :=
  | OpTake                       (* acquire: idle session popped *)
  | OpCreate                     (* acquire: new session under the cap *)
  | OpCreateOnStop               (* acquire: stop event set, cap bypassed *)
  | OpReturn (session : session).  (* release *)

Definition pool_exec (cfg : config) (op : pool_op) (ps : pool_state)
  : option pool_state :=
  match op with
  | OpTake => snd <$> pool_take ps
  | OpCreate => snd <$> pool_create_under_cap cfg ps
  | OpCreateOnStop => Some (snd (pool_create_on_stop ps))
  | OpReturn session => Some (snd (pool_return cfg session ps))
  end.

(** Runs a schedule of sections; a section whose guard fails leaves the
    pool as it is (the thread goes on to its next block or sleeps). *)
Fixpoint pool_run (cfg : config) (ops : list pool_op) (ps : pool_state)
  : pool_state :=
  match ops with
  | [] => ps
  | op :: ops' => pool_run cfg ops' (default ps (pool_exec cfg op ps))
  end.

(** Idle plus in-flight. *)
Definition pool_total (ps : pool_state) : Z :=
  Z.of_nat (length (session_pool ps)) + inflight_sessions ps.

Definition is_bypass (op : pool_op) : bool :=
  match op with OpCreateOnStop => true | _ => false end.

(* ===================================================================== *)
(** * Chunking *)
(* ===================================================================== *)

(** [range(0, stop, step)] for [stop >= 0]; a zero step raises
    [ValueError] ([None]); a negative step gives the empty range. *)
Fixpoint range_up (fuel : nat) (i stop step : Z) : list Z :=
  match fuel with
  | O => []
  | S fuel' => if i <? stop then i :: range_up fuel' (i + step) stop step else []
  end.

Definition py_range (stop step : Z) : option (list Z) :=
  if step =? 0 then None
  else if step <? 0 then Some []
  else Some (range_up (Z.to_nat stop) 0 stop step).

(** [l[i:j]] for [0 <= i]. *)
Definition slice {A} (l : list A) (i j : Z) : list A :=
  take (Z.to_nat (j - i)) (drop (Z.to_nat i) l).

(** The chunk list of [register_batch_with_shared_captcha]:
    [[profiles[i:i + w] for i in range(0, len(profiles), w)]] when
    [len(profiles) > w], else [[profiles]]. *)
Definition make_chunks {A} (w : Z) (l : list A) : option (list (list A)) :=
  if Z.of_nat (length l) >? w then
    match py_range (Z.of_nat (length l)) w with
    | Some starts => Some (map (fun i => slice l i (i + w)) starts)
    | None => None
    end
  else Some [l].

(** [enumerate(l, start)] *)
Fixpoint enumerate_from {A} (start : nat) (l : list A) : list (nat * A) :=
  match l with
  | [] => []
  | x :: l' => (start, x) :: enumerate_from (S start) l'
  end.

(* ===================================================================== *)
(** * Tracking store *)
(* ===================================================================== *)

Definition empty_tracking : tracking :=
  {| slot_full_pairs := ∅; already_registered_profiles := ∅;
     profile_successful_pairs := ∅; successful_pairs_set := ∅ |}.

Definition mark_slot_full (date_id session_id : Z) (st : tracking) : tracking :=
  {| slot_full_pairs := slot_full_pairs st ∪ {[ (date_id, session_id) ]};
     already_registered_profiles := already_registered_profiles st;
     profile_successful_pairs := profile_successful_pairs st;
     successful_pairs_set := successful_pairs_set st |}.

Definition is_slot_full (date_id session_id : Z) (st : tracking) : bool :=
  bool_decide ((date_id, session_id) ∈ slot_full_pairs st).

Definition mark_profile_already_registered (name : pystr) (date_id : Z)
    (st : tracking) : tracking :=
  {| slot_full_pairs := slot_full_pairs st;
     already_registered_profiles :=
       <[name := default ∅ (already_registered_profiles st !! name) ∪ {[ date_id ]}]>
         (already_registered_profiles st);
     profile_successful_pairs := profile_successful_pairs st;
     successful_pairs_set := successful_pairs_set st |}.

Definition is_profile_already_registered_for_date (name : pystr) (date_id : Z)
    (st : tracking) : bool :=
  match already_registered_profiles st !! name with
  | Some dates => bool_decide (date_id ∈ dates)
  | None => false
  end.

Definition mark_profile_successful (name : pystr) (date_id session_id : Z)
    (st : tracking) : tracking :=
  {| slot_full_pairs := slot_full_pairs st;
     already_registered_profiles := already_registered_profiles st;
     profile_successful_pairs :=
       <[name := default ∅ (profile_successful_pairs st !! name)
                 ∪ {[ (date_id, session_id) ]}]>
         (profile_successful_pairs st);
     successful_pairs_set :=
       successful_pairs_set st ∪ {[ (name, date_id, session_id) ]} |}.

Definition is_profile_successful (name : pystr) (date_id session_id : Z)
    (st : tracking) : bool :=
  bool_decide ((name, date_id, session_id) ∈ successful_pairs_set st).

Definition can_profile_register (name : pystr) (date_id session_id : Z)
    (st : tracking) : bool * pystr :=
  if is_profile_successful name date_id session_id st then
    (false, py "Đã thành công")
  else if is_profile_already_registered_for_date name date_id st then
    (false, py "Đã đăng ký ngày " ++ str_of_int date_id)
  else if is_slot_full date_id session_id st then
    (false, py "Cặp đã hết slot")
  else (true, py "OK").

(* ===================================================================== *)
(** * Primitive actions *)
(* ===================================================================== *)

Section Program.
Variable E : env.
Variable cfg : config.

(** Reads the tick and advances it. *)
Definition step_tick : M nat :=
  fun s => (Ok (tick s), next_tick s).

(** [time.time()] (also [datetime.now()]). *)
Definition time_time : M Z :=
  k <- step_tick ;; ret (clock E k).

Definition sleep (ms : Z) : M unit := emit (EvSleep ms).

Definition stop_event_is_set : M bool :=
  k <- step_tick ;; ret (stop_is_set E k).

(** [session.get(url, ...)] *)
Definition session_get (session : session) (r : request) : M response :=
  k <- step_tick ;;
  emit (EvGet session r) ;;
  match http E k session r with
  | Responded resp => ret resp
  | Failed e => raise e
  end.

(** [self.ocr_model.predict_from_bytes(data)] *)
Definition predict_from_bytes (data : list N) : M pystr :=
  k <- step_tick ;;
  match ocr E k data with
  | Predicted t => ret t
  | OcrFailed e => raise e
  end.

(** Runs a pool section that returns a session. *)
Definition pool_section (f : pool_state -> option (session * pool_state))
  : M (option session) :=
  fun s =>
    match f (pool s) with
    | Some (session, ps) => (Ok (Some session), set_pool (fun _ => ps) s)
    | None => (Ok None, s)
    end.

(** Runs a pool section that always yields a value. *)
Definition pool_update {A} (f : pool_state -> A * pool_state) : M A :=
  fun s => let (a, ps) := f (pool s) in (Ok a, set_pool (fun _ => ps) s).

(** The [while True] of [get_session_from_pool]. *)
Fixpoint wait_under_cap (fuel : nat) : M session :=
  match fuel with
  | O => out_of_fuel
  | S fuel' =>
      got <- pool_section (pool_create_under_cap cfg) ;;
      match got with
      | Some session => ret session
      | None =>
          stop <- stop_event_is_set ;;
          if stop then pool_update pool_create_on_stop
          else
            sleep 5 ;; wait_under_cap fuel'
      end
  end.

Definition get_session_from_pool (fuel : nat) : M session :=
  got <- pool_section pool_take ;;
  session <- match got with
             | Some session => ret session
             | None => wait_under_cap fuel
             end ;;
  emit (EvAcquire session) ;;
  ret session.

Definition return_session_to_pool (session : session) : M unit :=
  emit (EvRelease session) ;;
  closed <- pool_update (pool_return cfg session) ;;
  if (closed : bool) then emit (EvClose session) else ret tt.

(* =================================================================== *)
(** * Credential lifecycle *)
(* =================================================================== *)

(** [re.search] for the pattern of [get_fresh_captcha]: the text [src=],
    a quote (single or double), a group of one or more characters that
    are not quotes, and a quote. The leftmost match is taken; the group is
    greedy and cannot cross a quote, so it is the whole run up to the
    next quote, which must exist and must not be empty. *)
Definition is_quote (c : N) : bool := ((c =? 34) || (c =? 39))%N.

Fixpoint span_non_quote (s : pystr) : pystr * pystr :=
  match s with
  | [] => ([], [])
  | c :: s' =>
      if is_quote c then ([], s)
      else let (run, rest) := span_non_quote s' in (c :: run, rest)
  end.

Definition match_src_here (s : pystr) : option pystr :=
  if starts_with (py "src=") s then
    match drop 4 s with
    | q :: after =>
        if is_quote q then
          match span_non_quote after with
          | ((_ :: _) as run, _ :: _) => Some run
          | _ => None
          end
        else None
    | [] => None
    end
  else None.

Fixpoint search_src (s : pystr) : option pystr :=
  match match_src_here s with
  | Some group => Some group
  | None =>
      match s with
      | [] => None
      | _ :: s' => search_src s'
      end
  end.

(** One pass through the body of the [while True] of [get_fresh_captcha]:
    [None] stands for [continue], [Some] for [return]. *)
Definition captcha_attempt (session : session) : M (option (pystr * Z)) :=
  try_except
    (response <- session_get session LoadCaptcha ;;
     if status_code response =? 503 then ret None
     else if negb (status_code response =? 200) then ret None
     else
       match search_src (text response) with
       | None => ret None
       | Some path =>
           img_response <- session_get session (CaptchaImage path) ;;
           if status_code img_response =? 503 then ret None
           else if negb (status_code img_response =? 200) then ret None
           else
             captcha_text <- predict_from_bytes (content img_response) ;;
             if negb (truthy captcha_text)
                || negb (length captcha_text =? 5)%nat
             then ret None
             else
               captcha_timestamp <- time_time ;;
               ret (Some (captcha_text, captcha_timestamp))
       end)
    (fun e =>
       match e with
       | ExTimeout _ => Some (ret None)
       | ExConnectionError _ => Some (ret None)
       | ExRequest _ => Some (ret None)
       | ExOther _ => Some (ret None)
       | ExBase _ => None
       end).

(** The [while True] of [get_fresh_captcha]; the attempt counter only feeds
    the console messages and is left out. *)
Fixpoint captcha_loop (fuel : nat) (session : session) : M (pystr * Z) :=
  match fuel with
  | O => out_of_fuel
  | S fuel' =>
      got <- captcha_attempt session ;;
      match got with
      | Some credential => ret credential
      | None => captcha_loop fuel' session
      end
  end.

(** [get_fresh_captcha(session)]. Without a session it creates one of its
    own and closes it on the way out. *)
Definition get_fresh_captcha (fuel : nat) (session : option session)
  : M (pystr * Z) :=
  own <- match session with
         | Some given => ret (given, false)
         | None =>
             fresh <- pool_update create_session_with_pool ;;
             ret (fresh, true)
         end ;;
  try_finally
    (credential <- captcha_loop fuel (fst own) ;;
     emit (EvCaptcha (fst credential) (snd credential)) ;;
     ret credential)
    (if snd own then emit (EvClose (fst own)) else ret tt).

(** [is_captcha_valid(captcha_timestamp, ttl_seconds)] *)
Definition is_captcha_valid (captcha_timestamp : Z) (ttl_seconds : Z) : M bool :=
  now <- time_time ;;
  let elapsed := now - captcha_timestamp in
  ret (elapsed <? ttl_seconds * 1000).

(* =================================================================== *)
(** * One submission: [register_single_attempt] *)
(* =================================================================== *)

Definition outcome : Type := bool * tag * pystr.

Definition make_payload (profile : profile) (date_id session_id : Z)
    (captcha_text : pystr) : payload :=
  {| Action := registration_api cfg;
     idNgayBanHang := str_of_int date_id;
     idPhien := str_of_int session_id;
     HoTen := full_name profile;
     NgaySinh_Ngay := dob_day profile;
     NgaySinh_Thang := dob_month profile;
     NgaySinh_Nam := dob_year profile;
     SoDienThoai := phone profile;
     Email := email profile;
     CCCD := id_card profile;
     Captcha := captcha_text |}.

(** The [try ... except] block of [register_single_attempt]: the
    registration call and the reading of its response. *)
Definition submit_request (session : session) (profile : profile)
    (date_id session_id : Z) (captcha_text : pystr) : M outcome :=
  try_except
    (let payload := make_payload profile date_id session_id captcha_text in
     response <- session_get session (Register payload) ;;
     if status_code response =? 503 then
       ret (false, SERVER_503, py "HTTP 503 Service Unavailable")
     else if status_code response =? 500 then
       ret (false, SERVER_500, py "HTTP 500 Internal Server Error")
     else if negb (status_code response =? 200) then
       ret (false, HTTP_ERROR,
            py "HTTP " ++ str_of_int (status_code response) ++ py ": "
            ++ slice_to 100 (text response))
     else
       let (error_type, description) :=
         classify_error (str_lower E) (text response) (status_code response) in
       if bool_decide (error_type = SUCCESS) then
         ret (true, SUCCESS, text response)
       else
         ret (false, error_type,
              py "[HTTP " ++ str_of_int (status_code response) ++ py "] "
              ++ text response))
    (fun e =>
       match e with
       | ExTimeout _ => Some (ret (false, TIMEOUT, py "Request timeout"))
       | ExBase _ => None
       | _ => Some (ret (false, EXCEPTION, exn_str e))
       end).

(** Acquire a session, run the block, and in the [finally] clause give
    the session back. *)
Definition register_single_attempt (fuel : nat) (profile : profile)
    (date_id session_id : Z) (captcha_text : pystr) : M outcome :=
  session <- get_session_from_pool fuel ;;
  try_finally
    (submit_request session profile date_id session_id captcha_text)
    (return_session_to_pool session).

(* =================================================================== *)
(** * Fan-out dispatcher: [register_batch_with_shared_captcha] *)
(* =================================================================== *)

Definition expired_outcome : outcome :=
  (false, CAPTCHA_EXPIRED, py "Captcha expired before batch").

(** [executor.submit(self.register_single_attempt, profile, ...)] for one
    profile of the chunk. *)
Definition submit_task (date_id session_id : Z) (captcha_text : pystr)
    (_ : unit) (profile : profile) : M unit :=
  emit (EvSubmit (profile_name profile) date_id session_id captcha_text).

(** The task of one profile runs and its [future.result()] is stored.
    The tasks of a chunk run on the worker threads and [as_completed]
    hands them over as they finish; here they run one after the other, in
    the order of the chunk, each to its end. A task that ends with an
    exception outside [Exception] ends the loop here, while on the worker
    threads the other tasks of the chunk go on. *)
Definition collect_task (fuel : nat) (date_id session_id : Z)
    (captcha_text : pystr) (results : gmap pystr outcome) (profile : profile)
  : M (gmap pystr outcome) :=
  try_except
    (result <- register_single_attempt fuel profile date_id session_id captcha_text ;;
     ret (<[profile_name profile := result]> results))
    (fun e =>
       if is_Exception e
       then Some (ret (<[profile_name profile := (false, EXCEPTION, exn_str e)]> results))
       else None).

(** Body of [for chunk_idx, chunk in enumerate(chunks, 1)]; [n_chunks] is
    [len(chunks)]. *)
Definition run_chunk (fuel : nat) (date_id session_id : Z)
    (captcha_text : pystr) (captcha_timestamp : Z) (n_chunks : nat)
    (results : gmap pystr outcome) (indexed : nat * list profile)
  : M (gmap pystr outcome) :=
  let (chunk_idx, chunk) := indexed in
  valid <- is_captcha_valid captcha_timestamp 55 ;;
  if negb valid then
    time_time ;;   (* elapsed, for the message *)
    for_each (fun r profile => ret (<[profile_name profile := expired_outcome]> r))
             chunk results
  else
    for_each (submit_task date_id session_id captcha_text) chunk tt ;;
    results' <- for_each (collect_task fuel date_id session_id captcha_text)
                         chunk results ;;
    (if (chunk_idx <? n_chunks)%nat then sleep 30 else ret tt) ;;
    ret results'.

Definition register_batch_with_shared_captcha (fuel : nat)
    (profiles : list profile) (date_id session_id : Z)
    (captcha_text : pystr) (captcha_timestamp : Z)
  : M (gmap pystr outcome) :=
  emit (EvRound captcha_text captcha_timestamp) ;;
  chunks <- match make_chunks (max_workers cfg) profiles with
            | Some chunks => ret chunks
            | None => raise (ExOther (py "range() arg 3 must not be zero"))
            end ;;
  for_each (run_chunk fuel date_id session_id captcha_text captcha_timestamp
                      (length chunks))
           (enumerate_from 1 chunks) ∅.

(* =================================================================== *)
(** * Tracking store, with the marks recorded in the trace *)
(* =================================================================== *)

Definition do_mark_slot_full (date_id session_id : Z) : M unit :=
  modify (set_store (mark_slot_full date_id session_id)) ;;
  emit (EvMarkSlotFull date_id session_id).

Definition do_mark_profile_already_registered (name : pystr) (date_id : Z)
  : M unit :=
  modify (set_store (mark_profile_already_registered name date_id)) ;;
  emit (EvMarkRegistered name date_id).

Definition do_mark_profile_successful (name : pystr) (date_id session_id : Z)
  : M unit :=
  modify (set_store (mark_profile_successful name date_id session_id)) ;;
  emit (EvMarkSuccessful name date_id session_id).

(** [log_message]: [put_nowait] on a queue of capacity 10000; a full
    queue drops the entry. *)
Definition log_message (is_success : bool) (name : pystr)
    (date_id session_id : Z) (error_type : tag) (full_response : pystr)
  : M unit :=
  timestamp <- time_time ;;
  modify (set_book (fun b =>
    if Z.of_nat (length (log_queue b)) <? 10000 then
      {| successful_registrations := successful_registrations b;
         failed_registrations := failed_registrations b;
         log_queue := log_queue b ++
           [ {| le_is_success := is_success; le_timestamp := timestamp;
                le_profile_name := name; le_date_id := date_id;
                le_session_id := session_id; le_error_type := error_type;
                le_response := full_response |} ] |}
    else b)).

Definition record_success (r : success_record) : M unit :=
  modify (set_book (fun b =>
    {| successful_registrations := successful_registrations b ++ [r];
       failed_registrations := failed_registrations b;
       log_queue := log_queue b |})).

Definition record_failure (r : failure_record) : M unit :=
  modify (set_book (fun b =>
    {| successful_registrations := successful_registrations b;
       failed_registrations := failed_registrations b ++ [r];
       log_queue := log_queue b |})).

(* =================================================================== *)
(** * Retry orchestrator: [register_all_profiles_parallel] *)
(* =================================================================== *)

(** Get a session from the pool, fetch a credential with it, give the
    session back. *)
Definition fetch_shared_captcha (fuel : nat) : M (pystr * Z) :=
  captcha_session <- get_session_from_pool fuel ;;
  credential <- get_fresh_captcha fuel (Some captcha_session) ;;
  return_session_to_pool captcha_session ;;
  ret credential.

(** The variables the result loop of one round updates. *)
Record round_vars : Type := {
  final_results : gmap pystr bool;
  captcha_error_profiles : list profile;
  next_pending : list profile
}.

(** [batch_results.get(profile_name, (False, "NO_RESULT", ""))] *)
Definition result_of (batch_results : gmap pystr outcome) (name : pystr)
  : outcome :=
  default (false, NO_RESULT, []) (batch_results !! name).

(** Body of [for profile in pending_profiles] in step 4. *)
Definition handle_result (date_id session_id : Z)
    (batch_results : gmap pystr outcome) (v : round_vars) (profile : profile)
  : M round_vars :=
  let name := profile_name profile in
  let '(success, error_type, full_response) := result_of batch_results name in
  if (success : bool) then
    timestamp <- time_time ;;
    record_success {| sr_profile_name := name; sr_date_id := date_id;
                      sr_session_id := session_id; sr_timestamp := timestamp;
                      sr_response := full_response |} ;;
    do_mark_profile_successful name date_id session_id ;;
    do_mark_profile_already_registered name date_id ;;
    log_message true name date_id session_id SUCCESS full_response ;;
    ret {| final_results := <[name := true]> (final_results v);
           captcha_error_profiles := captcha_error_profiles v;
           next_pending := next_pending v |}
  else
    v' <- match error_type with
          | CAPTCHA_ERROR =>
              ret {| final_results := final_results v;
                     captcha_error_profiles := captcha_error_profiles v ++ [profile];
                     next_pending := next_pending v |}
          | SLOT_FULL =>
              do_mark_slot_full date_id session_id ;;
              ret {| final_results := <[name := false]> (final_results v);
                     captcha_error_profiles := captcha_error_profiles v;
                     next_pending := next_pending v |}
          | ALREADY_REGISTERED =>
              do_mark_profile_already_registered name date_id ;;
              ret {| final_results := <[name := false]> (final_results v);
                     captcha_error_profiles := captcha_error_profiles v;
                     next_pending := next_pending v |}
          | _ =>
              ret {| final_results := final_results v;
                     captcha_error_profiles := captcha_error_profiles v;
                     next_pending := next_pending v ++ [profile] |}
          end ;;
    timestamp <- time_time ;;
    record_failure {| fr_profile_name := name; fr_date_id := date_id;
                      fr_session_id := session_id; fr_timestamp := timestamp;
                      fr_error_type := error_type;
                      fr_response := slice_to 200 full_response |} ;;
    log_message false name date_id session_id error_type full_response ;;
    ret v'.

(** Steps 2 and 3 of one pass of [while pending_profiles]: refresh the
    credential when its 60 s have lapsed, then fan out. Yields the
    credential used and the results of the round. *)
Definition dispatch_round (fuel : nat) (date_id session_id : Z)
    (pending_profiles : list profile) (captcha_text : pystr) (captcha_timestamp : Z)
  : M (pystr * Z * gmap pystr outcome) :=
  valid <- is_captcha_valid captcha_timestamp 60 ;;
  credential <- (if negb valid then
                   time_time ;;   (* elapsed, for the message *)
                   fetch_shared_captcha fuel
                 else ret (captcha_text, captcha_timestamp)) ;;
  batch_results <- register_batch_with_shared_captcha fuel pending_profiles
                     date_id session_id (fst credential) (snd credential) ;;
  ret (credential, batch_results).

(** Step 5: with at least one [CAPTCHA_ERROR] in the round, fetch a new
    credential and put those profiles behind the other pending ones.
    Yields the credential and the pending list for the next pass, and the
    final results so far. *)
Definition refresh_after_errors (fuel : nat) (credential : pystr * Z) (v : round_vars)
  : M (pystr * Z * list profile * gmap pystr bool) :=
  match captcha_error_profiles v with
  | _ :: _ =>
      credential' <- fetch_shared_captcha fuel ;;
      ret (credential', next_pending v ++ captcha_error_profiles v, final_results v)
  | [] => ret (credential, next_pending v, final_results v)
  end.

(** One pass of [while pending_profiles], up to the update of
    [pending_profiles]. *)
Definition retry_round (fuel : nat) (date_id session_id : Z)
    (pending_profiles : list profile) (final : gmap pystr bool)
    (captcha_text : pystr) (captcha_timestamp : Z)
  : M (pystr * Z * list profile * gmap pystr bool) :=
  round <- dispatch_round fuel date_id session_id pending_profiles
                          captcha_text captcha_timestamp ;;
  v <- for_each (handle_result date_id session_id (snd round))
                pending_profiles
                {| final_results := final;
                   captcha_error_profiles := [];
                   next_pending := [] |} ;;
  refresh_after_errors fuel (fst round) v.

Fixpoint retry_loop (fuel rounds : nat) (date_id session_id : Z)
    (pending_profiles : list profile) (final : gmap pystr bool)
    (captcha_text : pystr) (captcha_timestamp : Z) : M (gmap pystr bool) :=
  match pending_profiles with
  | [] => ret final
  | _ :: _ =>
      match rounds with
      | O => out_of_fuel
      | S rounds' =>
          r <- retry_round fuel date_id session_id pending_profiles final
                           captcha_text captcha_timestamp ;;
          let '(credential, pending', final') := r in
          full <- gets (fun s => is_slot_full date_id session_id (store s)) ;;
          if (full : bool) then ret final'
          else retry_loop fuel rounds' date_id session_id pending' final'
                          (fst credential) (snd credential)
      end
  end.

Definition register_all_profiles_parallel (fuel : nat) (date_id session_id : Z)
  : M (gmap pystr bool) :=
  full <- gets (fun s => is_slot_full date_id session_id (store s)) ;;
  if (full : bool) then ret ∅
  else
    eligible_profiles <- gets (fun s =>
      List.filter (fun profile =>
          fst (can_profile_register (profile_name profile) date_id session_id
                                    (store s)))
        (profiles cfg)) ;;
    match eligible_profiles with
    | [] => ret ∅
    | _ :: _ =>
        credential <- fetch_shared_captcha fuel ;;
        retry_loop fuel fuel date_id session_id eligible_profiles ∅
                   (fst credential) (snd credential)
    end.
End Program.

(* ===================================================================== *)
(** * Loading, the endless algorithm, cleanup *)
(* ===================================================================== *)

(** An entry of [self.phien_data]: the two ids of a pair. *)
Record phien : Type := {
  phien_date_id : Z;       (* phien['idNgayBanHang'] *)
  phien_session_id : Z     (* phien['idPhien'] *)
}.

Section Algorithm.
Variable E : env.
Variable cfg : config.

(** The [for i, phien in enumerate(self.phien_data, 1)] of
    [run_registration_algorithm]. [false] stands for the [return] taken
    when the stop event is set, [true] for the end of the list. The two
    counters of the loop only feed the console report and are left out. *)
Fixpoint pairs_loop (fuel : nat) (phien_data : list phien) : M bool :=
  match phien_data with
  | [] => ret true
  | phien :: rest =>
      stop <- stop_event_is_set E ;;
      if (stop : bool) then ret false
      else
        let date_id := phien_date_id phien in
        let session_id := phien_session_id phien in
        full <- gets (fun s => is_slot_full date_id session_id (store s)) ;;
        if (full : bool) then pairs_loop fuel rest
        else
          register_all_profiles_parallel E cfg fuel date_id session_id ;;
          pairs_loop fuel rest
  end.

(** The [while True] of [run_registration_algorithm]: one pass over the
    pairs, then the report, which reads the clock. *)
Fixpoint iterations (fuel rounds : nat) (phien_data : list phien) : M unit :=
  match rounds with
  | O => out_of_fuel
  | S rounds' =>
      finished <- pairs_loop fuel phien_data ;;
      if (finished : bool) then
        time_time E ;;     (* elapsed, for the report *)
        iterations fuel rounds' phien_data
      else ret tt
  end.

Definition run_registration_algorithm (fuel : nat) (phien_data : list phien) : M unit :=
  time_time E ;;           (* start_time *)
  iterations fuel fuel phien_data.
End Algorithm.

(** [self.session_pool.popleft()] on a deque that is not empty. *)
Definition pool_popleft (ps : pool_state) : option (session * pool_state) :=
  match session_pool ps with
  | [] => None
  | session :: rest =>
      Some (session,
            {| session_pool := rest;
               inflight_sessions := inflight_sessions ps;
               created := created ps |})
  end.

(** Step 3 of [_cleanup_resources]: [while self.session_pool], pop a
    session and close it. The executor and the logger thread, which steps
    1 and 2 wait for, are not part of the model. *)
Fixpoint close_pooled (fuel : nat) : M unit :=
  match fuel with
  | O => out_of_fuel
  | S fuel' =>
      got <- pool_section pool_popleft ;;
      match got with
      | None => ret tt
      | Some session => emit (EvClose session) ;; close_pooled fuel'
      end
  end.

Definition _cleanup_resources (fuel : nat) : M unit := close_pooled fuel.

(** The exceptions the builtins applied to a decoded value may raise. *)
Inductive py_error : Type :=
  | ValueError | TypeError | KeyError | OverflowError.

(** The result of code whose exceptions are caught by the caller: a value
    or the exception raised. *)
Inductive raises (A : Type) : Type :=
  | Returned (a : A)
  | Raised (e : py_error).
Arguments Returned {A} a.
Arguments Raised {A} e.

Definition required_fields : list pystr :=
  [py "profile_name"; py "full_name";
   py "dob_day"; py "dob_month"; py "dob_year";
   py "phone"; py "email"; py "id_card"].

Section Validation.
(** A value of the decoded JSON document, with its truth value [bool(v)]
    and its conversion [int(v)]; both are builtins of Python and are taken
    as parameters. A profile is an object of the document: a dictionary
    from field names to values. *)
Variable value : Type.
Variable py_bool : value -> bool.
Variable py_int : value -> raises Z.

(** The loop [for field in required_fields]; [None] when it runs to its
    end. *)
Fixpoint check_fields (fields : list pystr) (profile : gmap pystr value) (index : Z)
  : option (bool * pystr) :=
  match fields with
  | [] => None
  | field :: rest =>
      match profile !! field with
      | None =>
          Some (false, py "Profile " ++ str_of_int index ++ py ": Missing field '"
                       ++ field ++ py "'")
      | Some v =>
          if negb (py_bool v) then
            Some (false, py "Profile " ++ str_of_int index ++ py ": Empty field '"
                         ++ field ++ py "'")
          else check_fields rest profile index
      end
  end.

(** [int(profile[field])] *)
Definition int_field (profile : gmap pystr value) (field : pystr) : raises Z :=
  match profile !! field with
  | None => Raised KeyError
  | Some v => py_int v
  end.

(** The [try] block of [validate_profile]; [except ValueError] is applied
    by the caller. *)
Definition check_date (profile : gmap pystr value) (index : Z) : raises (bool * pystr) :=
  match int_field profile (py "dob_day") with
  | Raised e => Raised e
  | Returned day =>
      match int_field profile (py "dob_month") with
      | Raised e => Raised e
      | Returned month =>
          match int_field profile (py "dob_year") with
          | Raised e => Raised e
          | Returned year =>
              if negb ((1 <=? day) && (day <=? 31) && (1 <=? month) && (month <=? 12)
                       && (1900 <=? year) && (year <=? 2100))
              then Returned (false, py "Profile " ++ str_of_int index ++ py ": Invalid date "
                                    ++ str_of_int day ++ py "/" ++ str_of_int month
                                    ++ py "/" ++ str_of_int year)
              else Returned (true, py "OK")
          end
      end
  end.

Definition validate_profile (profile : gmap pystr value) (index : Z)
  : raises (bool * pystr) :=
  match check_fields required_fields profile index with
  | Some failure => Returned failure
  | None =>
      match check_date profile index with
      | Raised ValueError =>
          Returned (false, py "Profile " ++ str_of_int index ++ py ": Invalid date format")
      | other => other
      end
  end.

(** The loop [for i, profile in enumerate(profiles, 1)] of [load_profiles]. *)
Fixpoint validate_all (indexed : list (nat * gmap pystr value))
    (validated_profiles : list (gmap pystr value))
  : raises (list (gmap pystr value)) :=
  match indexed with
  | [] => Returned validated_profiles
  | (i, profile) :: rest =>
      match validate_profile profile (Z.of_nat i) with
      | Raised e => Raised e
      | Returned (is_valid, msg) =>
          if negb is_valid then validate_all rest validated_profiles
          else validate_all rest (validated_profiles ++ [profile])
      end
  end.

(** [load_profiles] on the decoded document, a list of objects: [Some] is
    the new value of [self.profiles] when it returns [True], [None] stands
    for [False], which leaves [self.profiles] as it was. Any exception is
    caught and gives [False]. *)
Definition load_profiles (profiles : list (gmap pystr value))
  : option (list (gmap pystr value)) :=
  match validate_all (enumerate_from 1 profiles) [] with
  | Raised _ => None
  | Returned [] => None
  | Returned validated_profiles => Some validated_profiles
  end.

(** A profile that [validate_profile] lets through. *)
Definition well_formed (profile : gmap pystr value) : Prop :=
  (forall field, field ∈ required_fields ->
     exists v, profile !! field = Some v /\ py_bool v = true)
  /\ exists day month year,
       int_field profile (py "dob_day") = Returned day
       /\ int_field profile (py "dob_month") = Returned month
       /\ int_field profile (py "dob_year") = Returned year
       /\ 1 <= day <= 31 /\ 1 <= month <= 12 /\ 1900 <= year <= 2100.

(** Whether [validate_profile] returns [True] for the profile (the index
    only shows in the messages). *)
Definition accepts (profile : gmap pystr value) : bool :=
  match validate_profile profile 0 with
  | Returned (true, _) => true
  | _ => false
  end.

(** [validate_profile] raises for the profile. *)
Definition breaks (profile : gmap pystr value) : Prop :=
  exists e, validate_profile profile 0 = Raised e.
End Validation.

Arguments check_fields {value} py_bool fields profile index.
Arguments int_field {value} py_int profile field.
Arguments check_date {value} py_int profile index.
Arguments validate_profile {value} py_bool py_int profile index.
Arguments validate_all {value} py_bool py_int indexed validated_profiles.
Arguments load_profiles {value} py_bool py_int profiles.
Arguments well_formed {value} py_bool py_int profile.
Arguments accepts {value} py_bool py_int profile.
Arguments breaks {value} py_bool py_int profile.

(** The part of [load_scan_results] that follows the validation, on
    entries whose ids are integers: with [filter_odd_sessions] the entries
    with [idPhien % 2 == 1] are kept, else all of them. *)
Definition load_scan_results (filter_odd_sessions : bool) (all_phien_data : list phien)
  : list phien :=
  if filter_odd_sessions then
    List.filter (fun phien => phien_session_id phien mod 2 =? 1) all_phien_data
  else all_phien_data.

(* ===================================================================== *)
(** * Vocabulary of the properties *)
(* ===================================================================== *)

(** Sessions acquired and released along a trace, in order. *)
Definition acquired (t : list event) : list session :=
  omap (fun e => match e with EvAcquire s => Some s | _ => None end) t.
Definition released (t : list event) : list session :=
  omap (fun e => match e with EvRelease s => Some s | _ => None end) t.

Definition is_Fuel {A} (r : res A) : bool :=
  match r with Fuel => true | _ => false end.
Definition is_Ok {A} (r : res A) : bool :=
  match r with Ok _ => true | _ => false end.

(** Events of the pool and of the network: everything a submission task or
    a credential fetch may emit besides [EvCaptcha]. *)
Definition io_event (e : event) : Prop :=
  match e with
  | EvAcquire _ | EvRelease _ | EvClose _ | EvGet _ _ => True
  | EvSleep ms => ms = 5
  | _ => False
  end.

(** The tag the status code alone stands for, as the specification lists
    them: 503, 500, any other code that is not 200. *)
Definition status_tag (code : Z) : tag :=
  if code =? 503 then SERVER_503
  else if code =? 500 then SERVER_500
  else HTTP_ERROR.

(** The state after a run relates to the state before it by [R]. *)
Definition rel {A} (R : sys -> sys -> Prop) (c : M A) : Prop :=
  forall s, R s (snd (c s)).

(** The store is untouched and the trace grows by events that satisfy [P]. *)
Definition grows (P : event -> Prop) (s s' : sys) : Prop :=
  store s' = store s /\ exists t, trace s' = trace s ++ t /\ Forall P t.

(** The tag a response stands for: the status code decides unless it is
    200, in which case the body is classified. *)
Definition response_tag (E : env) (resp : response) : tag :=
  if status_code resp =? 200
  then fst (classify_error (str_lower E) (text resp) (status_code resp))
  else status_tag (status_code resp).

Definition is_submit (e : event) : bool :=
  match e with EvSubmit _ _ _ _ => true | _ => false end.

(** The events one chunk contributes to the trace of a fan-out round.
    [valid] is the outcome of the validity check made when the chunk
    starts. A chunk that fails it contributes nothing. A chunk that passes
    contributes the submissions of all its profiles, in the order of the
    chunk, among the events of its tasks, which acquire and release as
    many sessions as the chunk has profiles, and after all of these the
    30 ms pause when more chunks remain. Nothing is said about the order
    between a submission and the events of the tasks, nor among the events
    of different tasks. [idx] counts from 1. *)
Definition chunk_segment (date_id session_id : Z) (captcha_text : pystr)
    (n_chunks idx : nat) (chunk : list profile) (valid : bool) (seg : list event)
  : Prop :=
  if valid then
    exists middle,
      seg = middle ++ (if (idx <? n_chunks)%nat then [EvSleep 30] else [])
      /\ List.filter is_submit middle
         = map (fun p => EvSubmit (profile_name p) date_id session_id captcha_text) chunk
      /\ Forall io_event (List.filter (fun e => negb (is_submit e)) middle)
      /\ released middle ≡ₚ acquired middle
      /\ length (acquired middle) = length chunk
  else seg = [].

(** The tick counter does not go back. *)
Definition later (s s' : sys) : Prop := (tick s <= tick s')%nat.

(** Events of a credential fetch: requests, the returned credential, and
    the closing of a session of its own. *)
Definition fetch_event (e : event) : Prop :=
  match e with
  | EvGet _ _ | EvCaptcha _ _ | EvClose _ => True
  | _ => False
  end.

(** An attempt of [get_fresh_captcha] starting at tick [k] succeeds in
    every step and yields the credential [c]: both requests answer 200, the
    page holds an image reference, the OCR text is what [c] carries and the
    clock is read last. *)
Definition success_at (E : env) (session : session) (k : nat) (c : pystr * Z)
  : Prop :=
  exists r1 path r2,
    http E k session LoadCaptcha = Responded r1
    /\ status_code r1 = 200
    /\ search_src (text r1) = Some path
    /\ http E (S k) session (CaptchaImage path) = Responded r2
    /\ status_code r2 = 200
    /\ ocr E (S (S k)) (content r2) = Predicted (fst c)
    /\ length (fst c) = 5%nat
    /\ snd c = clock E (S (S (S k))).

(** The ways an attempt starting at tick [k] can fail: the page request or
    the image request raises (timeout, connection error, any other
    exception) or answers with a status other than 200 (503 included), the
    page holds no image reference, the OCR engine raises, or its text does
    not have 5 characters. *)
Inductive attempt_fails (E : env) (session : session) (k : nat) : Prop :=
  | page_request_raises e :
      http E k session LoadCaptcha = Failed e -> is_Exception e = true ->
      attempt_fails E session k
  | page_status r1 :
      http E k session LoadCaptcha = Responded r1 -> status_code r1 <> 200 ->
      attempt_fails E session k
  | page_without_reference r1 :
      http E k session LoadCaptcha = Responded r1 -> status_code r1 = 200 ->
      search_src (text r1) = None ->
      attempt_fails E session k
  | image_request_raises r1 path e :
      http E k session LoadCaptcha = Responded r1 -> status_code r1 = 200 ->
      search_src (text r1) = Some path ->
      http E (S k) session (CaptchaImage path) = Failed e -> is_Exception e = true ->
      attempt_fails E session k
  | image_status r1 path r2 :
      http E k session LoadCaptcha = Responded r1 -> status_code r1 = 200 ->
      search_src (text r1) = Some path ->
      http E (S k) session (CaptchaImage path) = Responded r2 ->
      status_code r2 <> 200 ->
      attempt_fails E session k
  | ocr_raises r1 path r2 e :
      http E k session LoadCaptcha = Responded r1 -> status_code r1 = 200 ->
      search_src (text r1) = Some path ->
      http E (S k) session (CaptchaImage path) = Responded r2 ->
      status_code r2 = 200 ->
      ocr E (S (S k)) (content r2) = OcrFailed e -> is_Exception e = true ->
      attempt_fails E session k
  | ocr_bad_format r1 path r2 t :
      http E k session LoadCaptcha = Responded r1 -> status_code r1 = 200 ->
      search_src (text r1) = Some path ->
      http E (S k) session (CaptchaImage path) = Responded r2 ->
      status_code r2 = 200 ->
      ocr E (S (S k)) (content r2) = Predicted t -> length t <> 5%nat ->
      attempt_fails E session k.

(** The session the loop of [get_fresh_captcha] works with and the state it
    starts in: the session given, or a new one of its own. *)
Definition fetch_session (given : option session) (s : sys) : session * sys :=
  match given with
  | Some given_session => (given_session, s)
  | None =>
      (created (pool s), set_pool (fun ps => snd (create_session_with_pool ps)) s)
  end.

(** The state after [n] attempts in a row that all ended in [continue]. *)
Fixpoint after_failures (E : env) (n : nat) (session : session) (s : sys)
  : option sys :=
  match n with
  | O => Some s
  | S n' =>
      match captcha_attempt E session s with
      | (Ok None, s1) => after_failures E n' session s1
      | _ => None
      end
  end.

(** The effect of a trace on the tracking store: only the marks count. *)
Definition apply_event (st : tracking) (e : event) : tracking :=
  match e with
  | EvMarkSlotFull date_id session_id => mark_slot_full date_id session_id st
  | EvMarkRegistered name date_id => mark_profile_already_registered name date_id st
  | EvMarkSuccessful name date_id session_id =>
      mark_profile_successful name date_id session_id st
  | _ => st
  end.

Definition replay (st : tracking) (t : list event) : tracking :=
  fold_left apply_event t st.

(** A submission is allowed when the store, as it stands at that moment,
    lets the profile register for the pair: not succeeded for the pair, not
    resolved for the date of the pair, pair not exhausted. *)
Definition allowed (st : tracking) (e : event) : Prop :=
  match e with
  | EvSubmit name date_id session_id _ =>
      fst (can_profile_register name date_id session_id st) = true
  | _ => True
  end.

(** Every submission of the trace is allowed by the store as the marks
    before it have left it. *)
Fixpoint trace_ok (st : tracking) (t : list event) : Prop :=
  match t with
  | [] => True
  | e :: t' => allowed st e /\ trace_ok (apply_event st e) t'
  end.

(** From [s] to [s']: the trace grew by a part in which every submission
    was allowed when it was made, and the store changed by the marks of
    that part and by nothing else. *)
Definition safe (s s' : sys) : Prop :=
  exists t, trace s' = trace s ++ t
            /\ trace_ok (store s) t
            /\ store s' = replay (store s) t.

(** Events that neither submit nor mark. *)
Definition quiet_event (e : event) : Prop :=
  match e with
  | EvSubmit _ _ _ _ | EvMarkSlotFull _ _ | EvMarkRegistered _ _
  | EvMarkSuccessful _ _ _ => False
  | _ => True
  end.

(** Events of a fan-out round over [batch] for the pair: quiet ones and
    submissions of profiles of the batch. *)
Definition batch_event (batch : list profile) (date_id session_id : Z) (e : event)
  : Prop :=
  quiet_event e
  \/ exists p captcha_text,
       p ∈ batch /\ e = EvSubmit (profile_name p) date_id session_id captcha_text.

(** The outcome leaves the profile in the pending set: no success, no
    exhausted slot, no earlier registration. *)
Definition retryable (o : bool * tag * pystr) : Prop :=
  fst (fst o) = false /\ snd (fst o) <> SLOT_FULL /\ snd (fst o) <> ALREADY_REGISTERED.

(** The marks the result loop of a round may write for the pair, given the
    results of the round: a success or registration mark only for a name
    whose outcome is final. *)
Definition justified_mark (batch_results : gmap pystr (bool * tag * pystr))
    (date_id session_id : Z) (e : event) : Prop :=
  match e with
  | EvMarkSuccessful name d sid =>
      d = date_id /\ sid = session_id
      /\ ~ retryable (default (false, NO_RESULT, []) (batch_results !! name))
  | EvMarkRegistered name d =>
      d = date_id
      /\ ~ retryable (default (false, NO_RESULT, []) (batch_results !! name))
  | EvMarkSlotFull d sid => d = date_id /\ sid = session_id
  | _ => False
  end.

(** The failure record and the log entry written for a profile whose key
    is missing from the results of the round. *)
Definition no_result_failure (name : pystr) (date_id session_id timestamp : Z)
  : failure_record :=
  {| fr_profile_name := name; fr_date_id := date_id; fr_session_id := session_id;
     fr_timestamp := timestamp; fr_error_type := NO_RESULT; fr_response := [] |}.

Definition no_result_entry (name : pystr) (date_id session_id timestamp : Z)
  : log_entry :=
  {| le_is_success := false; le_timestamp := timestamp; le_profile_name := name;
     le_date_id := date_id; le_session_id := session_id;
     le_error_type := NO_RESULT; le_response := [] |}.

(** Every profile of the list may register for the pair. *)
Definition all_eligible (pending : list profile) (date_id session_id : Z)
    (st : tracking) : Prop :=
  forall p, p ∈ pending ->
    fst (can_profile_register (profile_name p) date_id session_id st) = true.

(* ===================================================================== *)
(** * More vocabulary *)
(* ===================================================================== *)

(** Every name of [successful_profiles] has an entry in
    [profile_successful_dates], the index that [can_profile_register] reads. *)
Definition pairs_consistent (st : tracking) : Prop :=
  forall (name : pystr) (date_id session_id : Z),
    (name, date_id, session_id) ∈ successful_pairs_set st
    <-> (date_id, session_id) ∈ default ∅ (profile_successful_pairs st !! name).

(** No pair of the list has anything left to do: it is exhausted, or no
    profile may register for it. *)
Definition nothing_left (cfg : config) (st : tracking) (ph : phien) : Prop :=
  is_slot_full (phien_date_id ph) (phien_session_id ph) st = true
  \/ Forall (fun p => fst (can_profile_register (profile_name p) (phien_date_id ph)
                             (phien_session_id ph) st) = false) (profiles cfg).

(** Events other than the acquisition and the release of a session. *)
Definition off_pool (e : event) : Prop :=
  match e with
  | EvAcquire _ | EvRelease _ => False
  | _ => True
  end.

(** From [s] to [s'] the pool is untouched and no session is acquired or
    released. *)
Definition calm (s s' : sys) : Prop :=
  pool s' = pool s /\ exists t, trace s' = trace s ++ t /\ Forall off_pool t.

(** [rel R c] for every run when [strict] is off, for the runs that return
    when it is on. *)
Definition rel_if {A} (strict : bool) (R : sys -> sys -> Prop) (c : M A) : Prop :=
  forall s, (strict = true -> is_Ok (fst (c s)) = true) -> R s (snd (c s)).

(** The idle sessions are pairwise distinct and were all created by the
    pool. *)
Definition pool_wf (ps : pool_state) : Prop :=
  NoDup (session_pool ps) /\ Forall (fun x => (x < created ps)%nat) (session_pool ps).

(** A step keeps the idle list well formed. *)
Definition keeps_wf (s s' : sys) : Prop := pool_wf (pool s) -> pool_wf (pool s').

(** From [s] to [s'] every session acquired was released, as often as it
    was acquired, and the in-flight counter is where it was. The order of
    the releases is left open. *)
Definition balanced (s s' : sys) : Prop :=
  inflight_sessions (pool s') = inflight_sessions (pool s)
  /\ exists t, trace s' = trace s ++ t /\ released t ≡ₚ acquired t.

(** The success flag of an outcome agrees with its tag, and the tag is not
    the default that stands for a missing result. *)
Definition sound_outcome (o : outcome) : Prop :=
  (fst (fst o) = true <-> snd (fst o) = SUCCESS) /\ snd (fst o) <> NO_RESULT.

(** The results of a loop that stores one sound outcome per profile. *)
Definition extends_by (chunk : list profile) (results results' : gmap pystr outcome)
  : Prop :=
  (forall name, is_Some (results' !! name)
                <-> name ∈ map profile_name chunk \/ is_Some (results !! name))
  /\ (forall name o, results' !! name = Some o ->
        sound_outcome o \/ results !! name = Some o).

(** What a fan-out round for the pair with the shared [captcha_text] may
    emit: submissions for that pair with that text, registration requests
    whose payload carries the configured action, the ids of the pair and
    that text, and no other request, credential or mark. *)
Definition round_event (cfg : config) (date_id session_id : Z) (captcha_text : pystr)
    (e : event) : Prop :=
  match e with
  | EvSubmit _ d sid c => d = date_id /\ sid = session_id /\ c = captcha_text
  | EvGet _ (Register p) =>
      Action p = registration_api cfg
      /\ idNgayBanHang p = str_of_int date_id
      /\ idPhien p = str_of_int session_id
      /\ Captcha p = captcha_text
  | EvGet _ _ => False
  | EvAcquire _ | EvRelease _ | EvClose _ | EvSleep _ | EvRound _ _ => True
  | _ => False
  end.

(** The three ways the result loop treats an outcome: final (success,
    exhausted slot, earlier registration), wrong captcha, anything else. *)
Definition is_final (o : outcome) : bool :=
  fst (fst o)
  || bool_decide (snd (fst o) = SLOT_FULL)
  || bool_decide (snd (fst o) = ALREADY_REGISTERED).

(** A failure classified CAPTCHA_ERROR: retried in the next round. *)
Definition is_captcha_error (o : outcome) : bool :=
  negb (fst (fst o)) && bool_decide (snd (fst o) = CAPTCHA_ERROR).

(** Every other failure: kept pending, retried after the pause. *)
Definition waits (o : outcome) : bool := negb (is_final o) && negb (is_captcha_error o).

(** The loop variables after the result loop has handled [profile]. *)
Definition sort_result (batch_results : gmap pystr outcome) (v : round_vars)
    (profile : profile) : round_vars :=
  let o := result_of batch_results (profile_name profile) in
  {| final_results :=
       if is_final o then <[profile_name profile := fst (fst o)]> (final_results v)
       else final_results v;
     captcha_error_profiles :=
       captcha_error_profiles v ++ (if is_captcha_error o then [profile] else []);
     next_pending := next_pending v ++ (if waits o then [profile] else []) |}.

(** The store after the result loop has handled [profile]. *)
Definition settle (date_id session_id : Z) (batch_results : gmap pystr outcome)
    (st : tracking) (profile : profile) : tracking :=
  let name := profile_name profile in
  let o := result_of batch_results name in
  if fst (fst o) then
    mark_profile_already_registered name date_id
      (mark_profile_successful name date_id session_id st)
  else
    match snd (fst o) with
    | SLOT_FULL => mark_slot_full date_id session_id st
    | ALREADY_REGISTERED => mark_profile_already_registered name date_id st
    | _ => st
    end.

(** What the store holds for a name with a final result. *)
Definition recorded (date_id session_id : Z) (st : tracking) (name : pystr) (b : bool)
  : Prop :=
  if b then
    is_profile_successful name date_id session_id st = true
    /\ is_profile_already_registered_for_date name date_id st = true
  else
    is_slot_full date_id session_id st = true
    \/ is_profile_already_registered_for_date name date_id st = true.

(** [needle] occurs in [hay] as a run of consecutive characters. *)
Definition occurs_in (needle hay : pystr) : Prop :=
  exists pre post, hay = pre ++ needle ++ post.

(** Every phrase the classifier looks for. *)
Definition all_indicators : list pystr := concat (map fst precedence_table).

(** After [pre], the text [s] goes on with [src=], a quote, the group and
    a quote; the group is not empty and holds no quote. *)
Definition src_match_at (s pre group : pystr) : Prop :=
  exists q q' post,
    s = pre ++ py "src=" ++ q :: group ++ q' :: post
    /\ is_quote q = true /\ is_quote q' = true
    /\ group <> [] /\ Forall (fun c => is_quote c = false) group.

(** Submissions and marks of the event, if any, are for the pair. *)
Definition pair_event (date_id session_id : Z) (e : event) : Prop :=
  match e with
  | EvSubmit _ d sid _ | EvMarkSuccessful _ d sid | EvMarkSlotFull d sid =>
      d = date_id /\ sid = session_id
  | EvMarkRegistered _ d => d = date_id
  | _ => True
  end.

(** Submissions and marks of the event, if any, are for a pair of the
    list. *)
Definition listed_event (phien_data : list phien) (e : event) : Prop :=
  quiet_event e
  \/ exists ph, ph ∈ phien_data
                /\ pair_event (phien_date_id ph) (phien_session_id ph) e.

(** The trace grows by events that satisfy [P]. *)
Definition emits (P : event -> Prop) (s s' : sys) : Prop :=
  exists t, trace s' = trace s ++ t /\ Forall P t.

(** A request made through the session [x]. *)
Definition request_of (x : session) (e : event) : Prop :=
  match e with
  | EvGet y _ => y = x
  | _ => False
  end.

(** The outcome that stands for an exception [e] raised by the
    registration call. *)
Definition failure_outcome (e : exn) : res outcome :=
  match e with
  | ExTimeout _ => Ok (false, TIMEOUT, py "Request timeout")
  | ExBase _ => Raise e
  | _ => Ok (false, EXCEPTION, exn_str e)
  end.

(* ===================================================================== *)
(** * Sample worlds *)
(* ===================================================================== *)

Definition sample_profile (name : string) : profile :=
  {| profile_name := py name; full_name := py name;
     dob_day := py "1"; dob_month := py "2"; dob_year := py "1990";
     phone := py "0900000000"; email := py "a@b.c"; id_card := py "0123" |}.

Definition sample_cfg (workers : Z) (names : list string) : config :=
  {| max_workers := workers; registration_api := py "DangKy";
     profiles := map sample_profile names |}.

Definition page (code : Z) (body : string) : response :=
  {| status_code := code; text := py body; content := [] |}.

(** A server that answers the two captcha requests properly and the
    registration request as [register] says. *)
Definition captcha_server (register : nat -> http_outcome) (k : nat) (r : request)
  : http_outcome :=
  match r with
  | LoadCaptcha => Responded (page 200 "<img src='/captcha/1.png' />")
  | CaptchaImage _ =>
      Responded {| status_code := 200; text := []; content := [137; 80; 78; 71]%N |}
  | Register _ => register k
  end.

(** The OCR engine always reads [abcde]; the stop event is never set. *)
Definition sample_world (clock_fn : nat -> Z) (server : nat -> request -> http_outcome)
  : env :=
  {| str_lower := ascii_lower;
     clock := clock_fn;
     http := fun k _ r => server k r;
     ocr := fun _ _ => Predicted (py "abcde");
     stop_is_set := fun _ => false |}.

Definition empty_journal : journal :=
  {| successful_registrations := []; failed_registrations := []; log_queue := [] |}.

(** The state after [__init__] and [init_session_pool(pool_size)] (with a
    size given, the configuration plays no part). *)
Definition fresh_sys (pool_size : Z) : sys :=
  {| pool := init_session_pool (sample_cfg 1 []) (Some pool_size) empty_pool;
     store := empty_tracking; book := empty_journal; tick := 0; trace := [] |}.

(** A server whose registration endpoint is overloaded: status 503 with an
    error page that happens to contain the word success. *)
Definition overloaded_world : env :=
  sample_world (fun k => Z.of_nat k)
    (captcha_server (fun _ => Responded (page 503 "no success: service is unavailable"))).

Definition thirteen : list string :=
  ["p01"; "p02"; "p03"; "p04"; "p05"; "p06"; "p07"; "p08"; "p09"; "p10";
   "p11"; "p12"; "p13"].

Definition twenty : list string :=
  ["p01"; "p02"; "p03"; "p04"; "p05"; "p06"; "p07"; "p08"; "p09"; "p10";
   "p11"; "p12"; "p13"; "p14"; "p15"; "p16"; "p17"; "p18"; "p19"; "p20"].

(** A server that accepts every registration; the clock advances by one
    millisecond per reading. *)
Definition accepting_world : env :=
  sample_world (fun k => Z.of_nat k)
    (captcha_server (fun _ => Responded (page 200 "!!!True|~~|OK"))).

(** A world whose clock stands at 56 s. *)
Definition late_world : env :=
  sample_world (fun _ => 56000)
    (captcha_server (fun _ => Responded (page 200 "!!!True|~~|OK"))).

(** The value of a run that returned. *)
Definition value_of {A} (d : A) (r : res A) : A :=
  match r with Ok a => a | _ => d end.

(** A captcha endpoint that answers 503 until tick [n] and properly from
    then on. *)
Definition flaky_world (n : nat) : env :=
  sample_world (fun k => Z.of_nat k)
    (fun k r =>
       match r with
       | LoadCaptcha =>
           if (k <? n)%nat then Responded (page 503 "Service Unavailable")
           else Responded (page 200 "<img src='/captcha/1.png' />")
       | _ => captcha_server (fun _ => Responded (page 200 "!!!True|~~|OK")) k r
       end).

(** The credentials handed to the fan-out rounds of a trace, in order. *)
Definition credentials_used (t : list event) : list (pystr * Z) :=
  omap (fun e => match e with
                 | EvRound captcha_text captcha_timestamp =>
                     Some (captcha_text, captcha_timestamp)
                 | _ => None
                 end) t.

(** A registration endpoint that answers 503 for as long as it is asked,
    seen through a clock that advances by half a second per reading. *)
Definition slow_overloaded_world : env :=
  sample_world (fun k => 500 * Z.of_nat k)
    (captcha_server (fun _ => Responded (page 503 "Service Unavailable"))).

(** A server with one slot left: the registration call made at tick 6 is
    told that the slot is gone, every other one gets a server error. *)
Definition one_slot_world : env :=
  sample_world (fun k => Z.of_nat k)
    (captcha_server (fun k => if (k =? 6)%nat
                              then Responded (page 200 "Het slot roi")
                              else Responded (page 200 "Internal Server Error"))).

(* ===================================================================== *)
(** * More sample worlds *)
(* ===================================================================== *)

(** A world in which the stop event is set from the start. *)
Definition stopped_world : env :=
  {| str_lower := ascii_lower;
     clock := fun k => Z.of_nat k;
     http := fun k _ r => captcha_server (fun _ => Responded (page 200 "!!!True|~~|OK")) k r;
     ocr := fun _ _ => Predicted (py "abcde");
     stop_is_set := fun _ => true |}.

(** A system whose pool has no idle session and [n] sessions in flight. *)
Definition busy_sys (n : nat) : sys :=
  {| pool := {| session_pool := []; inflight_sessions := Z.of_nat n; created := n |};
     store := empty_tracking; book := empty_journal; tick := 0; trace := [] |}.

(** A world whose OCR engine is interrupted (an exception outside
    [Exception], such as [KeyboardInterrupt]). *)
Definition interrupted_world : env :=
  {| str_lower := ascii_lower;
     clock := fun k => Z.of_nat k;
     http := fun k _ r => captcha_server (fun _ => Responded (page 200 "!!!True|~~|OK")) k r;
     ocr := fun _ _ => OcrFailed (ExBase (py "KeyboardInterrupt"));
     stop_is_set := fun _ => false |}.

(** A registration endpoint that tells the call made at tick 2 that the
    slot is gone, the one made at tick 3 that the captcha is wrong, and
    answers every other call with a server error. *)
Definition mixed_world : env :=
  sample_world (fun k => Z.of_nat k)
    (captcha_server (fun k => if (k =? 2)%nat then Responded (page 200 "Het slot roi")
                              else if (k =? 3)%nat then Responded (page 200 "Captcha sai")
                              else Responded (page 200 "Internal Server Error"))).

(** Sample values: strings, with Python's truth value; [int] is applied to
    strings of ASCII digits (anything else gives [ValueError]), and a list
    stands for a value [int] rejects with [TypeError]. *)
Inductive sample_value : Type :=
  | SStr (s : pystr)
  | SList.

Definition sample_bool (v : sample_value) : bool :=
  match v with SStr s => truthy s | SList => true end.

Fixpoint digits_value (acc : Z) (s : pystr) : raises Z :=
  match s with
  | [] => Returned acc
  | c :: s' =>
      if ((48 <=? c) && (c <=? 57))%N
      then digits_value (10 * acc + Z.of_N (c - 48)) s'
      else Raised ValueError
  end.

Definition sample_int (v : sample_value) : raises Z :=
  match v with
  | SStr [] => Raised ValueError
  | SStr s => digits_value 0 s
  | SList => Raised TypeError
  end.

Definition sample_record (day : sample_value) : gmap pystr sample_value :=
  list_to_map
    [(py "profile_name", SStr (py "p1")); (py "full_name", SStr (py "Nguyen Van A"));
     (py "dob_day", day); (py "dob_month", SStr (py "02"));
     (py "dob_year", SStr (py "1990")); (py "phone", SStr (py "0900000000"));
     (py "email", SStr (py "a@b.c")); (py "id_card", SStr (py "012345678901"))].

(** Two scanned pairs, one with an odd and one with an even session id. *)
Definition sample_pairs : list phien :=
  [ {| phien_date_id := 67; phien_session_id := 101 |};
    {| phien_date_id := 68; phien_session_id := 102 |} ].

(** A world whose registration endpoint times out. *)
Definition timeout_world : env :=
  sample_world (fun k => Z.of_nat k)
    (captcha_server (fun _ => Failed (ExTimeout (py "read timed out")))).

(* ===================================================================== *)
(** * Properties *)
(* ===================================================================== *)

Example utf8_sample : py "hết" = [104; 7871; 116]%N.
Proof. reflexivity. Qed.

Example classify_sample :
  fst (classify_error ascii_lower (py "Invalid CAPTCHA, try again") 200) = CAPTCHA_ERROR.
Proof. vm_compute. reflexivity. Qed.

(** C4. For every body, [classify_error] yields the tag of the first rule of
    the precedence table that matches the lower-cased body, [EMPTY_RESPONSE]
    for the empty body, and otherwise [UNKNOWN_ERROR] with the first 100
    characters of the body. *)
Theorem classify_error_precedence (str_lower : pystr -> pystr) (body : pystr) (status : Z) :
  (fst (classify_error str_lower body status),
   snippet_of (classify_error str_lower body status))
  = classify_by_precedence str_lower body.
Proof.
  unfold classify_error, classify_by_precedence.
  destruct body as [|c body']; [reflexivity|].
  cbn [truthy negb]. unfold precedence_table. cbn [first_match].
  repeat (match goal with
          | |- context [any_in ?i ?t] => destruct (any_in i t); [reflexivity|]
          end).
  unfold snippet_of. cbn [fst snd].
  now rewrite drop_app_length.
Qed.

(* ===================================================================== *)
(** ** Reasoning about runs *)
(* ===================================================================== *)

Ltac mred :=
  cbv [bind ret raise out_of_fuel gets modify emit pool_section pool_update
       step_tick time_time stop_event_is_set sleep session_get predict_from_bytes
       try_finally try_except set_pool set_store set_book next_tick add_event];
  cbn [fst snd pool store book tick trace].

Ltac mred_in H :=
  cbv [bind ret raise out_of_fuel gets modify emit pool_section pool_update
       step_tick time_time stop_event_is_set sleep session_get predict_from_bytes
       try_finally try_except set_pool set_store set_book next_tick add_event] in H;
  cbn [fst snd pool store book tick trace] in H.

Section RelRules.
Context {R : sys -> sys -> Prop} `{!Reflexive R} `{!Transitive R}.

Lemma rel_ret {A} (a : A) : rel R (ret a).
Proof. intros s. cbn. reflexivity. Qed.

Lemma rel_raise {A} e : rel R (@raise A e).
Proof. intros s. cbn. reflexivity. Qed.

Lemma rel_out_of_fuel {A} : rel R (@out_of_fuel A).
Proof. intros s. cbn. reflexivity. Qed.

Lemma rel_gets {A} (f : sys -> A) : rel R (gets f).
Proof. intros s. cbn. reflexivity. Qed.

Lemma rel_bind {A B} (c : M A) (k : A -> M B) :
  rel R c -> (forall a, rel R (k a)) -> rel R (bind c k).
Proof.
  intros Hc Hk s. unfold bind. specialize (Hc s).
  destruct (c s) as [[a| e |] s1]; cbn in *; auto.
  etransitivity; [exact Hc | apply Hk].
Qed.

Lemma rel_try_finally {A} (body : M A) (fin : M unit) :
  rel R body -> rel R fin -> rel R (try_finally body fin).
Proof.
  intros Hb Hf s. unfold try_finally. specialize (Hb s).
  destruct (body s) as [[a| e |] s1]; cbn in *; auto;
    specialize (Hf s1); destruct (fin s1) as [[[]| e' |] s2]; cbn in *;
    etransitivity; eauto.
Qed.

Lemma rel_try_except {A} (body : M A) (handler : exn -> option (M A)) :
  rel R body -> (forall e h, handler e = Some h -> rel R h) ->
  rel R (try_except body handler).
Proof.
  intros Hb Hh s. unfold try_except. specialize (Hb s).
  destruct (body s) as [[a| e |] s1]; cbn in *; auto.
  destruct (handler e) as [h|] eqn:He; cbn; auto.
  etransitivity; [exact Hb | eapply Hh; eauto].
Qed.

Lemma rel_for_each {A B} (body : B -> A -> M B) (l : list A) :
  (forall acc x, x ∈ l -> rel R (body acc x)) ->
  forall acc, rel R (for_each body l acc).
Proof.
  induction l as [|x l IH]; intros Hb acc; cbn [for_each].
  - apply rel_ret.
  - apply rel_bind.
    + apply Hb. left.
    + intros acc'. apply IH. intros ? ? Hin. apply Hb. now right.
Qed.
End RelRules.

#[global] Instance grows_refl P : Reflexive (grows P).
Proof. intros s. split; [reflexivity|]. exists []. now rewrite app_nil_r. Qed.

#[global] Instance grows_trans P : Transitive (grows P).
Proof.
  intros s1 s2 s3 [Hs1 (t1 & Ht1 & Hp1)] [Hs2 (t2 & Ht2 & Hp2)]. split.
  - congruence.
  - exists (t1 ++ t2). rewrite Ht2, Ht1, app_assoc. split; [reflexivity|].
    apply Forall_app; auto.
Qed.

Lemma grows_mono (P Q : event -> Prop) s s' :
  (forall e, P e -> Q e) -> grows P s s' -> grows Q s s'.
Proof.
  intros HPQ [Hs (t & Ht & Hp)]. split; [exact Hs|]. exists t. split; [exact Ht|].
  eapply Forall_impl; eauto.
Qed.

Lemma rel_grows_mono {A} (P Q : event -> Prop) (c : M A) :
  (forall e, P e -> Q e) -> rel (grows P) c -> rel (grows Q) c.
Proof. intros HPQ Hc s. eapply grows_mono; eauto. Qed.

Lemma rel_emit P e : P e -> rel (grows P) (emit e).
Proof.
  intros He s. split; [reflexivity|]. exists [e]. split; [reflexivity|].
  now constructor.
Qed.

Lemma rel_silent {A} P (c : M A) :
  (forall s, store (snd (c s)) = store s /\ trace (snd (c s)) = trace s) ->
  rel (grows P) c.
Proof.
  intros H s. destruct (H s) as [Hs Ht]. split; [exact Hs|].
  exists []. rewrite app_nil_r. auto.
Qed.

(* ===================================================================== *)
(** ** Events of the pool and network actions *)
(* ===================================================================== *)

Section IoFacts.
Variable E : env.
Variable cfg : config.

Lemma io_time_time P : rel (grows P) (time_time E).
Proof. apply rel_silent. intros s. now mred. Qed.

Lemma io_stop P : rel (grows P) (stop_event_is_set E).
Proof. apply rel_silent. intros s. now mred. Qed.

Lemma io_predict P data : rel (grows P) (predict_from_bytes E data).
Proof. apply rel_silent. intros s. mred. now destruct (ocr E (tick s) data). Qed.

Lemma io_pool_section P f : rel (grows P) (pool_section f).
Proof.
  apply rel_silent. intros s. mred.
  now destruct (f (pool s)) as [[? ?]|].
Qed.

Lemma io_pool_update {A} P (f : pool_state -> A * pool_state) :
  rel (grows P) (pool_update f).
Proof. apply rel_silent. intros s. mred. now destruct (f (pool s)). Qed.

Lemma io_session_get session r : rel (grows io_event) (session_get E session r).
Proof.
  unfold session_get. apply rel_bind; [apply rel_silent; intros s; now mred|].
  intros k. apply rel_bind; [now apply rel_emit|].
  intros _. destruct (http E k session r); [apply rel_ret | apply rel_raise].
Qed.

Lemma io_wait_under_cap fuel : rel (grows io_event) (wait_under_cap E cfg fuel).
Proof.
  induction fuel as [|fuel IH]; cbn [wait_under_cap].
  - apply rel_out_of_fuel.
  - apply rel_bind; [apply io_pool_section|].
    intros [session|]; [apply rel_ret|].
    apply rel_bind; [apply io_stop|].
    intros [|]; [apply io_pool_update|].
    apply rel_bind; [now apply rel_emit | auto].
Qed.

Lemma io_get_session_from_pool fuel :
  rel (grows io_event) (get_session_from_pool E cfg fuel).
Proof.
  unfold get_session_from_pool.
  apply rel_bind; [apply io_pool_section|].
  intros got. apply rel_bind.
  - destruct got; [apply rel_ret | apply io_wait_under_cap].
  - intros session. apply rel_bind; [now apply rel_emit | intros; apply rel_ret].
Qed.

Lemma io_return_session_to_pool session :
  rel (grows io_event) (return_session_to_pool cfg session).
Proof.
  unfold return_session_to_pool.
  apply rel_bind; [now apply rel_emit|]. intros _.
  apply rel_bind; [apply io_pool_update|].
  intros [|]; [now apply rel_emit | apply rel_ret].
Qed.

Lemma io_submit_request session profile date_id session_id captcha_text :
  rel (grows io_event)
      (submit_request E cfg session profile date_id session_id captcha_text).
Proof.
  unfold submit_request. apply rel_try_except.
  - apply rel_bind; [apply io_session_get|]. intros response.
    repeat (match goal with |- rel _ (if ?b then _ else _) => destruct b end;
            try apply rel_ret).
    destruct (classify_error _ _ _) as [error_type description].
    destruct (bool_decide _); apply rel_ret.
  - intros e h Hh. destruct e; inversion Hh; subst; apply rel_ret.
Qed.

Lemma io_register_single_attempt fuel profile date_id session_id captcha_text :
  rel (grows io_event)
      (register_single_attempt E cfg fuel profile date_id session_id captcha_text).
Proof.
  unfold register_single_attempt.
  apply rel_bind; [apply io_get_session_from_pool|]. intros session.
  apply rel_try_finally; [apply io_submit_request|apply io_return_session_to_pool].
Qed.
End IoFacts.

(* ===================================================================== *)
(** ** One submission *)
(* ===================================================================== *)

Section SingleAttempt.
Variable E : env.
Variable cfg : config.

Lemma acquired_app t1 t2 : acquired (t1 ++ t2) = acquired t1 ++ acquired t2.
Proof. apply omap_app. Qed.
Lemma released_app t1 t2 : released (t1 ++ t2) = released t1 ++ released t2.
Proof. apply omap_app. Qed.

Lemma acquired_sleeps n ms : acquired (replicate n (EvSleep ms)) = [].
Proof. induction n; cbn; auto. Qed.
Lemma released_sleeps n ms : released (replicate n (EvSleep ms)) = [].
Proof. induction n; cbn; auto. Qed.

Lemma wait_under_cap_shape fuel s :
  exists n : nat,
    trace (snd (wait_under_cap E cfg fuel s)) = trace s ++ replicate n (EvSleep 5)
    /\ match fst (wait_under_cap E cfg fuel s) with
       | Ok _ => inflight_sessions (pool (snd (wait_under_cap E cfg fuel s)))
                 = inflight_sessions (pool s) + 1
       | Raise _ => False
       | Fuel => pool (snd (wait_under_cap E cfg fuel s)) = pool s
       end.
Proof.
  revert s. induction fuel as [|fuel IH]; intros s.
  - exists 0%nat. cbn. rewrite app_nil_r. auto.
  - cbn [wait_under_cap]. mred.
    destruct (pool_create_under_cap cfg (pool s)) as [[sess ps]|] eqn:Hc.
    + exists 0%nat. cbn. rewrite app_nil_r. split; auto.
      unfold pool_create_under_cap in Hc.
      destruct (_ <? _); [|discriminate]. cbn in Hc. injection Hc as <- <-. reflexivity.
    + destruct (stop_is_set E (tick s)).
      * exists 0%nat. cbn. rewrite app_nil_r. auto.
      * match goal with |- context [wait_under_cap E cfg fuel ?s1] =>
          destruct (IH s1) as (n & Ht & Hr) end.
        exists (S n). cbn in *. rewrite Ht, <- app_assoc. cbn. split; auto.
Qed.

Lemma get_session_from_pool_shape fuel s :
  exists n : nat,
    match get_session_from_pool E cfg fuel s with
    | (Ok session, s1) =>
        trace s1 = trace s ++ replicate n (EvSleep 5) ++ [EvAcquire session]
        /\ inflight_sessions (pool s1) = inflight_sessions (pool s) + 1
    | (Raise _, _) => False
    | (Fuel, s1) =>
        trace s1 = trace s ++ replicate n (EvSleep 5) /\ pool s1 = pool s
    end.
Proof.
  unfold get_session_from_pool. mred. unfold pool_take.
  destruct (session_pool (pool s)) as [|session rest] eqn:Hp.
  - destruct (wait_under_cap_shape fuel s) as (n & Ht & Hr). exists n.
    destruct (wait_under_cap E cfg fuel s) as [[session| e |] s1]; cbn in *; auto.
    rewrite Ht, <- app_assoc. auto.
  - exists 0%nat. cbn. auto.
Qed.

Lemma return_session_to_pool_shape session s :
  exists closing,
    return_session_to_pool cfg session s
    = (Ok tt, snd (return_session_to_pool cfg session s))
    /\ trace (snd (return_session_to_pool cfg session s))
       = trace s ++ EvRelease session :: closing
    /\ (closing = [] \/ closing = [EvClose session])
    /\ inflight_sessions (pool (snd (return_session_to_pool cfg session s)))
       = inflight_sessions (pool s) - 1.
Proof.
  unfold return_session_to_pool. mred. unfold pool_return.
  destruct (_ <? _); cbn.
  - exists []. auto.
  - exists [EvClose session]. rewrite <- app_assoc. cbn. auto.
Qed.


Lemma submit_request_spec session profile date_id session_id captcha_text s :
  let req := Register (make_payload cfg profile date_id session_id captcha_text) in
  exists r,
    submit_request E cfg session profile date_id session_id captcha_text s
    = (r, add_event (EvGet session req) (next_tick s))
    /\ is_Fuel r = false
    /\ match http E (tick s) session req with
       | Responded resp =>
           exists detail,
             r = Ok (bool_decide (response_tag E resp = SUCCESS), response_tag E resp, detail)
       | Failed e =>
           r = match e with
               | ExTimeout _ => Ok (false, TIMEOUT, py "Request timeout")
               | ExBase _ => Raise e
               | _ => Ok (false, EXCEPTION, exn_str e)
               end
       end.
Proof.
  cbv zeta. unfold submit_request, response_tag, status_tag. mred.
  destruct (http E (tick s) session _) as [resp|e].
  - destruct (status_code resp =? 503) eqn:H503.
    { apply Z.eqb_eq in H503. rewrite H503. cbn [Z.eqb Pos.eqb]. eauto. }
    destruct (status_code resp =? 500) eqn:H500.
    { apply Z.eqb_eq in H500. rewrite H500. cbn [Z.eqb Pos.eqb]. eauto. }
    destruct (status_code resp =? 200) eqn:H200; cbn [negb].
    + destruct (classify_error _ _ _) as [error_type description]. cbn [fst].
      destruct (bool_decide (error_type = SUCCESS)) eqn:Hs; eauto.
      apply bool_decide_eq_true in Hs. subst. eauto.
    + eauto.
  - destruct e; eauto.
Qed.

(** The events of one run of [register_single_attempt]. *)
Lemma register_single_attempt_trace fuel profile date_id session_id captcha_text s :
  let run := register_single_attempt E cfg fuel profile date_id session_id captcha_text s in
  exists t,
    trace (snd run) = trace s ++ t
    /\ Forall io_event t
    /\ released t = acquired t
    /\ length (acquired t) = (if is_Fuel (fst run) then 0 else 1)%nat
    /\ inflight_sessions (pool (snd run)) = inflight_sessions (pool s).
Proof.
  cbv zeta.
  destruct (io_register_single_attempt E cfg fuel profile date_id session_id
              captcha_text s) as [_ (t & Ht0 & Hio)].
  exists t. split; [exact Ht0|]. split; [exact Hio|].
  revert Ht0.
  destruct (register_single_attempt E cfg fuel profile date_id session_id captcha_text s)
    as [r s'] eqn:Hrun.
  cbn [fst snd]. intros Ht0. unfold register_single_attempt, bind in Hrun.
  destruct (get_session_from_pool_shape fuel s) as (n & Hacq).
  destruct (get_session_from_pool E cfg fuel s) as [[session| e |] s1];
    [destruct Hacq as [Ht Hin] | contradiction | destruct Hacq as [Ht Hp]].
  2:{ injection Hrun as <- <-. rewrite Ht in Ht0. apply app_inv_head in Ht0 as <-.
      cbn [is_Fuel]. rewrite acquired_sleeps, released_sleeps.
      repeat split; auto. now rewrite Hp. }
  unfold try_finally in Hrun.
  destruct (submit_request_spec session profile date_id session_id captcha_text s1)
    as (r1 & Hsub & Hfuel & _).
  rewrite Hsub in Hrun.
  destruct (return_session_to_pool_shape session
              (add_event (EvGet session (Register (make_payload cfg profile date_id
                 session_id captcha_text))) (next_tick s1)))
    as (closing & Hret & Htr & Hcl & Hinf).
  rewrite Hret in Hrun.
  assert (r = r1 /\ s' = snd (return_session_to_pool cfg session
            (add_event (EvGet session (Register (make_payload cfg profile date_id
                 session_id captcha_text))) (next_tick s1)))) as [-> ->].
  { destruct r1; [| |discriminate]; now injection Hrun as <- <-. }
  rewrite Hfuel, Hinf. rewrite Htr in Ht0. cbn [trace pool add_event next_tick] in *.
  rewrite Ht, <- !app_assoc in Ht0. apply app_inv_head in Ht0 as <-. rewrite Hin.
  rewrite !acquired_app, !released_app, acquired_sleeps, released_sleeps.
  repeat split; [| |lia]; destruct Hcl as [-> | ->]; reflexivity.
Qed.

(** C8. Every run of [register_single_attempt] that gets past the
    acquisition releases exactly the session it acquired, exactly once,
    whether the block returned or raised; a run still waiting for a
    session has acquired and released nothing. The in-flight counter is
    back at its value on entry. *)
Theorem session_released_exactly_once fuel profile date_id session_id captcha_text s :
  let run := register_single_attempt E cfg fuel profile date_id session_id captcha_text s in
  exists t,
    trace (snd run) = trace s ++ t
    /\ released t = acquired t
    /\ length (acquired t) = (if is_Fuel (fst run) then 0 else 1)%nat
    /\ inflight_sessions (pool (snd run)) = inflight_sessions (pool s).
Proof.
  cbv zeta.
  destruct (register_single_attempt_trace fuel profile date_id session_id captcha_text s)
    as (t & Ht & _ & Hrel & Hlen & Hin).
  exists t. auto.
Qed.

(** C5. When the registration call answers with a status code other than
    200, the tag is [status_tag] of the code (503, 500, other), whatever
    the body; the body is classified only for status 200. *)
Theorem status_code_decides_tag fuel profile date_id session_id captcha_text
    s session s1 resp :
  get_session_from_pool E cfg fuel s = (Ok session, s1) ->
  http E (tick s1) session
       (Register (make_payload cfg profile date_id session_id captcha_text))
    = Responded resp ->
  let run := register_single_attempt E cfg fuel profile date_id session_id captcha_text s in
  (status_code resp <> 200 ->
     exists detail, fst run = Ok (false, status_tag (status_code resp), detail))
  /\ (status_code resp = 200 ->
     exists detail,
       let t := fst (classify_error (str_lower E) (text resp) 200) in
       fst run = Ok (bool_decide (t = SUCCESS), t, detail)).
Proof.
  intros Hacq Hhttp. cbv zeta.
  unfold register_single_attempt, bind. rewrite Hacq. unfold try_finally.
  destruct (submit_request_spec session profile date_id session_id captcha_text s1)
    as (r1 & Hsub & Hfuel & Hres).
  rewrite Hsub. rewrite Hhttp in Hres. destruct Hres as (detail & ->).
  match goal with |- context [return_session_to_pool cfg session ?s2] =>
    destruct (return_session_to_pool_shape session s2) as (closing & Hret & _);
    rewrite Hret end.
  cbn [fst]. unfold response_tag. split; intros Hst.
  - apply Z.eqb_neq in Hst. rewrite Hst. exists detail. f_equal. f_equal. f_equal.
    apply bool_decide_eq_false. unfold status_tag.
    repeat destruct (_ =? _); discriminate.
  - rewrite Hst. cbn [Z.eqb Pos.eqb]. eauto.
Qed.
End SingleAttempt.

Lemma status_code_decides_tag_witness :
  let s := fresh_sys 1 in
  let cfg := sample_cfg 2 ["p1"] in
  let p := sample_profile "p1" in
  let run := register_single_attempt overloaded_world cfg 1 p 67 101 (py "abcde") s in
  status_code (page 503 "no success: service is unavailable") <> 200
  /\ exists detail, fst run = Ok (false, SERVER_503, detail).
Proof.
  cbv zeta. split; [vm_compute; discriminate|].
  refine (proj1 (status_code_decides_tag overloaded_world (sample_cfg 2 ["p1"]) 1
            (sample_profile "p1") 67 101 (py "abcde") (fresh_sys 1) 0%nat
            (snd (get_session_from_pool overloaded_world (sample_cfg 2 ["p1"]) 1 (fresh_sys 1)))
            (page 503 "no success: service is unavailable") _ _) _).
  - vm_compute. reflexivity.
  - vm_compute. reflexivity.
  - vm_compute. discriminate.
Defined.

(* ===================================================================== *)
(** ** The session pool and its hard cap *)

Lemma fill_pool_total n ps :
  pool_total (fill_pool n ps) = pool_total ps + Z.of_nat n.
Proof.
  revert ps. induction n as [|n IH]; intros ps; cbn [fill_pool].
  - lia.
  - unfold create_session_with_pool. rewrite IH. unfold pool_total.
    cbn [session_pool inflight_sessions]. rewrite length_app. cbn [length]. lia.
Qed.

Lemma init_session_pool_total cfg pool_size :
  pool_total (init_session_pool cfg pool_size empty_pool)
  = Z.max 0 (default (max_workers cfg) pool_size).
Proof.
  unfold init_session_pool. cbv zeta. rewrite fill_pool_total. unfold pool_total.
  cbn [session_pool inflight_sessions empty_pool length]. lia.
Qed.

(** Every section other than the bypass keeps the total under any bound
    that is at least the hard cap. *)
Lemma pool_exec_bounded cfg op ps ps' bound :
  hard_cap cfg <= bound ->
  is_bypass op = false ->
  pool_exec cfg op ps = Some ps' ->
  pool_total ps <= bound ->
  pool_total ps' <= bound.
Proof.
  intros Hcap Hop Hexec Hle. unfold pool_total in *.
  destruct op as [| | |session]; cbn in Hop; try discriminate; cbn [pool_exec] in Hexec.
  - unfold pool_take in Hexec.
    destruct (session_pool ps) as [|x rest] eqn:Hp; cbn in Hexec; [discriminate|].
    injection Hexec as <-. cbn [session_pool inflight_sessions length] in *. lia.
  - unfold pool_create_under_cap in Hexec.
    destruct (_ <? _) eqn:Hlt; cbn in Hexec; [|discriminate].
    injection Hexec as <-. apply Z.ltb_lt in Hlt.
    cbn [session_pool inflight_sessions]. lia.
  - injection Hexec as <-. unfold pool_return.
    destruct (_ <? _); cbn [snd session_pool inflight_sessions];
      rewrite ?length_app; cbn [length]; lia.
Qed.

Lemma pool_run_bounded cfg ops ps bound :
  hard_cap cfg <= bound ->
  forallb (fun op => negb (is_bypass op)) ops = true ->
  pool_total ps <= bound ->
  pool_total (pool_run cfg ops ps) <= bound.
Proof.
  intros Hcap. revert ps. induction ops as [|op ops IH]; intros ps Hops Hle.
  - exact Hle.
  - cbn [forallb] in Hops. apply andb_true_iff in Hops as [Hop Hops].
    apply negb_true_iff in Hop. cbn [pool_run]. apply IH; [exact Hops|].
    destruct (pool_exec cfg op ps) as [ps'|] eqn:Hexec; cbn [default]; [|exact Hle].
    eapply pool_exec_bounded; eauto.
Qed.

(** The acquisitions and releases of the program move the pool by the
    sections of the transition system, and by the bypass only when the
    stop event is set. *)
Lemma wait_under_cap_sections E cfg fuel s :
  exists ops,
    pool (snd (wait_under_cap E cfg fuel s)) = pool_run cfg ops (pool s)
    /\ ((forall k, stop_is_set E k = false) ->
        forallb (fun op => negb (is_bypass op)) ops = true).
Proof.
  revert s. induction fuel as [|fuel IH]; intros s; cbn [wait_under_cap].
  - exists []. auto.
  - mred. destruct (pool_create_under_cap cfg (pool s)) as [[session ps]|] eqn:Hc; mred.
    + exists [OpCreate]. cbn [pool_run pool_exec]. rewrite Hc. auto.
    + destruct (stop_is_set E (tick s)) eqn:Hstop; mred.
      * exists [OpCreateOnStop]. split; [reflexivity|]. intros H. congruence.
      * match goal with |- context [wait_under_cap E cfg fuel ?s1] =>
          destruct (IH s1) as (ops & Hops & Hby) end.
        exists ops. auto.
Qed.

Lemma get_session_from_pool_sections E cfg fuel s :
  exists ops,
    pool (snd (get_session_from_pool E cfg fuel s)) = pool_run cfg ops (pool s)
    /\ ((forall k, stop_is_set E k = false) ->
        forallb (fun op => negb (is_bypass op)) ops = true).
Proof.
  unfold get_session_from_pool. mred.
  destruct (pool_take (pool s)) as [[session ps]|] eqn:Ht; mred.
  - exists [OpTake]. cbn [pool_run pool_exec]. rewrite Ht. auto.
  - destruct (wait_under_cap_sections E cfg fuel s) as (ops & Hops & Hby).
    exists ops. split; [|exact Hby].
    destruct (wait_under_cap E cfg fuel s) as [[session| e |] s1]; exact Hops.
Qed.

Lemma return_session_to_pool_sections cfg session s :
  pool (snd (return_session_to_pool cfg session s))
  = pool_run cfg [OpReturn session] (pool s).
Proof.
  unfold return_session_to_pool. mred. cbn [pool_run pool_exec default].
  destruct (pool_return cfg session (pool s)) as [[|] ps]; reflexivity.
Qed.

(** C2 (amended). For a positive worker count, when the pool is
    initialised with at most [hard_cap] sessions and no acquisition takes
    the stop-event bypass, idle plus in-flight stays within the hard cap
    after every schedule of pool sections, so at every point of the
    execution. *)
Theorem hard_cap_without_bypass cfg (pool_size : option Z) ops :
  0 < max_workers cfg ->
  default (max_workers cfg) pool_size <= hard_cap cfg ->
  forallb (fun op => negb (is_bypass op)) ops = true ->
  pool_total (pool_run cfg ops (init_session_pool cfg pool_size empty_pool))
  <= hard_cap cfg.
Proof.
  intros Hpos Hsize Hops. apply pool_run_bounded; [lia | exact Hops |].
  rewrite init_session_pool_total. unfold hard_cap in *. lia.
Qed.

(** C2 as stated fails: [run] sizes the initial pool
    by the number of profiles (13 profiles and one worker: 18 idle sessions
    against a cap of 17), and an acquisition that found the deque empty
    and the total at the cap creates a session all the same when the stop
    event is set (one profile and one worker: 6 idle sessions taken,
    11 created, the cap of 17 reached, a bypass makes it 18). *)
Lemma hard_cap_exceeded :
  (let cfg := sample_cfg 1 thirteen in
   hard_cap cfg
   < pool_total (init_session_pool cfg (Some (run_pool_size cfg)) empty_pool))
  /\ (let cfg := sample_cfg 1 ["p1"] in
      let at_cap := pool_run cfg (replicate 6 OpTake ++ replicate 11 OpCreate)
                      (init_session_pool cfg (Some (run_pool_size cfg)) empty_pool) in
      pool_total at_cap = hard_cap cfg
      /\ hard_cap cfg < pool_total (pool_run cfg [OpCreateOnStop] at_cap)).
Proof. vm_compute. repeat split; reflexivity. Qed.

Lemma hard_cap_without_bypass_witness :
  let cfg := sample_cfg 2 ["p1"; "p2"] in
  let ops := [OpTake; OpTake; OpCreate; OpReturn 0%nat; OpTake; OpReturn 1%nat] in
  0 < max_workers cfg
  /\ run_pool_size cfg <= hard_cap cfg
  /\ pool_total (pool_run cfg ops
                  (init_session_pool cfg (Some (run_pool_size cfg)) empty_pool))
     <= hard_cap cfg.
Proof.
  cbv zeta. split; [vm_compute; reflexivity|]. split; [vm_compute; discriminate|].
  apply (hard_cap_without_bypass (sample_cfg 2 ["p1"; "p2"])
           (Some (run_pool_size (sample_cfg 2 ["p1"; "p2"])))
           [OpTake; OpTake; OpCreate; OpReturn 0%nat; OpTake; OpReturn 1%nat]).
  - vm_compute. reflexivity.
  - vm_compute. discriminate.
  - vm_compute. reflexivity.
Defined.

(* ===================================================================== *)
(** ** Chunks *)

Section Chunks.
Context {A : Type}.
Variable l : list A.
Variable w : Z.
Hypothesis w_pos : 0 < w.

Lemma slice_take_drop i :
  0 <= i -> slice l i (i + w) = take (Z.to_nat w) (drop (Z.to_nat i) l).
Proof. intros Hi. unfold slice. f_equal. f_equal. lia. Qed.

(** Starting at [i], the ranged slices tile the rest of the list. *)
Lemma range_up_concat fuel i :
  0 <= i -> (Z.of_nat (length l)) - i <= Z.of_nat fuel ->
  concat (map (fun i => slice l i (i + w)) (range_up fuel i (Z.of_nat (length l)) w))
  = drop (Z.to_nat i) l.
Proof.
  revert i. induction fuel as [|fuel IH]; intros i Hi Hfuel; cbn [range_up].
  - cbn. symmetry. apply drop_ge. lia.
  - destruct (i <? (Z.of_nat (length l))) eqn:Hlt.
    + apply Z.ltb_lt in Hlt. cbn [map concat].
      rewrite IH by lia. rewrite slice_take_drop by lia.
      replace (Z.to_nat (i + w)) with (Z.to_nat i + Z.to_nat w)%nat by lia.
      rewrite <- drop_drop. apply take_drop.
    + apply Z.ltb_ge in Hlt. cbn. symmetry. apply drop_ge. lia.
Qed.

Lemma range_up_lookup fuel i j c :
  0 <= i -> (Z.of_nat (length l)) - i <= Z.of_nat fuel ->
  map (fun i => slice l i (i + w)) (range_up fuel i (Z.of_nat (length l)) w) !! j = Some c ->
  c = take (Z.to_nat w) (drop (Z.to_nat (i + Z.of_nat j * w)) l)
  /\ i + Z.of_nat j * w < (Z.of_nat (length l)).
Proof.
  revert i j. induction fuel as [|fuel IH]; intros i j Hi Hfuel; cbn [range_up].
  - cbn. discriminate.
  - destruct (i <? (Z.of_nat (length l))) eqn:Hlt; [|cbn; discriminate].
    apply Z.ltb_lt in Hlt. cbn [map]. destruct j as [|j]; cbn [lookup list_lookup].
    + intros [= <-]. rewrite slice_take_drop by lia. split; [f_equal; f_equal; lia | lia].
    + intros Hc. apply IH in Hc; [|lia|lia]. destruct Hc as [-> Hb].
      split; [f_equal; f_equal; lia | lia].
Qed.

Lemma make_chunks_some :
  make_chunks w l
  = Some (if (Z.of_nat (length l)) >? w then map (fun i => slice l i (i + w)) (range_up (length l) 0 (Z.of_nat (length l)) w)
          else [l]).
Proof.
  unfold make_chunks, py_range.   destruct ((Z.of_nat (length l)) >? w); [|reflexivity].
  destruct (w =? 0) eqn:H0; [apply Z.eqb_eq in H0; lia|].
  destruct (w <? 0) eqn:H1; [apply Z.ltb_lt in H1; lia|].
  now rewrite Nat2Z.id.
Qed.

(** What [make_chunks] gives for a positive worker count. *)
Lemma make_chunks_spec :
  exists chunks,
    make_chunks w l = Some chunks
    /\ concat chunks = l
    /\ ((Z.of_nat (length l)) <= w -> chunks = [l])
    /\ (w < (Z.of_nat (length l)) ->
        forall j c, chunks !! j = Some c ->
          c = take (Z.to_nat w) (drop (j * Z.to_nat w) l)
          /\ (0 < length c <= Z.to_nat w)%nat
          /\ (S j < length chunks -> length c = Z.to_nat w)%nat).
Proof.
  rewrite make_chunks_some. eexists. split; [reflexivity|].
  destruct ((Z.of_nat (length l)) >? w) eqn:Hgt.
  - apply Z.gtb_lt in Hgt. split; [|split; [lia|]].
    + rewrite range_up_concat; [reflexivity | lia | lia].
    + intros _ j c Hc.
      assert (Hj : forall j c, map (fun i => slice l i (i + w))
                     (range_up (length l) 0 (Z.of_nat (length l)) w) !! j = Some c ->
                   c = take (Z.to_nat w) (drop (j * Z.to_nat w) l)
                   /\ Z.of_nat j * w < (Z.of_nat (length l))).
      { intros j' c' Hc'. apply range_up_lookup in Hc'; [|lia|lia].
        destruct Hc' as [-> Hb]. split; [|lia]. f_equal. f_equal. lia. }
      destruct (Hj j c Hc) as [-> Hb]. split; [reflexivity|].
      rewrite length_take, length_drop. split; [nia|].
      intros Hnext.
      destruct (lookup_lt_is_Some_2 _ _ Hnext) as [c' Hc'].
      apply Hj in Hc' as [_ Hb']. nia.
  - rewrite Z.gtb_ltb in Hgt. apply Z.ltb_ge in Hgt. split; [|split; [reflexivity|lia]].
    cbn. apply app_nil_r.
Qed.
End Chunks.

Example twenty_by_eight :
  (map length <$> make_chunks 8 (seq 0 20)) = Some [8; 8; 4]%nat.
Proof. vm_compute. reflexivity. Qed.

(* ===================================================================== *)
(** ** Fan-out dispatcher *)

Lemma for_each_pure {A B} (f : B -> A -> B) (l : list A) (acc : B) (s : sys) :
  for_each (fun r x s0 => (Ok (f r x), s0)) l acc s = (Ok (fold_left f l acc), s).
Proof.
  revert acc. induction l as [|x l IH]; intros acc; cbn [for_each fold_left].
  - reflexivity.
  - unfold bind. apply IH.
Qed.

Lemma fold_insert_lookup {V} (v : V) (chunk : list profile) (results : gmap pystr V)
    (name : pystr) :
  fold_left (fun r p => <[profile_name p := v]> r) chunk results !! name
  = if bool_decide (name ∈ map profile_name chunk) then Some v else results !! name.
Proof.
  revert results. induction chunk as [|p chunk IH]; intros results; cbn [fold_left map].
  - rewrite bool_decide_eq_false_2; [reflexivity | apply not_elem_of_nil].
  - rewrite IH. destruct (bool_decide (name ∈ map profile_name chunk)) eqn:Hin.
    + apply bool_decide_eq_true in Hin. rewrite bool_decide_eq_true_2; [reflexivity|].
      now right.
    + apply bool_decide_eq_false in Hin.
      destruct (decide (name = profile_name p)) as [->|Hne].
      * rewrite bool_decide_eq_true_2 by left. apply lookup_insert_eq.
      * rewrite bool_decide_eq_false_2.
        -- now apply lookup_insert_ne.
        -- intros [?|?]%elem_of_cons; contradiction.
Qed.

(** Ticks are only ever consumed. *)
#[global] Instance later_refl : Reflexive later.
Proof. intros s. unfold later. lia. Qed.

#[global] Instance later_trans : Transitive later.
Proof. intros s1 s2 s3. unfold later. lia. Qed.

Section Later.
Variable E : env.
Variable cfg : config.

Lemma later_step_tick : rel later step_tick.
Proof. intros s. unfold later. cbn. lia. Qed.

Lemma later_emit e : rel later (emit e).
Proof. intros s. unfold later. cbn. lia. Qed.

Lemma later_time_time : rel later (time_time E).
Proof.
  unfold time_time. apply rel_bind; [apply later_step_tick | intros; apply rel_ret].
Qed.

Lemma later_stop : rel later (stop_event_is_set E).
Proof.
  unfold stop_event_is_set.
  apply rel_bind; [apply later_step_tick | intros; apply rel_ret].
Qed.

Lemma later_pool_section f : rel later (pool_section f).
Proof.
  intros s. unfold pool_section, later. destruct (f (pool s)) as [[x ps]|]; cbn; lia.
Qed.

Lemma later_pool_update {A} (f : pool_state -> A * pool_state) : rel later (pool_update f).
Proof. intros s. unfold pool_update, later. destruct (f (pool s)); cbn. lia. Qed.

Lemma later_session_get x r : rel later (session_get E x r).
Proof.
  unfold session_get. apply rel_bind; [apply later_step_tick|]. intros k.
  apply rel_bind; [apply later_emit|]. intros _.
  destruct (http E k x r); [apply rel_ret | apply rel_raise].
Qed.

Lemma later_wait_under_cap fuel : rel later (wait_under_cap E cfg fuel).
Proof.
  induction fuel as [|fuel IH]; cbn [wait_under_cap]; [apply rel_out_of_fuel|].
  apply rel_bind; [apply later_pool_section|]. intros [x|]; [apply rel_ret|].
  apply rel_bind; [apply later_stop|]. intros [|]; [apply later_pool_update|].
  apply rel_bind; [apply later_emit | intros; apply IH].
Qed.

Lemma later_get_session_from_pool fuel : rel later (get_session_from_pool E cfg fuel).
Proof.
  unfold get_session_from_pool. apply rel_bind; [apply later_pool_section|].
  intros got. apply rel_bind.
  - destruct got; [apply rel_ret | apply later_wait_under_cap].
  - intros x. apply rel_bind; [apply later_emit | intros; apply rel_ret].
Qed.

Lemma later_return_session_to_pool x : rel later (return_session_to_pool cfg x).
Proof.
  unfold return_session_to_pool. apply rel_bind; [apply later_emit|]. intros _.
  apply rel_bind; [apply later_pool_update|]. intros [|]; [apply later_emit | apply rel_ret].
Qed.

Lemma later_submit_request x p d sid c : rel later (submit_request E cfg x p d sid c).
Proof.
  unfold submit_request. apply rel_try_except.
  - cbv zeta. apply rel_bind; [apply later_session_get|]. intros response.
    destruct (status_code response =? 503); [apply rel_ret|].
    destruct (status_code response =? 500); [apply rel_ret|].
    destruct (negb (status_code response =? 200)); [apply rel_ret|].
    destruct (classify_error _ _ _) as [error_type description].
    destruct (bool_decide _); apply rel_ret.
  - intros e h Hh. destruct e; inversion Hh; subst; apply rel_ret.
Qed.

Lemma later_register_single_attempt fuel p d sid c :
  rel later (register_single_attempt E cfg fuel p d sid c).
Proof.
  unfold register_single_attempt.
  apply rel_bind; [apply later_get_session_from_pool|]. intros x.
  apply rel_try_finally; [apply later_submit_request | apply later_return_session_to_pool].
Qed.

Lemma later_collect_task fuel d sid c results p :
  rel later (collect_task E cfg fuel d sid c results p).
Proof.
  unfold collect_task. apply rel_try_except.
  - apply rel_bind; [apply later_register_single_attempt | intros; apply rel_ret].
  - intros e h Hh. destruct (is_Exception e); inversion Hh; subst. apply rel_ret.
Qed.

End Later.

Section Dispatcher.
Variable E : env.
Variable cfg : config.

(** C7. A chunk whose start finds the credential 55 s old or older gets
    the [CAPTCHA_EXPIRED] outcome for every profile in it and runs
    nothing: the trace, hence the network, and the pool are untouched. *)
Theorem expired_chunk_not_executed fuel date_id session_id captcha_text
    captcha_timestamp n_chunks results chunk_idx chunk s :
  55 * 1000 <= clock E (tick s) - captcha_timestamp ->
  let run := run_chunk E cfg fuel date_id session_id captcha_text captcha_timestamp
               n_chunks results (chunk_idx, chunk) s in
  exists results',
    fst run = Ok results'
    /\ (forall p, p ∈ chunk ->
          results' !! profile_name p
          = Some (false, CAPTCHA_EXPIRED, py "Captcha expired before batch"))
    /\ (forall name, name ∉ map profile_name chunk -> results' !! name = results !! name)
    /\ trace (snd run) = trace s
    /\ pool (snd run) = pool s
    /\ store (snd run) = store s.
Proof.
  intros Hexp. cbv zeta. unfold run_chunk, is_captcha_valid. mred.
  apply Z.ltb_ge in Hexp. rewrite Hexp. cbn [negb].
  rewrite for_each_pure. cbn [fst snd trace pool store].
  eexists. split; [reflexivity|]. repeat split.
  - intros p Hp. rewrite fold_insert_lookup, bool_decide_eq_true_2; [reflexivity|].
    now apply list_elem_of_fmap_2.
  - intros name Hn. rewrite fold_insert_lookup, bool_decide_eq_false_2; auto.
Qed.

Lemma for_each_submit_trace date_id session_id captcha_text chunk s :
  exists s',
    for_each (submit_task date_id session_id captcha_text) chunk tt s = (Ok tt, s')
    /\ trace s' = trace s
         ++ map (fun p => EvSubmit (profile_name p) date_id session_id captcha_text) chunk.
Proof.
  revert s. induction chunk as [|p chunk IH]; intros s; cbn [for_each map].
  - exists s. rewrite app_nil_r. auto.
  - unfold submit_task at 1. mred.
    match goal with |- context [for_each _ chunk tt ?s1] =>
      destruct (IH s1) as (s' & Hrun & Ht) end.
    exists s'. split; [exact Hrun|]. rewrite Ht. cbn [trace].
    now rewrite <- app_assoc.
Qed.

Lemma collect_task_trace fuel date_id session_id captcha_text results p s r' s' :
  collect_task E cfg fuel date_id session_id captcha_text results p s = (Ok r', s') ->
  exists t,
    trace s' = trace s ++ t /\ Forall io_event t
    /\ released t = acquired t /\ length (released t) = 1%nat.
Proof.
  unfold collect_task, try_except, bind. intros Hrun.
  destruct (register_single_attempt_trace E cfg fuel p date_id session_id captcha_text s)
    as (t & Ht & Hio & Hrel & Hlen & _).
  destruct (register_single_attempt E cfg fuel p date_id session_id captcha_text s)
    as [[o| e |] s1]; cbn [fst snd is_Fuel] in *.
  - injection Hrun as _ <-. exists t. rewrite Hrel. repeat split; auto.
  - destruct (is_Exception e); [|discriminate]. injection Hrun as _ <-.
    exists t. rewrite Hrel. repeat split; auto.
  - discriminate.
Qed.

Lemma for_each_collect_trace fuel date_id session_id captcha_text chunk results s r' s' :
  for_each (collect_task E cfg fuel date_id session_id captcha_text) chunk results s
    = (Ok r', s') ->
  exists body,
    trace s' = trace s ++ body /\ Forall io_event body
    /\ released body = acquired body /\ length (released body) = length chunk.
Proof.
  revert results s. induction chunk as [|p chunk IH]; intros results s; cbn [for_each].
  - intros [= _ <-]. exists []. rewrite app_nil_r. auto.
  - unfold bind at 1.
    destruct (collect_task E cfg fuel date_id session_id captcha_text results p s)
      as [[r1| e |] s1] eqn:H1; try discriminate.
    intros Hrest. apply collect_task_trace in H1 as (t & Ht & Hio & Hrel & Hlen).
    apply IH in Hrest as (body & Hb & Hiob & Hrelb & Hlenb).
    exists (t ++ body). rewrite Hb, Ht, <- app_assoc.
    rewrite !released_app, !acquired_app, length_app, Hrel, Hrelb, <- Hrel, <- Hrelb.
    rewrite Hlen, Hlenb. repeat split; auto. apply Forall_app; auto.
Qed.

Lemma filter_submit_map d sid c (chunk : list profile) :
  List.filter is_submit (map (fun p => EvSubmit (profile_name p) d sid c) chunk)
  = map (fun p => EvSubmit (profile_name p) d sid c) chunk.
Proof. induction chunk as [|p chunk IH]; cbn; [reflexivity | now rewrite IH]. Qed.

Lemma filter_not_submit_map d sid c (chunk : list profile) :
  List.filter (fun e => negb (is_submit e))
    (map (fun p => EvSubmit (profile_name p) d sid c) chunk) = [].
Proof. induction chunk as [|p chunk IH]; cbn; [reflexivity | exact IH]. Qed.

Lemma filter_io_events (body : list event) :
  Forall io_event body ->
  List.filter is_submit body = []
  /\ List.filter (fun e => negb (is_submit e)) body = body.
Proof.
  induction 1 as [|e body He _ [IH1 IH2]]; [split; reflexivity|].
  destruct e; try destruct He; cbn; rewrite ?IH1, ?IH2; split; reflexivity.
Qed.

Lemma submits_untouched d sid c (chunk : list profile) :
  acquired (map (fun p => EvSubmit (profile_name p) d sid c) chunk) = []
  /\ released (map (fun p => EvSubmit (profile_name p) d sid c) chunk) = [].
Proof. induction chunk as [|p chunk IH]; cbn; [split; reflexivity | exact IH]. Qed.

Lemma for_each_submit_tick d sid c chunk s :
  tick (snd (for_each (submit_task d sid c) chunk tt s)) = tick s.
Proof.
  revert s. induction chunk as [|p chunk IH]; intros s; cbn [for_each]; [reflexivity|].
  unfold submit_task at 1. mred. rewrite IH. reflexivity.
Qed.

(** One pass of the loop over the chunks: the validity check reads the
    clock at the tick the pass starts at. *)
Lemma run_chunk_segment fuel date_id session_id captcha_text captcha_timestamp
    n_chunks results chunk_idx chunk s r' s' :
  run_chunk E cfg fuel date_id session_id captcha_text captcha_timestamp n_chunks
            results (chunk_idx, chunk) s = (Ok r', s') ->
  exists seg,
    trace s' = trace s ++ seg
    /\ chunk_segment date_id session_id captcha_text n_chunks chunk_idx chunk
         (clock E (tick s) - captcha_timestamp <? 55 * 1000) seg
    /\ (tick s < tick s')%nat.
Proof.
  unfold run_chunk, is_captcha_valid. mred.
  destruct (clock E (tick s) - captcha_timestamp <? 55 * 1000); cbn [negb].
  - match goal with |- context [for_each (submit_task _ _ _) chunk tt ?s0] =>
      destruct (for_each_submit_trace date_id session_id captcha_text chunk s0)
        as (s1 & Hsub & Ht1);
      pose proof (for_each_submit_tick date_id session_id captcha_text chunk s0) as Hk1
    end.
    rewrite Hsub in Hk1 |- *. cbn [snd tick next_tick] in Hk1.
    destruct (for_each (collect_task E cfg fuel date_id session_id captcha_text)
                chunk results s1) as [[r1| e |] s2] eqn:Hcol; try discriminate.
    assert (Hk2 : (tick s1 <= tick s2)%nat).
    { pose proof (rel_for_each (R := later)
        (collect_task E cfg fuel date_id session_id captcha_text) chunk
        (fun acc p _ => later_collect_task E cfg fuel date_id session_id captcha_text
                          acc p) results s1) as H.
      rewrite Hcol in H. exact H. }
    apply for_each_collect_trace in Hcol as (body & Hb & Hio & Hrel & Hlen).
    cbn [trace] in Ht1. unfold chunk_segment.
    destruct (filter_io_events body Hio) as [Hf1 Hf2].
    destruct (submits_untouched date_id session_id captcha_text chunk) as [Ha Hr].
    assert (Hmid : exists middle,
              middle = map (fun p => EvSubmit (profile_name p) date_id session_id
                                       captcha_text) chunk ++ body
              /\ List.filter is_submit middle
                 = map (fun p => EvSubmit (profile_name p) date_id session_id
                                   captcha_text) chunk
              /\ Forall io_event (List.filter (fun e => negb (is_submit e)) middle)
              /\ released middle ≡ₚ acquired middle
              /\ length (acquired middle) = length chunk).
    { eexists. split; [reflexivity|].
      rewrite !List.filter_app, filter_submit_map, filter_not_submit_map, Hf1, Hf2,
        app_nil_r, released_app, acquired_app, Ha, Hr, Hrel.
      cbn [app]. rewrite <- Hrel. auto. }
    destruct Hmid as (middle & -> & Hm).
    destruct (chunk_idx <? n_chunks)%nat; intros [= _ <-]; cbn [trace tick];
      eexists; (split; [rewrite Hb, Ht1, <- ?app_assoc; reflexivity|]);
      (split; [|lia]); eexists; (split; [|exact Hm]);
      rewrite <- ?app_assoc, ?app_nil_r; reflexivity.
  - rewrite for_each_pure. intros [= _ <-]. exists []. cbn [trace tick next_tick].
    rewrite app_nil_r. split; [reflexivity|]. split; [reflexivity | lia].
Qed.

(** A loop whose passes each add a segment to the trace adds their
    concatenation; the passes start at increasing ticks. *)
Lemma for_each_segments {A B} (body : B -> A -> M B)
    (Q : A -> nat -> list event -> Prop) (l : list A) :
  (forall acc x s r s1, body acc x s = (Ok r, s1) ->
     exists seg, trace s1 = trace s ++ seg /\ Q x (tick s) seg /\ (tick s < tick s1)%nat) ->
  forall acc s r s', for_each body l acc s = (Ok r, s') ->
    exists starts segs,
      trace s' = trace s ++ concat segs
      /\ Forall3 Q l starts segs
      /\ (tick s <= tick s')%nat
      /\ Forall (fun k => (tick s <= k < tick s')%nat) starts
      /\ StronglySorted lt starts
      /\ (l <> [] -> head starts = Some (tick s)).
Proof.
  intros Hbody. induction l as [|x l IH]; intros acc s r s'; cbn [for_each].
  - intros [= _ <-]. exists [], []. cbn. rewrite app_nil_r.
    repeat split; auto; try constructor. congruence.
  - unfold bind at 1. destruct (body acc x s) as [[r1| e |] s1] eqn:H1; try discriminate.
    intros Hrest. apply Hbody in H1 as (seg & Hseg & HQ & Hlt).
    apply IH in Hrest as (starts & segs & Hsegs & HQs & Hle & Hin & Hsort & _).
    exists (tick s :: starts), (seg :: segs). cbn [concat head].
    rewrite Hsegs, Hseg, <- app_assoc.
    split; [reflexivity|]. split; [constructor; auto|]. split; [lia|].
    split; [|split; [|reflexivity]].
    + constructor; [lia|]. eapply Forall_impl; [exact Hin|]. cbn. intros k Hk. lia.
    + constructor; [exact Hsort|].
      eapply Forall_impl; [exact Hin|]. cbn. intros k Hk. lia.
Qed.

(** C6 (amended). For a positive worker count the batch is cut into
    consecutive chunks of [max_workers] profiles, the last one possibly
    shorter, or kept whole when it fits. The trace of a round that returns
    is the round mark followed by one segment per chunk, in order. A chunk
    whose validity check, made at the tick the chunk starts at, finds the
    credential younger than 55 s has all its submissions and the whole
    activity of its tasks inside its segment, so before the first event of
    the next chunk, and the 30 ms pause closes the segment exactly when
    more chunks remain; a chunk that fails the check contributes nothing.
    The first chunk starts at the tick of entry and the chunks start at
    increasing ticks of the run. *)
Theorem chunked_dispatch fuel batch date_id session_id captcha_text
    captcha_timestamp s results s' :
  0 < max_workers cfg ->
  register_batch_with_shared_captcha E cfg fuel batch date_id session_id
    captcha_text captcha_timestamp s = (Ok results, s') ->
  let w := Z.to_nat (max_workers cfg) in
  exists chunks starts segs,
    make_chunks (max_workers cfg) batch = Some chunks
    /\ concat chunks = batch
    /\ ((length batch <= w)%nat -> chunks = [batch])
    /\ ((w < length batch)%nat ->
        forall j c, chunks !! j = Some c ->
          c = take w (drop (j * w) batch)
          /\ (0 < length c <= w)%nat
          /\ (S j < length chunks -> length c = w)%nat)
    /\ trace s' = trace s ++ EvRound captcha_text captcha_timestamp :: concat segs
    /\ Forall3 (fun ic k seg =>
                  chunk_segment date_id session_id captcha_text (length chunks)
                    (fst ic) (snd ic)
                    (clock E k - captcha_timestamp <? 55 * 1000) seg)
               (enumerate_from 1 chunks) starts segs
    /\ head starts = Some (tick s)
    /\ StronglySorted lt starts
    /\ Forall (fun k => (k < tick s')%nat) starts.
Proof.
  intros Hw Hrun. cbv zeta.
  destruct (make_chunks_spec batch (max_workers cfg) Hw)
    as (chunks & Hmk & Hcat & Hone & Hmany).
  unfold register_batch_with_shared_captcha in Hrun. rewrite Hmk in Hrun.
  mred_in Hrun.
  eapply (for_each_segments _
            (fun ic k seg => chunk_segment date_id session_id captcha_text
                               (length chunks) (fst ic) (snd ic)
                               (clock E k - captcha_timestamp <? 55 * 1000) seg))
    in Hrun.
  - destruct Hrun as (starts & segs & Ht & HQ & _ & Hin & Hsort & Hhead).
    cbn [tick trace] in *.
    exists chunks, starts, segs.
    split; [exact Hmk|]. split; [exact Hcat|].
    split; [intros; apply Hone; lia|].
    split; [intros Hlt j c Hc; apply Hmany; [lia | exact Hc]|].
    split; [rewrite Ht; now rewrite <- app_assoc|].
    split; [exact HQ|]. split; [|split; [exact Hsort|]].
    + apply Hhead. destruct chunks as [|c chunks]; [|discriminate].
      destruct (decide (length batch <= Z.to_nat (max_workers cfg))%nat) as [Hle|Hgt].
      * specialize (Hone ltac:(lia)). discriminate.
      * cbn in Hcat. subst batch. cbn in Hgt. lia.
    + eapply Forall_impl; [exact Hin|]. cbn. intros k Hk. lia.
  - intros acc [idx chunk] s0 r s1 Hr. cbn [fst snd].
    eapply run_chunk_segment; eauto.
Qed.
End Dispatcher.

Lemma expired_chunk_not_executed_witness :
  let chunk := map sample_profile ["p1"; "p2"] in
  let run := run_chunk late_world (sample_cfg 2 ["p1"; "p2"]) 1 67 101 (py "abcde") 0 1 ∅
               (1%nat, chunk) (fresh_sys 2) in
  55 * 1000 <= clock late_world (tick (fresh_sys 2)) - 0
  /\ exists results',
       fst run = Ok results'
       /\ (forall p, p ∈ chunk ->
             results' !! profile_name p
             = Some (false, CAPTCHA_EXPIRED, py "Captcha expired before batch"))
       /\ trace (snd run) = trace (fresh_sys 2).
Proof.
  cbv zeta. split; [vm_compute; discriminate|].
  destruct (expired_chunk_not_executed late_world (sample_cfg 2 ["p1"; "p2"]) 1 67 101
              (py "abcde") 0 1 ∅ 1%nat (map sample_profile ["p1"; "p2"]) (fresh_sys 2))
    as (results' & Hok & Hall & _ & Htrace & _).
  - vm_compute. discriminate.
  - exists results'. auto.
Defined.

Lemma chunked_dispatch_witness :
  let cfg := sample_cfg 8 twenty in
  let run := register_batch_with_shared_captcha accepting_world cfg 1 (profiles cfg)
               67 101 (py "abcde") 0 (fresh_sys 20) in
  0 < max_workers cfg
  /\ is_Ok (fst run) = true
  /\ length (acquired (trace (snd run))) = 20%nat
  /\ exists chunks starts segs,
       make_chunks 8 (profiles cfg) = Some chunks
       /\ map length chunks = [8; 8; 4]%nat
       /\ trace (snd run) = EvRound (py "abcde") 0 :: concat segs
       /\ length segs = 3%nat
       /\ head starts = Some 0%nat.
Proof.
  cbv zeta. split; [vm_compute; reflexivity|]. split; [vm_compute; reflexivity|].
  split; [vm_compute; reflexivity|].
  destruct (chunked_dispatch accepting_world (sample_cfg 8 twenty) 1
              (profiles (sample_cfg 8 twenty)) 67 101 (py "abcde") 0 (fresh_sys 20)
              (value_of ∅ (fst (register_batch_with_shared_captcha accepting_world
                 (sample_cfg 8 twenty) 1 (profiles (sample_cfg 8 twenty))
                 67 101 (py "abcde") 0 (fresh_sys 20))))
              (snd (register_batch_with_shared_captcha accepting_world
                 (sample_cfg 8 twenty) 1 (profiles (sample_cfg 8 twenty))
                 67 101 (py "abcde") 0 (fresh_sys 20))))
    as (chunks & starts & segs & Hmk & _ & _ & _ & Htrace & Hsegs & Hhead & _).
  - vm_compute. reflexivity.
  - vm_compute. reflexivity.
  - exists chunks, starts, segs. split; [exact Hmk|].
    assert (Hlen : length (enumerate_from 1 chunks) = length segs).
    { clear -Hsegs. induction Hsegs; cbn; congruence. }
    assert (Hc : Some chunks = make_chunks 8 (profiles (sample_cfg 8 twenty)))
      by (symmetry; exact Hmk).
    vm_compute in Hc. injection Hc as ->.
    split; [reflexivity|]. split; [exact Htrace|]. split; [now rewrite <- Hlen|].
    exact Hhead.
Defined.

(** C6 as stated, for every worker count, fails: with no worker and three
    profiles the length exceeds the count and the chunk expression raises
    ([range] with step 0); with a count of -1 the length exceeds it too and
    the expression gives no chunk, so the round returns the empty result
    and has submitted nothing. *)
Lemma dispatch_without_workers :
  (let cfg := sample_cfg 0 ["p1"; "p2"; "p3"] in
   let run := register_batch_with_shared_captcha accepting_world cfg 1 (profiles cfg)
                67 101 (py "abcde") 0 (fresh_sys 3) in
   max_workers cfg < Z.of_nat (length (profiles cfg))
   /\ make_chunks (max_workers cfg) (profiles cfg) = None
   /\ fst run = Raise (ExOther (py "range() arg 3 must not be zero"))
   /\ trace (snd run) = [EvRound (py "abcde") 0])
  /\ (let cfg := sample_cfg (-1) ["p1"; "p2"; "p3"] in
      let run := register_batch_with_shared_captcha accepting_world cfg 1 (profiles cfg)
                   67 101 (py "abcde") 0 (fresh_sys 3) in
      max_workers cfg < Z.of_nat (length (profiles cfg))
      /\ make_chunks (max_workers cfg) (profiles cfg) = Some []
      /\ fst run = Ok ∅
      /\ trace (snd run) = [EvRound (py "abcde") 0]).
Proof. vm_compute. repeat split; reflexivity. Qed.

(* ===================================================================== *)
(** ** Credential lifecycle *)

Section Credential.
Variable E : env.
Variable cfg : config.

Lemma fetch_session_get session r : rel (grows fetch_event) (session_get E session r).
Proof.
  unfold session_get. apply rel_bind; [apply rel_silent; intros s; now mred|].
  intros k. apply rel_bind; [now apply rel_emit|].
  intros _. destruct (http E k session r); [apply rel_ret | apply rel_raise].
Qed.

Lemma fetch_captcha_attempt session : rel (grows fetch_event) (captcha_attempt E session).
Proof.
  unfold captcha_attempt. apply rel_try_except.
  - apply rel_bind; [apply fetch_session_get|]. intros response.
    destruct (status_code response =? 503); [apply rel_ret|].
    destruct (negb (status_code response =? 200)); [apply rel_ret|].
    destruct (search_src (text response)) as [path|]; [|apply rel_ret].
    apply rel_bind; [apply fetch_session_get|]. intros img_response.
    destruct (status_code img_response =? 503); [apply rel_ret|].
    destruct (negb (status_code img_response =? 200)); [apply rel_ret|].
    apply rel_bind; [apply io_predict|]. intros captcha_text.
    destruct (_ || _); [apply rel_ret|].
    apply rel_bind; [apply io_time_time | intros; apply rel_ret].
  - intros e h Hh. destruct e; inversion Hh; subst; apply rel_ret.
Qed.

Lemma fetch_captcha_loop fuel session :
  rel (grows fetch_event) (captcha_loop E fuel session).
Proof.
  induction fuel as [|fuel IH]; cbn [captcha_loop].
  - apply rel_out_of_fuel.
  - apply rel_bind; [apply fetch_captcha_attempt|].
    intros [c|]; [apply rel_ret | exact IH].
Qed.

Lemma fetch_get_fresh_captcha fuel session :
  rel (grows fetch_event) (get_fresh_captcha E fuel session).
Proof.
  unfold get_fresh_captcha. apply rel_bind.
  - destruct session; [apply rel_ret|].
    apply rel_bind; [apply io_pool_update | intros; apply rel_ret].
  - intros [own_session owns]. apply rel_try_finally.
    + apply rel_bind; [apply fetch_captcha_loop|]. intros c.
      apply rel_bind; [now apply rel_emit | intros; apply rel_ret].
    + destruct owns; [now apply rel_emit | apply rel_ret].
Qed.

(** An attempt returns a credential only when every step succeeded. *)
Lemma captcha_attempt_some session s c s1 :
  captcha_attempt E session s = (Ok (Some c), s1) ->
  success_at E session (tick s) c /\ tick s1 = (tick s + 4)%nat.
Proof.
  unfold captcha_attempt, success_at. mred.
  destruct (http E (tick s) session LoadCaptcha) as [r1|e] eqn:H1; mred;
    [|destruct e; intros Heq; discriminate Heq].
  destruct (status_code r1 =? 503) eqn:H503; mred; [intros Heq; discriminate Heq|].
  destruct (status_code r1 =? 200) eqn:H200; cbn [negb]; mred;
    [|intros Heq; discriminate Heq].
  destruct (search_src (text r1)) as [path|] eqn:Hsrc; mred;
    [|intros Heq; discriminate Heq].
  destruct (http E (S (tick s)) session (CaptchaImage path)) as [r2|e] eqn:H2; mred;
    [|destruct e; intros Heq; discriminate Heq].
  destruct (status_code r2 =? 503) eqn:H503'; mred; [intros Heq; discriminate Heq|].
  destruct (status_code r2 =? 200) eqn:H200'; cbn [negb]; mred;
    [|intros Heq; discriminate Heq].
  destruct (ocr E (S (S (tick s))) (content r2)) as [t|e] eqn:Hocr; mred;
    [|destruct e; intros Heq; discriminate Heq].
  destruct (negb (truthy t) || negb (length t =? 5)%nat) eqn:Hfmt; mred;
    [intros Heq; discriminate Heq|].
  intros [= <- <-]. cbn [fst snd tick].
  apply orb_false_iff in Hfmt as [_ Hlen]. apply negb_false_iff, Nat.eqb_eq in Hlen.
  apply Z.eqb_eq in H200, H200'.
  split; [|lia]. exists r1, path, r2. repeat split; auto.
Qed.

(** Every failure of the list ends the attempt in [continue]. *)
Lemma failed_attempt_continues session s :
  attempt_fails E session (tick s) ->
  exists s1, captcha_attempt E session s = (Ok None, s1).
Proof.
  intros Hfail. unfold captcha_attempt. mred.
  destruct Hfail as [e H1 He | r1 H1 Hst | r1 H1 Hst Hsrc
                    | r1 path e H1 Hst Hsrc H2 He | r1 path r2 H1 Hst Hsrc H2 Hst2
                    | r1 path r2 e H1 Hst Hsrc H2 Hst2 Hocr He
                    | r1 path r2 t H1 Hst Hsrc H2 Hst2 Hocr Hlen];
    rewrite H1; mred.
  - destruct e; try discriminate; eauto.
  - destruct (status_code r1 =? 503); mred; [eauto|].
    apply Z.eqb_neq in Hst. rewrite Hst. cbn [negb]. eauto.
  - rewrite Hst. cbn [Z.eqb Pos.eqb negb]. rewrite Hsrc. eauto.
  - rewrite Hst. cbn [Z.eqb Pos.eqb negb]. rewrite Hsrc. mred. rewrite H2. mred.
    destruct e; try discriminate; eauto.
  - rewrite Hst. cbn [Z.eqb Pos.eqb negb]. rewrite Hsrc. mred. rewrite H2. mred.
    destruct (status_code r2 =? 503); mred; [eauto|].
    apply Z.eqb_neq in Hst2. rewrite Hst2. cbn [negb]. eauto.
  - rewrite Hst. cbn [Z.eqb Pos.eqb negb]. rewrite Hsrc. mred. rewrite H2. mred.
    rewrite Hst2. cbn [Z.eqb Pos.eqb negb]. mred. rewrite Hocr. mred.
    destruct e; try discriminate; eauto.
  - rewrite Hst. cbn [Z.eqb Pos.eqb negb]. rewrite Hsrc. mred. rewrite H2. mred.
    rewrite Hst2. cbn [Z.eqb Pos.eqb negb]. mred. rewrite Hocr. mred.
    apply Nat.eqb_neq in Hlen. rewrite Hlen. cbn [negb]. rewrite orb_true_r. eauto.
Qed.

(** After [n] failed attempts the loop is where it started, with [n] less
    fuel: the next attempt follows at once, whatever [n]. *)
Lemma captcha_loop_after_failures n fuel session s sn :
  after_failures E n session s = Some sn ->
  captcha_loop E (n + fuel) session s = captcha_loop E fuel session sn.
Proof.
  revert s. induction n as [|n IH]; intros s; cbn [after_failures].
  - now intros [= ->].
  - cbn [Nat.add captcha_loop]. unfold bind at 1.
    destruct (captcha_attempt E session s) as [[[c|]| e |] s1]; try discriminate.
    apply IH.
Qed.

Lemma captcha_loop_ok fuel session s c s1 :
  captcha_loop E fuel session s = (Ok c, s1) ->
  exists n sn,
    (n < fuel)%nat /\ after_failures E n session s = Some sn
    /\ captcha_attempt E session sn = (Ok (Some c), s1).
Proof.
  revert s. induction fuel as [|fuel IH]; intros s; cbn [captcha_loop].
  - discriminate.
  - unfold bind at 1.
    destruct (captcha_attempt E session s) as [[[c'|]| e |] s2] eqn:Hatt; try discriminate.
    + intros [= <- <-]. exists 0%nat, s. split; [lia|]. split; [reflexivity | exact Hatt].
    + intros Hrest. apply IH in Hrest as (n & sn & Hn & Haf & Hlast).
      exists (S n), sn. split; [lia|]. split; [|exact Hlast].
      cbn [after_failures]. now rewrite Hatt.
Qed.

Lemma get_fresh_captcha_ok fuel session s c s' :
  get_fresh_captcha E fuel session s = (Ok c, s') ->
  exists n sn,
    (n < fuel)%nat
    /\ after_failures E n (fst (fetch_session session s)) (snd (fetch_session session s))
       = Some sn
    /\ success_at E (fst (fetch_session session s)) (tick sn) c
    /\ tick s' = (tick sn + 4)%nat
    /\ exists t, trace s' = trace s ++ t /\ Forall fetch_event t.
Proof.
  intros Hrun.
  destruct (fetch_get_fresh_captcha fuel session s) as [_ Htrace].
  rewrite Hrun in Htrace. cbn [snd] in Htrace.
  assert (Hloop : exists s1,
            captcha_loop E fuel (fst (fetch_session session s))
                         (snd (fetch_session session s)) = (Ok c, s1)
            /\ tick s' = tick s1).
  { unfold get_fresh_captcha in Hrun. destruct session as [given|].
    - mred_in Hrun. cbn [fetch_session fst snd].
      destruct (captcha_loop E fuel given s) as [[c1| e |] s1]; try discriminate.
      injection Hrun as <- <-. exists s1. auto.
    - mred_in Hrun. cbv [create_session_with_pool] in Hrun. mred_in Hrun.
      cbv [fetch_session create_session_with_pool set_pool]. cbn [fst snd].
      match type of Hrun with context [captcha_loop E fuel ?x ?y] =>
        destruct (captcha_loop E fuel x y) as [[c1| e |] s1] end; try discriminate.
      injection Hrun as <- <-. exists s1. auto. }
  destruct Hloop as (s1 & Hloop & Htick).
  apply captcha_loop_ok in Hloop as (n & sn & Hn & Haf & Hlast).
  apply captcha_attempt_some in Hlast as [Hsucc Htick1].
  exists n, sn. rewrite Htick. auto.
Qed.

(** C9. A run of [get_fresh_captcha] that returns went through some number
    [n] of attempts that all ended in [continue] and then through one
    attempt that succeeded in every step: the token has exactly 5
    characters, the timestamp is the clock reading that closes that
    attempt, and the trace holds no sleep. Each failure of the list makes
    its attempt end in [continue], and after any number of such attempts
    the loop goes on with the next one. *)
Theorem fresh_captcha_contract :
  (forall fuel session s c s',
     get_fresh_captcha E fuel session s = (Ok c, s') ->
     exists n sn,
       (n < fuel)%nat
       /\ after_failures E n (fst (fetch_session session s))
                         (snd (fetch_session session s)) = Some sn
       /\ success_at E (fst (fetch_session session s)) (tick sn) c
       /\ (length (fst c) = 5%nat /\ fst c <> [])
       /\ (snd c = clock E (tick sn + 3) /\ tick s' = (tick sn + 4)%nat)
       /\ exists t, trace s' = trace s ++ t
                    /\ Forall (fun e => forall ms, e <> EvSleep ms) t)
  /\ (forall session s,
        attempt_fails E session (tick s) ->
        exists s1, after_failures E 1 session s = Some s1)
  /\ (forall n fuel session s sn,
        after_failures E n session s = Some sn ->
        captcha_loop E (n + fuel) session s = captcha_loop E fuel session sn).
Proof.
  split; [|split].
  - intros fuel session s c s' Hrun.
    apply get_fresh_captcha_ok in Hrun as (n & sn & Hn & Haf & Hsucc & Htick & t & Ht & Hev).
    exists n, sn. split; [exact Hn|]. split; [exact Haf|]. split; [exact Hsucc|].
    destruct Hsucc as (r1 & path & r2 & _ & _ & _ & _ & _ & _ & Hlen & Hts).
    split; [split; [exact Hlen | destruct (fst c); [discriminate|discriminate]]|].
    split; [split; [rewrite Hts; f_equal; lia | exact Htick]|].
    exists t. split; [exact Ht|]. eapply Forall_impl; [exact Hev|].
    intros e Hf ms Heq. subst e. exact Hf.
  - intros session s Hfail. apply failed_attempt_continues in Hfail as (s1 & Hs1).
    exists s1. cbn [after_failures]. now rewrite Hs1.
  - intros n fuel session s sn. apply captcha_loop_after_failures.
Qed.
End Credential.

Example three_attempts_when_two_fail :
  let run := get_fresh_captcha (flaky_world 2) 5 (Some 0%nat) (fresh_sys 1) in
  fst run = Ok (py "abcde", 5)
  /\ trace (snd run)
     = [EvGet 0%nat LoadCaptcha; EvGet 0%nat LoadCaptcha; EvGet 0%nat LoadCaptcha;
        EvGet 0%nat (CaptchaImage (py "/captcha/1.png")); EvCaptcha (py "abcde") 5].
Proof. vm_compute. split; reflexivity. Qed.

Lemma fresh_captcha_contract_witness :
  let run := get_fresh_captcha (flaky_world 2) 5 (Some 0%nat) (fresh_sys 1) in
  is_Ok (fst run) = true
  /\ exists n sn,
       (n < 5)%nat
       /\ after_failures (flaky_world 2) n 0%nat (fresh_sys 1) = Some sn
       /\ length (fst (value_of ([], 0) (fst run))) = 5%nat.
Proof.
  cbv zeta. split; [vm_compute; reflexivity|].
  destruct (proj1 (fresh_captcha_contract (flaky_world 2)) 5%nat (Some 0%nat) (fresh_sys 1)
              (value_of ([], 0) (fst (get_fresh_captcha (flaky_world 2) 5 (Some 0%nat)
                                        (fresh_sys 1))))
              (snd (get_fresh_captcha (flaky_world 2) 5 (Some 0%nat) (fresh_sys 1))))
    as (n & sn & Hn & Haf & _ & [Hlen _] & _).
  - vm_compute. reflexivity.
  - exists n, sn. auto.
Defined.

(* ===================================================================== *)
(** ** Tracking store *)

Lemma successful_mark_successful n d sid n' d' sid' st :
  is_profile_successful n d sid (mark_profile_successful n' d' sid' st) = true
  <-> (n, d, sid) = (n', d', sid') \/ is_profile_successful n d sid st = true.
Proof.
  unfold is_profile_successful, mark_profile_successful. cbn [successful_pairs_set].
  rewrite !bool_decide_eq_true, elem_of_union, elem_of_singleton. tauto.
Qed.

Lemma registered_mark_registered n d n' d' st :
  is_profile_already_registered_for_date n d (mark_profile_already_registered n' d' st)
    = true
  <-> (n = n' /\ d = d') \/ is_profile_already_registered_for_date n d st = true.
Proof.
  unfold is_profile_already_registered_for_date, mark_profile_already_registered.
  cbn [already_registered_profiles].
  destruct (decide (n' = n)) as [->|Hne].
  - rewrite lookup_insert_eq, bool_decide_eq_true.
    destruct (already_registered_profiles st !! n) as [dates|]; cbn [default].
    + rewrite bool_decide_eq_true, elem_of_union, elem_of_singleton. tauto.
    + rewrite elem_of_union, elem_of_singleton.
      split; [intros [H|H]; [now apply not_elem_of_empty in H | auto]|].
      intros [[_ ->]|]; [auto|discriminate].
  - rewrite lookup_insert_ne by exact Hne. split; [auto|].
    intros [[? _]|]; [congruence|auto].
Qed.

Lemma slot_full_mark_slot_full d sid d' sid' st :
  is_slot_full d sid (mark_slot_full d' sid' st) = true
  <-> (d, sid) = (d', sid') \/ is_slot_full d sid st = true.
Proof.
  unfold is_slot_full, mark_slot_full. cbn [slot_full_pairs].
  rewrite !bool_decide_eq_true, elem_of_union, elem_of_singleton. tauto.
Qed.

Lemma can_register_true n d sid st :
  fst (can_profile_register n d sid st) = true
  <-> is_profile_successful n d sid st = false
      /\ is_profile_already_registered_for_date n d st = false
      /\ is_slot_full d sid st = false.
Proof.
  unfold can_profile_register.
  destruct (is_profile_successful n d sid st); cbn [fst]; [intuition discriminate|].
  destruct (is_profile_already_registered_for_date n d st); cbn [fst];
    [intuition discriminate|].
  destruct (is_slot_full d sid st); cbn [fst]; intuition discriminate.
Qed.

(** ** Allowed traces *)

Lemma replay_app st t1 t2 : replay st (t1 ++ t2) = replay (replay st t1) t2.
Proof. apply fold_left_app. Qed.

Lemma trace_ok_app st t1 t2 :
  trace_ok st (t1 ++ t2) <-> trace_ok st t1 /\ trace_ok (replay st t1) t2.
Proof.
  revert st. induction t1 as [|e t1 IH]; intros st; cbn [app trace_ok replay fold_left].
  - tauto.
  - rewrite IH. unfold replay. tauto.
Qed.

#[global] Instance safe_refl : Reflexive safe.
Proof. intros s. exists []. rewrite app_nil_r. cbn. auto. Qed.

#[global] Instance safe_trans : Transitive safe.
Proof.
  intros s1 s2 s3 (t1 & Ht1 & Hok1 & Hst1) (t2 & Ht2 & Hok2 & Hst2).
  exists (t1 ++ t2). rewrite Ht2, Ht1, app_assoc. split; [reflexivity|].
  rewrite trace_ok_app, replay_app, <- Hst1. auto.
Qed.

Lemma batch_events_ok batch d sid st t :
  all_eligible batch d sid st ->
  Forall (batch_event batch d sid) t ->
  trace_ok st t /\ replay st t = st.
Proof.
  intros Hel Ht. induction Ht as [|e t He Ht IH]; cbn [trace_ok replay fold_left].
  - auto.
  - assert (Hst : apply_event st e = st).
    { destruct He as [Hq | (p & c & _ & ->)]; [|reflexivity].
      destruct e; try reflexivity; destruct Hq. }
    rewrite Hst. fold (replay st t). split; [split|]; try apply IH.
    destruct He as [Hq | (p & c & Hp & ->)]; cbn [allowed].
    + destruct e; try exact I; destruct Hq.
    + now apply Hel.
Qed.

Lemma grows_batch_safe batch d sid s s' :
  all_eligible batch d sid (store s) ->
  grows (batch_event batch d sid) s s' -> safe s s'.
Proof.
  intros Hel [Hst (t & Ht & Hev)].
  destruct (batch_events_ok batch d sid (store s) t Hel Hev) as [Hok Hrep].
  exists t. rewrite Hrep. auto.
Qed.

Lemma grows_quiet_safe s s' : grows quiet_event s s' -> safe s s'.
Proof.
  intros Hg. apply (grows_batch_safe [] 0 0).
  - intros p Hp. now apply elem_of_nil in Hp.
  - eapply grows_mono; [|exact Hg]. intros e He. now left.
Qed.

Lemma io_event_quiet e : io_event e -> quiet_event e.
Proof. destruct e; cbn; auto. Qed.

Lemma fetch_event_quiet e : fetch_event e -> quiet_event e.
Proof. destruct e; cbn; auto. Qed.

(** ** Events of a fan-out round *)

Lemma slice_subseteq {A} (l : list A) i j : slice l i j ⊆ l.
Proof.
  unfold slice. etransitivity; [apply subseteq_take | apply subseteq_drop].
Qed.

Lemma make_chunks_subseteq {A} w (l : list A) chunks chunk :
  make_chunks w l = Some chunks -> chunk ∈ chunks -> chunk ⊆ l.
Proof.
  unfold make_chunks. destruct (_ >? _).
  - destruct (py_range _ _) as [starts|]; [|discriminate].
    intros [= <-] Hin. apply list_elem_of_fmap in Hin as (i & -> & _).
    apply slice_subseteq.
  - intros [= <-] Hin. apply list_elem_of_singleton in Hin as ->. reflexivity.
Qed.

Lemma enumerate_from_elem {A} k (l : list A) idx x :
  (idx, x) ∈ enumerate_from k l -> x ∈ l.
Proof.
  revert k. induction l as [|y l IH]; intros k; cbn [enumerate_from].
  - intros H. now apply elem_of_nil in H.
  - intros [[= _ ->]|H]%elem_of_cons; [left | right; eauto].
Qed.

Section Rounds.
Variable E : env.
Variable cfg : config.

Lemma batch_run_chunk fuel batch date_id session_id captcha_text captcha_timestamp
    n_chunks results chunk_idx chunk :
  chunk ⊆ batch ->
  rel (grows (batch_event batch date_id session_id))
      (run_chunk E cfg fuel date_id session_id captcha_text captcha_timestamp n_chunks
                 results (chunk_idx, chunk)).
Proof.
  intros Hsub. unfold run_chunk.
  apply rel_bind; [unfold is_captcha_valid; apply rel_bind;
                   [apply io_time_time | intros; apply rel_ret]|].
  intros valid. destruct (negb valid).
  - apply rel_bind; [apply io_time_time|]. intros _.
    apply rel_for_each. intros; apply rel_ret.
  - apply rel_bind.
    { apply rel_for_each. intros [] p Hp. unfold submit_task. apply rel_emit.
      right. exists p, captcha_text. split; [now apply Hsub | reflexivity]. }
    intros _. apply rel_bind.
    { apply rel_for_each. intros acc p Hp. unfold collect_task.
      apply rel_try_except.
      - apply rel_bind; [|intros; apply rel_ret].
        eapply rel_grows_mono; [|apply io_register_single_attempt].
        intros e He. left. now apply io_event_quiet.
      - intros e h Hh. destruct (is_Exception e); inversion Hh; subst. apply rel_ret. }
    intros results'. apply rel_bind; [|intros; apply rel_ret].
    destruct (_ <? _)%nat; [|apply rel_ret]. apply rel_emit. now left.
Qed.

Lemma batch_register_batch fuel batch date_id session_id captcha_text captcha_timestamp :
  rel (grows (batch_event batch date_id session_id))
      (register_batch_with_shared_captcha E cfg fuel batch date_id session_id
         captcha_text captcha_timestamp).
Proof.
  unfold register_batch_with_shared_captcha.
  apply rel_bind; [apply rel_emit; now left|]. intros _.
  destruct (make_chunks (max_workers cfg) batch) as [chunks|] eqn:Hmk.
  - intros s. change (grows (batch_event batch date_id session_id) s
       (snd (for_each (run_chunk E cfg fuel date_id session_id captcha_text
                         captcha_timestamp (length chunks))
                      (enumerate_from 1 chunks) ∅ s))).
    revert s. apply rel_for_each. intros acc [idx chunk] Hin.
    apply batch_run_chunk. eapply make_chunks_subseteq; [exact Hmk|].
    eapply enumerate_from_elem; eauto.
  - intros s. reflexivity.
Qed.

Lemma quiet_fetch_shared_captcha fuel :
  rel (grows quiet_event) (fetch_shared_captcha E cfg fuel).
Proof.
  unfold fetch_shared_captcha.
  apply rel_bind.
  { eapply rel_grows_mono; [apply io_event_quiet | apply io_get_session_from_pool]. }
  intros captcha_session. apply rel_bind.
  { eapply rel_grows_mono; [apply fetch_event_quiet | apply fetch_get_fresh_captcha]. }
  intros credential. apply rel_bind; [|intros; apply rel_ret].
  eapply rel_grows_mono; [apply io_event_quiet | apply io_return_session_to_pool].
Qed.
End Rounds.

(* ===================================================================== *)
(** ** The result loop of a round *)

Ltac book_red :=
  cbv [do_mark_slot_full do_mark_profile_already_registered do_mark_profile_successful
       log_message record_success record_failure];
  mred;
  cbn [successful_registrations failed_registrations log_queue
       final_results captcha_error_profiles next_pending].

Section ResultLoop.
Variable E : env.

(** What one pass of the result loop does to the trace, the store and the
    two retry lists. *)
Lemma handle_result_marks (date_id session_id : Z)
    (batch_results : gmap pystr outcome) (v : round_vars) (p : profile) (s : sys) :
  exists v' s' marks,
    handle_result E date_id session_id batch_results v p s = (Ok v', s')
    /\ trace s' = trace s ++ marks
    /\ store s' = replay (store s) marks
    /\ Forall (justified_mark batch_results date_id session_id) marks
    /\ forall q, q ∈ next_pending v' ++ captcha_error_profiles v' ->
         q ∈ next_pending v ++ captcha_error_profiles v
         \/ (q = p /\ retryable (result_of batch_results (profile_name p))).
Proof.
  unfold handle_result.
  destruct (result_of batch_results (profile_name p))
    as [[success error_type] full_response] eqn:Ho.
  assert (Hj : ~ retryable (success, error_type, full_response) ->
               ~ retryable (default (false, NO_RESULT, [])
                                    (batch_results !! profile_name p))).
  { unfold result_of in Ho. now rewrite Ho. }
  assert (Hold : forall (a b : list profile) q, q ∈ a ++ b ->
            q ∈ a ++ b \/ (q = p /\ retryable (success, error_type, full_response)))
    by auto.
  destruct success.
  - book_red.
    do 2 eexists; exists [EvMarkSuccessful (profile_name p) date_id session_id;
                  EvMarkRegistered (profile_name p) date_id].
    split; [reflexivity|]. cbn [trace store].
    split; [now rewrite <- app_assoc|]. split; [reflexivity|].
    split; [|apply Hold].
    repeat constructor; apply Hj; intros [Hs _]; discriminate Hs.
  - assert (Hnew : forall (a b : list profile) q,
              error_type <> SLOT_FULL -> error_type <> ALREADY_REGISTERED ->
              q ∈ (a ++ [p]) ++ b \/ q ∈ a ++ b ++ [p] ->
              q ∈ a ++ b \/ (q = p /\ retryable (false, error_type, full_response))).
    { intros a b q H1 H2. rewrite !elem_of_app, !list_elem_of_singleton.
      unfold retryable. cbn [fst snd]. intuition auto. }
    destruct error_type; book_red.
    2:{ (* CAPTCHA_ERROR *)
        do 2 eexists; exists []. split; [reflexivity|]. cbn [trace store].
        rewrite app_nil_r. split; [reflexivity|]. split; [reflexivity|].
        split; [constructor|].
        intros q Hq. apply Hnew; try discriminate. now right. }
    2:{ (* SLOT_FULL *)
        do 2 eexists; exists [EvMarkSlotFull date_id session_id].
        split; [reflexivity|]. cbn [trace store]. repeat split; auto.
        repeat constructor; auto. }
    2:{ (* ALREADY_REGISTERED *)
        do 2 eexists; exists [EvMarkRegistered (profile_name p) date_id].
        split; [reflexivity|]. cbn [trace store]. repeat split; auto.
        repeat constructor; auto. apply Hj. intros (_ & _ & H). now apply H. }
    all: do 2 eexists; exists []; (split; [reflexivity|]); cbn [trace store];
      rewrite app_nil_r; (split; [reflexivity|]); (split; [reflexivity|]);
      (split; [constructor|]);
      intros q Hq; apply Hnew; try discriminate; now left.
Qed.
End ResultLoop.

(* ===================================================================== *)
(** ** The retry orchestrator dispatches only what the store allows *)

Lemma justified_marks_ok batch_results d sid st marks :
  Forall (justified_mark batch_results d sid) marks -> trace_ok st marks.
Proof.
  intros H. revert st. induction H as [|e marks He _ IH]; intros st; cbn [trace_ok].
  - exact I.
  - split; [|apply IH]. destruct e; cbn in He |- *; auto; destruct He.
Qed.

Lemma justified_marks_successful batch_results d sid n marks st :
  Forall (justified_mark batch_results d sid) marks ->
  is_profile_successful n d sid (replay st marks) = true ->
  is_profile_successful n d sid st = true
  \/ ~ retryable (result_of batch_results n).
Proof.
  intros H. revert st.
  induction H as [|e marks He _ IH]; intros st; cbn [replay fold_left]; [auto|].
  fold (replay (apply_event st e) marks). intros Hs. apply IH in Hs as [Hs|Hs]; [|auto].
  destruct e; cbn [apply_event justified_mark] in *; try (destruct He; fail); auto.
  apply successful_mark_successful in Hs as [[= -> _ _]|Hs]; [|auto].
  right. unfold result_of. apply He.
Qed.

Lemma justified_marks_registered batch_results d sid n marks st :
  Forall (justified_mark batch_results d sid) marks ->
  is_profile_already_registered_for_date n d (replay st marks) = true ->
  is_profile_already_registered_for_date n d st = true
  \/ ~ retryable (result_of batch_results n).
Proof.
  intros H. revert st.
  induction H as [|e marks He _ IH]; intros st; cbn [replay fold_left]; [auto|].
  fold (replay (apply_event st e) marks). intros Hs. apply IH in Hs as [Hs|Hs]; [|auto].
  destruct e; cbn [apply_event justified_mark] in *; try (destruct He; fail); auto.
  apply registered_mark_registered in Hs as [[-> _]|Hs]; [|auto].
  right. unfold result_of. apply He.
Qed.

Section Orchestrator.
Variable E : env.
Variable cfg : config.

Lemma result_loop_marks (date_id session_id : Z) (batch_results : gmap pystr outcome)
    (pending : list profile) (v : round_vars) (s : sys) :
  exists v' s' marks,
    for_each (handle_result E date_id session_id batch_results) pending v s = (Ok v', s')
    /\ trace s' = trace s ++ marks
    /\ store s' = replay (store s) marks
    /\ Forall (justified_mark batch_results date_id session_id) marks
    /\ forall q, q ∈ next_pending v' ++ captcha_error_profiles v' ->
         q ∈ next_pending v ++ captcha_error_profiles v
         \/ (q ∈ pending /\ retryable (result_of batch_results (profile_name q))).
Proof.
  revert v s. induction pending as [|p pending IH]; intros v s; cbn [for_each].
  - exists v, s, []. rewrite app_nil_r. repeat split; auto.
  - destruct (handle_result_marks E date_id session_id batch_results v p s)
      as (v1 & s1 & m1 & Hrun & Ht & Hst & Hj & Hq).
    unfold bind. rewrite Hrun.
    destruct (IH v1 s1) as (v2 & s2 & m2 & Hrun2 & Ht2 & Hst2 & Hj2 & Hq2).
    exists v2, s2, (m1 ++ m2). split; [exact Hrun2|].
    rewrite Ht2, Ht, Hst2, Hst, replay_app, app_assoc.
    split; [reflexivity|]. split; [reflexivity|]. split; [now apply Forall_app|].
    intros q Hin. apply Hq2 in Hin as [Hin|[Hin Hr]].
    + apply Hq in Hin as [Hin|[-> Hr]]; [auto|]. right. split; [left|exact Hr].
    + right. split; [now right|exact Hr].
Qed.

Lemma quiet_is_captcha_valid captcha_timestamp ttl :
  rel (grows quiet_event) (is_captcha_valid E captcha_timestamp ttl).
Proof.
  unfold is_captcha_valid. apply rel_bind; [apply io_time_time | intros; apply rel_ret].
Qed.

Lemma batch_dispatch_round fuel date_id session_id pending captcha_text captcha_timestamp :
  rel (grows (batch_event pending date_id session_id))
      (dispatch_round E cfg fuel date_id session_id pending captcha_text captcha_timestamp).
Proof.
  assert (Hq : forall A (c : M A), rel (grows quiet_event) c ->
                 rel (grows (batch_event pending date_id session_id)) c).
  { intros A c. apply rel_grows_mono. intros e He. now left. }
  unfold dispatch_round. apply rel_bind; [apply Hq, quiet_is_captcha_valid|].
  intros valid. apply rel_bind.
  { destruct (negb valid); [|apply rel_ret]. apply Hq.
    apply rel_bind; [apply io_time_time | intros; apply quiet_fetch_shared_captcha]. }
  intros credential. apply rel_bind; [apply batch_register_batch | intros; apply rel_ret].
Qed.

Lemma quiet_refresh_after_errors fuel credential v :
  rel (grows quiet_event) (refresh_after_errors E cfg fuel credential v).
Proof.
  unfold refresh_after_errors. destruct (captcha_error_profiles v); [apply rel_ret|].
  apply rel_bind; [apply quiet_fetch_shared_captcha | intros; apply rel_ret].
Qed.

(** One round from a pending list that is eligible: what it dispatches is
    allowed, and what it leaves pending is eligible again unless the pair
    got exhausted. *)
Lemma retry_round_safe fuel date_id session_id pending final captcha_text
    captcha_timestamp s :
  all_eligible pending date_id session_id (store s) ->
  let run := retry_round E cfg fuel date_id session_id pending final captcha_text
               captcha_timestamp s in
  safe s (snd run)
  /\ forall credential pending' final',
       fst run = Ok (credential, pending', final') ->
       is_slot_full date_id session_id (store (snd run)) = false ->
       all_eligible pending' date_id session_id (store (snd run)).
Proof.
  intros Hel. cbv zeta.
  destruct (retry_round E cfg fuel date_id session_id pending final captcha_text
              captcha_timestamp s) as [r s'] eqn:Hrun.
  cbn [fst snd]. unfold retry_round in Hrun. unfold bind at 1 in Hrun.
  pose proof (batch_dispatch_round fuel date_id session_id pending captcha_text
                captcha_timestamp s) as G1.
  destruct (dispatch_round E cfg fuel date_id session_id pending captcha_text
              captcha_timestamp s) as [[[credential batch_results]| e |] s1];
    cbn [fst snd] in *.
  2,3: injection Hrun as <- <-;
       (split; [eapply grows_batch_safe; eauto | intros; discriminate]).
  assert (S1 : safe s s1) by (eapply grows_batch_safe; eauto).
  destruct G1 as [Hst1 _].
  unfold bind at 1 in Hrun.
  destruct (result_loop_marks date_id session_id batch_results pending
              {| final_results := final; captcha_error_profiles := [];
                 next_pending := [] |} s1)
    as (v & s2 & marks & Hloop & Ht2 & Hst2 & Hj & Hq).
  rewrite Hloop in Hrun.
  assert (S2 : safe s1 s2).
  { exists marks. split; [exact Ht2|]. split; [|exact Hst2].
    eapply justified_marks_ok; eauto. }
  pose proof (quiet_refresh_after_errors fuel credential v s2) as G3.
  rewrite Hrun in G3. cbn [snd] in G3.
  assert (S3 : safe s2 s') by (apply grows_quiet_safe; exact G3).
  split; [etransitivity; [exact S1|]; etransitivity; eauto|].
  intros credential' pending' final' Hres Hfull. subst r.
  destruct G3 as [Hst3 _]. rewrite Hst3 in *. rewrite Hst2, Hst1 in *.
  assert (Hsub : forall q, q ∈ pending' ->
            q ∈ next_pending v ++ captcha_error_profiles v).
  { unfold refresh_after_errors in Hrun.
    destruct (captcha_error_profiles v) as [|x l] eqn:Hce.
    - cbv [ret] in Hrun. inversion Hrun; subst. intros q Hin.
      rewrite app_nil_r. exact Hin.
    - unfold bind in Hrun.
      destruct (fetch_shared_captcha E cfg fuel s2) as [[c|?|] s3]; try discriminate.
      cbv [ret] in Hrun. inversion Hrun; subst. auto. }
  intros q Hin. apply Hsub, Hq in Hin as [Hin|[Hin Hr]].
  { cbn in Hin. now apply elem_of_nil in Hin. }
  apply can_register_true. specialize (Hel q Hin). apply can_register_true in Hel
    as (Hs & Hr' & _).
  repeat split; [| |exact Hfull].
  - destruct (is_profile_successful (profile_name q) date_id session_id
                (replay (store s) marks)) eqn:Hx; [|reflexivity].
    destruct (justified_marks_successful batch_results date_id session_id
                (profile_name q) marks (store s) Hj Hx) as [Hy|Hy];
      [congruence|contradiction].
  - destruct (is_profile_already_registered_for_date (profile_name q) date_id
                (replay (store s) marks)) eqn:Hx; [|reflexivity].
    destruct (justified_marks_registered batch_results date_id session_id
                (profile_name q) marks (store s) Hj Hx) as [Hy|Hy];
      [congruence|contradiction].
Qed.

Lemma retry_loop_safe fuel rounds date_id session_id :
  forall pending final captcha_text captcha_timestamp s,
    all_eligible pending date_id session_id (store s) ->
    safe s (snd (retry_loop E cfg fuel rounds date_id session_id pending final
                   captcha_text captcha_timestamp s)).
Proof.
  induction rounds as [|rounds IH]; intros pending final captcha_text captcha_timestamp s Hel;
    destruct pending as [|p0 pending0]; cbn [retry_loop]; try reflexivity.
  set (pending := p0 :: pending0) in *.
  destruct (retry_round_safe fuel date_id session_id pending final captcha_text
              captcha_timestamp s Hel) as [S1 Hnext].
  unfold bind at 1.
  destruct (retry_round E cfg fuel date_id session_id pending final captcha_text
              captcha_timestamp s) as [[[[credential pending'] final']| e |] s1];
    cbn [fst snd] in *; try exact S1.
  unfold bind, gets, ret.
  destruct (is_slot_full date_id session_id (store s1)) eqn:Hfull; cbn [snd].
  - exact S1.
  - etransitivity; [exact S1|]. apply IH. eapply Hnext; eauto.
Qed.

(** C3. Whatever a run of [register_all_profiles_parallel] does, also one
    cut short by an exception or still waiting, every submission it
    dispatches is for a profile that the store, as it stands at that
    moment, lets register for the pair: not succeeded for the pair, not
    resolved for its date, pair not exhausted; the store changes by the
    marks of the run only. When the pair is exhausted on entry or no
    profile is eligible, the run returns the empty map and does nothing. *)
Theorem no_dispatch_for_resolved fuel date_id session_id s :
  let run := register_all_profiles_parallel E cfg fuel date_id session_id s in
  safe s (snd run)
  /\ (is_slot_full date_id session_id (store s) = true
      \/ Forall (fun p => fst (can_profile_register (profile_name p) date_id session_id
                                 (store s)) = false) (profiles cfg) ->
      run = (Ok ∅, s)).
Proof.
  cbv zeta.
  destruct (register_all_profiles_parallel E cfg fuel date_id session_id s)
    as [r s'] eqn:Hrun.
  cbn [snd]. unfold register_all_profiles_parallel in Hrun.
  unfold bind at 1 in Hrun. unfold gets at 1 in Hrun.
  destruct (is_slot_full date_id session_id (store s)) eqn:Hfull.
  { cbv [ret] in Hrun. injection Hrun as <- <-. split; [reflexivity | auto]. }
  unfold bind at 1 in Hrun. unfold gets at 1 in Hrun.
  set (eligible := List.filter _ (profiles cfg)) in Hrun.
  assert (Hel : all_eligible eligible date_id session_id (store s)).
  { intros p Hp. apply list_elem_of_In, filter_In in Hp. apply Hp. }
  assert (Hnone : Forall (fun p => fst (can_profile_register (profile_name p) date_id
                            session_id (store s)) = false) (profiles cfg) ->
                  eligible = []).
  { intros Hall. subst eligible. clear Hrun Hel.
    induction Hall as [|p l Hp _ IH]; cbn [List.filter].
    - reflexivity.
    - rewrite Hp. exact IH. }
  destruct eligible as [|p0 rest] eqn:Heq.
  { cbv [ret] in Hrun. injection Hrun as <- <-. split; [reflexivity | auto]. }
  split.
  - unfold bind at 1 in Hrun.
    pose proof (quiet_fetch_shared_captcha E cfg fuel s) as G1.
    destruct (fetch_shared_captcha E cfg fuel s) as [[credential| e |] s1];
      cbn [fst snd] in *;
      try (injection Hrun as <- <-; apply grows_quiet_safe; exact G1).
    etransitivity; [apply grows_quiet_safe; exact G1|].
    replace s' with (snd (retry_loop E cfg fuel fuel date_id session_id (p0 :: rest) ∅
                            (fst credential) (snd credential) s1))
      by (now rewrite Hrun).
    apply retry_loop_safe. destruct G1 as [-> _]. exact Hel.
  - intros [Hf|Hall]; [discriminate|]. apply Hnone in Hall. discriminate.
Qed.
End Orchestrator.

(** Three profiles, all accepted: every name maps to [True] and the pair
    is not exhausted. *)
Example all_succeed :
  let run := register_all_profiles_parallel accepting_world
               (sample_cfg 8 ["p1"; "p2"; "p3"]) 5 67 101 (fresh_sys 8) in
  fst run = Ok (<[py "p1" := true]> (<[py "p2" := true]> (<[py "p3" := true]> ∅)))
  /\ is_slot_full 67 101 (store (snd run)) = false.
Proof. vm_compute. split; reflexivity. Qed.

(** The first profile meets an exhausted slot: it gets [False], the pair is
    marked, the loop stops after this one round and the two other profiles
    stay without a final result. *)
Example exhausted_mid_round :
  let run := register_all_profiles_parallel one_slot_world
               (sample_cfg 8 ["p1"; "p2"; "p3"]) 5 67 101 (fresh_sys 8) in
  fst run = Ok (<[py "p1" := false]> ∅)
  /\ is_slot_full 67 101 (store (snd run)) = true
  /\ length (credentials_used (trace (snd run))) = 1%nat.
Proof. vm_compute. repeat split; reflexivity. Qed.

Lemma no_dispatch_for_resolved_witness :
  let s := set_store (mark_slot_full 67 101) (fresh_sys 2) in
  let cfg := sample_cfg 2 ["p1"; "p2"] in
  is_slot_full 67 101 (store s) = true
  /\ register_all_profiles_parallel accepting_world cfg 3 67 101 s = (Ok ∅, s).
Proof.
  cbv zeta. split; [vm_compute; reflexivity|].
  apply (proj2 (no_dispatch_for_resolved accepting_world (sample_cfg 2 ["p1"; "p2"])
                  3 67 101 (set_store (mark_slot_full 67 101) (fresh_sys 2)))).
  left. vm_compute. reflexivity.
Defined.

(* ===================================================================== *)
(** ** Profiles without a result *)

Section NoResult.
Variable E : env.

(** What one pass of the result loop does to the journal, the final
    results and the pending list. *)
Lemma handle_result_journal (date_id session_id : Z)
    (batch_results : gmap pystr outcome) (v : round_vars) (q : profile) (s : sys) :
  exists v' s',
    handle_result E date_id session_id batch_results v q s = (Ok v', s')
    /\ (forall x, x ∈ next_pending v -> x ∈ next_pending v')
    /\ (forall r, r ∈ failed_registrations (book s) -> r ∈ failed_registrations (book s'))
    /\ (forall e, e ∈ log_queue (book s) -> e ∈ log_queue (book s'))
    /\ (length (log_queue (book s)) <= length (log_queue (book s')))%nat
    /\ (forall n, n <> profile_name q
                  \/ retryable (result_of batch_results (profile_name q)) ->
                  final_results v' !! n = final_results v !! n)
    /\ (forall x, x ∈ captcha_error_profiles v -> x ∈ captcha_error_profiles v')
    /\ (forall resp,
          result_of batch_results (profile_name q) = (false, CAPTCHA_ERROR, resp) ->
          q ∈ captcha_error_profiles v')
    /\ (batch_results !! profile_name q = None ->
        q ∈ next_pending v'
        /\ (exists ts, no_result_failure (profile_name q) date_id session_id ts
                       ∈ failed_registrations (book s'))
        /\ (Z.of_nat (length (log_queue (book s'))) < 10000 ->
            exists ts, no_result_entry (profile_name q) date_id session_id ts
                       ∈ log_queue (book s'))).
Proof.
  unfold handle_result.
  assert (Hnone : batch_results !! profile_name q = None ->
                  result_of batch_results (profile_name q) = (false, NO_RESULT, [])).
  { intros H. unfold result_of. unfold outcome in *. now rewrite H. }
  destruct (result_of batch_results (profile_name q))
    as [[success error_type] full_response] eqn:Ho.
  assert (Hfinal : forall (b : bool) n,
            n <> profile_name q \/ retryable (success, error_type, full_response) ->
            success = true \/ error_type = SLOT_FULL \/ error_type = ALREADY_REGISTERED ->
            <[profile_name q := b]> (final_results v) !! n = final_results v !! n).
  { intros b n [Hn|(H1 & H2 & H3)] Hc.
    - now rewrite lookup_insert_ne.
    - cbn [fst snd] in *. destruct Hc as [->|[->| ->]]; [discriminate|congruence|congruence]. }
  destruct success; [|destruct error_type]; book_red;
    destruct (Z.of_nat (length (log_queue (book s))) <? 10000) eqn:Hroom;
    cbn [successful_registrations failed_registrations log_queue];
    do 2 eexists; (split; [reflexivity|]);
    cbn [book failed_registrations log_queue final_results next_pending
         captcha_error_profiles].
  all: split; [intros x Hx; rewrite ?elem_of_app; auto|].
  all: split; [intros x Hx; rewrite ?elem_of_app; auto|].
  all: split; [intros x Hx; rewrite ?elem_of_app; auto|].
  all: split; [rewrite ?length_app; cbn [length]; lia|].
  all: split; [intros n Hn; try reflexivity; apply Hfinal; auto|].
  all: split; [intros x Hx; rewrite ?elem_of_app; auto|].
  all: split; [intros resp Hr; try discriminate Hr; apply elem_of_app; right; left|].
  all: intros Habs; apply Hnone in Habs; try discriminate Habs.
  all: injection Habs as ->.
  all: split; [apply elem_of_app; right; left|].
  all: split; [exists (clock E (tick s)); apply elem_of_app; right; left|].
  - intros _. exists (clock E (S (tick s))). apply elem_of_app. right. left.
  - intros Hlt. apply Z.ltb_ge in Hroom. lia.
Qed.

Lemma absent_is_retryable (batch_results : gmap pystr outcome) (n : pystr) :
  batch_results !! n = None -> retryable (result_of batch_results n).
Proof.
  intros H. unfold result_of. unfold outcome in *. rewrite H.
  unfold retryable. cbn. repeat split; discriminate.
Qed.

Lemma result_loop_journal (date_id session_id : Z)
    (batch_results : gmap pystr outcome) (pending : list profile) :
  forall (v : round_vars) (s : sys),
  exists v' s',
    for_each (handle_result E date_id session_id batch_results) pending v s = (Ok v', s')
    /\ (forall x, x ∈ next_pending v -> x ∈ next_pending v')
    /\ (forall r, r ∈ failed_registrations (book s) -> r ∈ failed_registrations (book s'))
    /\ (forall e, e ∈ log_queue (book s) -> e ∈ log_queue (book s'))
    /\ (length (log_queue (book s)) <= length (log_queue (book s')))%nat
    /\ (forall n, batch_results !! n = None ->
          final_results v' !! n = final_results v !! n)
    /\ (forall x, x ∈ captcha_error_profiles v -> x ∈ captcha_error_profiles v')
    /\ (forall p resp,
          p ∈ pending ->
          result_of batch_results (profile_name p) = (false, CAPTCHA_ERROR, resp) ->
          p ∈ captcha_error_profiles v').
Proof.
  induction pending as [|q pending IH]; intros v s; cbn [for_each].
  - exists v, s. repeat split; auto. intros p resp Hp. now apply elem_of_nil in Hp.
  - destruct (handle_result_journal date_id session_id batch_results v q s)
      as (v1 & s1 & Hrun & Hp & Hf & Hl & Hlen & Hfin & Hce & Hcq & _).
    unfold bind. rewrite Hrun.
    destruct (IH v1 s1)
      as (v2 & s2 & Hrun2 & Hp2 & Hf2 & Hl2 & Hlen2 & Hfin2 & Hce2 & Hcq2).
    exists v2, s2. split; [exact Hrun2|].
    split; [auto|]. split; [auto|]. split; [auto|]. split; [lia|].
    split; [|split; [auto|]].
    + intros n Hn. rewrite Hfin2 by exact Hn. apply Hfin.
      destruct (decide (n = profile_name q)) as [->|Hne]; [right|now left].
      now apply absent_is_retryable.
    + intros p resp [->|Hin]%elem_of_cons Hr; eauto.
Qed.

(** C10. In the result loop of a round, a pending profile whose name is
    not a key of the results of the round ends up in the pending list of
    the next round; its entry in the final results is what it was, no
    success or registration mark is written for it, and a failure record
    with [NO_RESULT] is appended to the failed registrations and, when the
    log queue has room, to the log. *)
Theorem absent_result_stays_pending (date_id session_id : Z)
    (batch_results : gmap pystr outcome) (pending : list profile)
    (v : round_vars) (s : sys) (p : profile) :
  p ∈ pending ->
  batch_results !! profile_name p = None ->
  let run := for_each (handle_result E date_id session_id batch_results) pending v s in
  exists v',
    fst run = Ok v'
    /\ p ∈ next_pending v'
    /\ final_results v' !! profile_name p = final_results v !! profile_name p
    /\ (exists ts, no_result_failure (profile_name p) date_id session_id ts
                   ∈ failed_registrations (book (snd run)))
    /\ (Z.of_nat (length (log_queue (book (snd run)))) < 10000 ->
        exists ts, no_result_entry (profile_name p) date_id session_id ts
                   ∈ log_queue (book (snd run)))
    /\ (is_profile_successful (profile_name p) date_id session_id (store (snd run)) = true ->
        is_profile_successful (profile_name p) date_id session_id (store s) = true)
    /\ (is_profile_already_registered_for_date (profile_name p) date_id
          (store (snd run)) = true ->
        is_profile_already_registered_for_date (profile_name p) date_id (store s) = true).
Proof.
  intros Hin Habs. cbv zeta.
  destruct (result_loop_marks E date_id session_id batch_results pending v s)
    as (v0 & s0 & marks & Hrun0 & _ & Hst & Hj & _).
  assert (Hstore :
    (is_profile_successful (profile_name p) date_id session_id (store s0) = true ->
     is_profile_successful (profile_name p) date_id session_id (store s) = true)
    /\ (is_profile_already_registered_for_date (profile_name p) date_id (store s0) = true ->
        is_profile_already_registered_for_date (profile_name p) date_id (store s) = true)).
  { rewrite Hst. pose proof (absent_is_retryable _ _ Habs) as Hr. split; intros Hx.
    - destruct (justified_marks_successful _ _ _ _ _ _ Hj Hx); [auto|contradiction].
    - destruct (justified_marks_registered _ _ _ _ _ _ Hj Hx); [auto|contradiction]. }
  rewrite Hrun0. cbn [fst snd]. exists v0.
  split; [reflexivity|].
  enough (Hmain : p ∈ next_pending v0
    /\ final_results v0 !! profile_name p = final_results v !! profile_name p
    /\ (exists ts, no_result_failure (profile_name p) date_id session_id ts
                   ∈ failed_registrations (book s0))
    /\ (Z.of_nat (length (log_queue (book s0))) < 10000 ->
        exists ts, no_result_entry (profile_name p) date_id session_id ts
                   ∈ log_queue (book s0))) by tauto.
  clear Hst Hj Hstore marks. revert v s Hrun0.
  induction pending as [|q pending IH]; intros v s Hrun0.
  { now apply elem_of_nil in Hin. }
  cbn [for_each] in Hrun0. unfold bind in Hrun0.
  destruct (handle_result_journal date_id session_id batch_results v q s)
    as (v1 & s1 & Hrun1 & Hp & Hf & Hl & Hlen & Hfin & _ & _ & Hhere).
  rewrite Hrun1 in Hrun0.
  assert (Hfin1 : final_results v1 !! profile_name p = final_results v !! profile_name p).
  { apply Hfin. destruct (decide (profile_name p = profile_name q)) as [Heq|Hne];
      [right|now left]. rewrite <- Heq. now apply absent_is_retryable. }
  apply elem_of_cons in Hin as [->|Hin].
  - destruct (Hhere Habs) as (Hq1 & (ts & Hfail) & Hlog).
    destruct (result_loop_journal date_id session_id batch_results pending v1 s1)
      as (v2 & s2 & Hrun2 & Hp2 & Hf2 & Hl2 & Hlen2 & Hfin2 & _).
    rewrite Hrun2 in Hrun0. injection Hrun0 as <- <-.
    split; [auto|]. split; [rewrite Hfin2 by exact Habs; exact Hfin1|].
    split; [exists ts; auto|].
    intros Hroom. destruct Hlog as (ts' & Hentry); [lia|]. exists ts'. auto.
  - destruct (IH Hin v1 s1 Hrun0) as (H1 & H2 & H3 & H4).
    split; [exact H1|]. split; [now rewrite H2|]. auto.
Qed.
End NoResult.

Lemma absent_result_stays_pending_witness :
  let p := sample_profile "p1" in
  let v := {| final_results := ∅; captcha_error_profiles := []; next_pending := [] |} in
  let run := for_each (handle_result accepting_world 67 101 ∅) [p] v (fresh_sys 1) in
  (∅ : gmap pystr outcome) !! profile_name p = None
  /\ exists v', fst run = Ok v' /\ p ∈ next_pending v'
                /\ final_results v' !! profile_name p = None.
Proof.
  cbv zeta. split; [reflexivity|].
  destruct (absent_result_stays_pending accepting_world 67 101 ∅ [sample_profile "p1"]
              {| final_results := ∅; captcha_error_profiles := []; next_pending := [] |}
              (fresh_sys 1) (sample_profile "p1"))
    as (v' & Hok & Hin & Hfin & _).
  - left.
  - reflexivity.
  - exists v'. auto.
Defined.

(* ===================================================================== *)
(** ** Credential refresh between rounds *)

Section Refresh.
Variable E : env.
Variable cfg : config.

(** A credential that [fetch_shared_captcha] returns is the value of a
    call of [get_fresh_captcha] made from a later state. *)
Lemma fetch_shared_captcha_ok fuel s credential s' :
  fetch_shared_captcha E cfg fuel s = (Ok credential, s') ->
  exists session s1 s2,
    get_session_from_pool E cfg fuel s = (Ok session, s1)
    /\ get_fresh_captcha E fuel (Some session) s1 = (Ok credential, s2).
Proof.
  unfold fetch_shared_captcha. unfold bind at 1.
  destruct (get_session_from_pool E cfg fuel s) as [[session| e |] s1]; try discriminate.
  unfold bind at 1.
  destruct (get_fresh_captcha E fuel (Some session) s1) as [[c| e |] s2] eqn:Hc;
    try discriminate.
  unfold bind at 1.
  destruct (return_session_to_pool cfg session s2) as [[[]| e |] s3]; try discriminate.
  intros [= <- <-]. eauto.
Qed.

(** A round with a [CAPTCHA_ERROR] among the outcomes of its pending
    profiles hands on a credential fetched after its dispatch, and keeps
    the profile pending. *)
Lemma captcha_error_forces_refresh fuel date_id session_id pending final
    captcha_text captcha_timestamp s credential batch_results s1
    credential' pending' final' s' p resp :
  dispatch_round E cfg fuel date_id session_id pending captcha_text captcha_timestamp s
    = (Ok (credential, batch_results), s1) ->
  p ∈ pending ->
  result_of batch_results (profile_name p) = (false, CAPTCHA_ERROR, resp) ->
  retry_round E cfg fuel date_id session_id pending final captcha_text
              captcha_timestamp s = (Ok (credential', pending', final'), s') ->
  p ∈ pending'
  /\ exists session s2 s3 t,
       trace s2 = trace s1 ++ t
       /\ get_fresh_captcha E fuel (Some session) s2 = (Ok credential', s3).
Proof.
  intros Hdisp Hin Hres Hrun. unfold retry_round in Hrun.
  unfold bind at 1 in Hrun. rewrite Hdisp in Hrun. cbn [fst snd] in Hrun.
  unfold bind at 1 in Hrun.
  destruct (result_loop_journal E date_id session_id batch_results pending
              {| final_results := final; captcha_error_profiles := [];
                 next_pending := [] |} s1)
    as (v & s2 & Hloop & _ & _ & _ & _ & _ & _ & Hce).
  rewrite Hloop in Hrun. specialize (Hce p resp Hin Hres).
  destruct (result_loop_marks E date_id session_id batch_results pending
              {| final_results := final; captcha_error_profiles := [];
                 next_pending := [] |} s1)
    as (v0 & s0 & marks & Hloop0 & Ht & _).
  rewrite Hloop in Hloop0. injection Hloop0 as <- <-.
  unfold refresh_after_errors in Hrun.
  destruct (captcha_error_profiles v) as [|x l] eqn:Hl.
  { now apply elem_of_nil in Hce. }
  unfold bind at 1 in Hrun.
  destruct (fetch_shared_captcha E cfg fuel s2) as [[c| e |] s3] eqn:Hfetch;
    try discriminate.
  cbv [ret] in Hrun. injection Hrun as -> <- _ _.
  split; [apply elem_of_app; now right|].
  apply fetch_shared_captcha_ok in Hfetch as (session & sa & sb & Hacq & Hfresh).
  destruct (io_get_session_from_pool E cfg fuel s2) as [_ (t & Hta & _)].
  rewrite Hacq in Hta. cbn [snd] in Hta.
  exists session, sa, sb, (marks ++ t). split; [|exact Hfresh].
  now rewrite Hta, Ht, app_assoc.
Qed.
End Refresh.

(** C1. The claim fails on the code for the expired outcome. One profile,
    a registration endpoint that answers 503 throughout, half a second per
    clock reading, credential stamped at 1.5 s: rounds 1 to 22 end in
    [SERVER_503]; round 23 starts when the credential is 55.5 s old, passes
    the 60 s check of the orchestrator, fails the 55 s check of the
    dispatcher and ends in [CAPTCHA_EXPIRED]; round 24 starts at 58 s and
    is handed the very same credential. Only [CAPTCHA_ERROR] triggers the
    refresh of step 5 (see [captcha_error_forces_refresh]). *)
Theorem stale_credential_reused :
  let run := register_all_profiles_parallel slow_overloaded_world (sample_cfg 2 ["p1"])
               24 67 101 (fresh_sys 1) in
  map fr_error_type (failed_registrations (book (snd run)))
    = replicate 22 SERVER_503 ++ [CAPTCHA_EXPIRED; CAPTCHA_EXPIRED]
  /\ credentials_used (trace (snd run)) = replicate 24 (py "abcde", 1500).
Proof. vm_compute. split; reflexivity. Qed.

(* ===================================================================== *)
(** * Further properties of the code *)
(* ===================================================================== *)

(* ===================================================================== *)
(** ** Tracking store and marks *)

Lemma register_all_profiles_parallel_safe (E : env) (cfg : config) (fuel : nat)
    (date_id session_id : Z) (s : sys) :
  safe s (snd (register_all_profiles_parallel E cfg fuel date_id session_id s)).
Proof.
  destruct (register_all_profiles_parallel E cfg fuel date_id session_id s)
    as [r s'] eqn:Hrun.
  cbn [snd]. unfold register_all_profiles_parallel in Hrun.
  unfold bind at 1 in Hrun. unfold gets at 1 in Hrun.
  destruct (is_slot_full date_id session_id (store s)) eqn:Hfull.
  { cbv [ret] in Hrun. injection Hrun as <- <-. reflexivity. }
  unfold bind at 1 in Hrun. unfold gets at 1 in Hrun.
  set (eligible := List.filter _ (profiles cfg)) in Hrun.
  assert (Hel : all_eligible eligible date_id session_id (store s)).
  { intros p Hp. apply list_elem_of_In, filter_In in Hp. apply Hp. }
  destruct eligible as [|p0 rest] eqn:Heq.
  { cbv [ret] in Hrun. injection Hrun as <- <-. reflexivity. }
  unfold bind at 1 in Hrun.
  pose proof (quiet_fetch_shared_captcha E cfg fuel s) as G1.
  destruct (fetch_shared_captcha E cfg fuel s) as [[credential| e |] s1];
    cbn [fst snd] in *;
    try (injection Hrun as <- <-; apply grows_quiet_safe; exact G1).
  etransitivity; [apply grows_quiet_safe; exact G1|].
  replace s' with (snd (retry_loop E cfg fuel fuel date_id session_id (p0 :: rest) ∅
                          (fst credential) (snd credential) s1))
    by (now rewrite Hrun).
  apply retry_loop_safe. destruct G1 as [-> _]. exact Hel.
Qed.

Lemma apply_event_consistent (st : tracking) (e : event) :
  pairs_consistent st -> pairs_consistent (apply_event st e).
Proof.
  intros H. destruct e; cbn [apply_event]; try exact H.
  intros n d sid. unfold mark_profile_successful.
  cbn [successful_pairs_set profile_successful_pairs].
  rewrite elem_of_union, elem_of_singleton, (H n d sid).
  destruct (decide (name = n)) as [->|Hne].
  - rewrite lookup_insert_eq. cbn [default id].
    rewrite elem_of_union, elem_of_singleton.
    split; [intros [Hin|[= -> ->]]; auto | intros [Hin|[= -> ->]]; auto].
  - rewrite lookup_insert_ne by exact Hne.
    split; [intros [Hin|[= -> _ _]]; [auto|congruence] | auto].
Qed.

Lemma replay_consistent (st : tracking) (t : list event) :
  pairs_consistent st -> pairs_consistent (replay st t).
Proof.
  revert st. induction t as [|e t IH]; intros st H; cbn [replay fold_left]; [exact H|].
  apply IH, apply_event_consistent, H.
Qed.

Lemma apply_event_keeps (st : tracking) (e : event) (n : pystr) (d sid : Z) :
  (is_profile_successful n d sid st = true ->
   is_profile_successful n d sid (apply_event st e) = true)
  /\ (is_profile_already_registered_for_date n d st = true ->
      is_profile_already_registered_for_date n d (apply_event st e) = true)
  /\ (is_slot_full d sid st = true -> is_slot_full d sid (apply_event st e) = true).
Proof.
  destruct e; cbn [apply_event]; try tauto.
  - split; [auto|]. split; [auto|]. intros H. apply slot_full_mark_slot_full. auto.
  - split; [auto|]. split; [|auto]. intros H. apply registered_mark_registered. auto.
  - split; [|auto]. intros H. apply successful_mark_successful. auto.
Qed.

Lemma replay_keeps_ineligible (st : tracking) (t : list event) (n : pystr) (d sid : Z) :
  fst (can_profile_register n d sid (replay st t)) = true ->
  fst (can_profile_register n d sid st) = true.
Proof.
  revert st. induction t as [|e t IH]; intros st; cbn [replay fold_left]; [auto|].
  intros H. apply IH in H. apply can_register_true in H as (H1 & H2 & H3).
  destruct (apply_event_keeps st e n d sid) as (K1 & K2 & K3).
  apply can_register_true. repeat split.
  - destruct (is_profile_successful n d sid st); [|reflexivity].
    rewrite K1 in H1; auto.
  - destruct (is_profile_already_registered_for_date n d st); [|reflexivity].
    rewrite K2 in H2; auto.
  - destruct (is_slot_full d sid st); [|reflexivity]. rewrite K3 in H3; auto.
Qed.

(** X1. What each mark does to eligibility: [mark_slot_full] for a pair
    makes every profile ineligible for that pair and changes nothing for
    any other pair; [mark_profile_already_registered] for a profile and a
    date makes that profile ineligible for every session of that date and
    changes nothing for other profiles or dates; [mark_profile_successful]
    changes the answer for its own profile, date and session only. *)
Theorem mark_footprints (st : tracking) (name : pystr) (date_id session_id : Z)
    (n : pystr) (d sid : Z) :
  fst (can_profile_register n d sid (mark_slot_full date_id session_id st))
  = fst (can_profile_register n d sid st)
    && negb (bool_decide ((d, sid) = (date_id, session_id)))
  /\ fst (can_profile_register n d sid (mark_profile_already_registered name date_id st))
     = fst (can_profile_register n d sid st)
       && negb (bool_decide (n = name /\ d = date_id))
  /\ fst (can_profile_register n d sid (mark_profile_successful name date_id session_id st))
     = fst (can_profile_register n d sid st)
       && negb (bool_decide ((n, d, sid) = (name, date_id, session_id))).
Proof.
  assert (Hb : forall a b : bool, (a = true <-> b = true) -> a = b).
  { intros [|] [|] H; try reflexivity; [symmetry|]; apply H; reflexivity. }
  split; [|split]; apply Hb;
    rewrite andb_true_iff, negb_true_iff, bool_decide_eq_false, !can_register_true.
  - pose proof (slot_full_mark_slot_full d sid date_id session_id st) as K.
    unfold mark_slot_full at 1 2. unfold is_profile_successful,
      is_profile_already_registered_for_date.
    cbn [successful_pairs_set already_registered_profiles].
    destruct (is_slot_full d sid (mark_slot_full date_id session_id st));
      destruct (is_slot_full d sid st); intuition (try discriminate; auto).
  - pose proof (registered_mark_registered n d name date_id st) as K.
    unfold mark_profile_already_registered at 1 3. unfold is_profile_successful, is_slot_full.
    cbn [successful_pairs_set slot_full_pairs].
    destruct (is_profile_already_registered_for_date n d
                (mark_profile_already_registered name date_id st));
      destruct (is_profile_already_registered_for_date n d st);
      intuition (try discriminate; auto).
  - pose proof (successful_mark_successful n d sid name date_id session_id st) as K.
    unfold mark_profile_successful at 2 3.
    unfold is_profile_already_registered_for_date, is_slot_full.
    cbn [already_registered_profiles slot_full_pairs].
    destruct (is_profile_successful n d sid
                (mark_profile_successful name date_id session_id st));
      destruct (is_profile_successful n d sid st);
      intuition (try discriminate; auto).
Qed.

(* ===================================================================== *)
(** ** The endless algorithm *)

Section AlgorithmFacts.
Variable E : env.
Variable cfg : config.

Lemma safe_stop : rel safe (stop_event_is_set E).
Proof. intros s. apply grows_quiet_safe. apply io_stop. Qed.

Lemma safe_time_time : rel safe (time_time E).
Proof. intros s. apply grows_quiet_safe. apply io_time_time. Qed.

Lemma pairs_loop_safe (fuel : nat) (phien_data : list phien) :
  rel safe (pairs_loop E cfg fuel phien_data).
Proof.
  induction phien_data as [|ph rest IH]; cbn [pairs_loop].
  - apply rel_ret.
  - apply rel_bind; [apply safe_stop|]. intros [|]; [apply rel_ret|].
    apply rel_bind; [apply rel_gets|]. intros [|]; [exact IH|].
    apply rel_bind; [|intros _; exact IH].
    intros s. apply register_all_profiles_parallel_safe.
Qed.

Lemma iterations_safe (fuel rounds : nat) (phien_data : list phien) :
  rel safe (iterations E cfg fuel rounds phien_data).
Proof.
  induction rounds as [|rounds IH]; cbn [iterations].
  - apply rel_out_of_fuel.
  - apply rel_bind; [apply pairs_loop_safe|]. intros [|]; [|apply rel_ret].
    apply rel_bind; [apply safe_time_time | intros _; exact IH].
Qed.

Lemma run_registration_algorithm_safe (fuel : nat) (phien_data : list phien) :
  rel safe (run_registration_algorithm E cfg fuel phien_data).
Proof.
  unfold run_registration_algorithm.
  apply rel_bind; [apply safe_time_time | intros _; apply iterations_safe].
Qed.
End AlgorithmFacts.

Lemma submission_was_eligible (st : tracking) (t : list event)
    (name : pystr) (d sid : Z) (c : pystr) :
  trace_ok st t -> EvSubmit name d sid c ∈ t ->
  fst (can_profile_register name d sid st) = true.
Proof.
  revert st. induction t as [|e t IH]; intros st Hok Hin.
  - now apply elem_of_nil in Hin.
  - cbn [trace_ok] in Hok. destruct Hok as [Hal Hok].
    apply elem_of_cons in Hin as [<-|Hin]; [exact Hal|].
    apply (replay_keeps_ineligible st [e]). cbn [replay fold_left]. now apply IH.
Qed.

Section AlgorithmProps.
Variable E : env.
Variable cfg : config.

(** X2. Whatever a run of [run_registration_algorithm] does, over all pairs
    and iterations, also one cut short by an exception, every submission
    it dispatches is for a profile that [can_profile_register] admits for
    the pair on the store as it stands at that moment, and the store
    changes by the marks of the trace and by nothing else. *)
Theorem algorithm_dispatches_only_allowed (fuel : nat) (phien_data : list phien) (s : sys) :
  safe s (snd (run_registration_algorithm E cfg fuel phien_data s)).
Proof. apply run_registration_algorithm_safe. Qed.

(** X3. In the trace of a run of [run_registration_algorithm] no submission
    follows a mark that rules it out: once a profile is marked registered
    for a date it is not submitted again for any session of that date,
    once a pair is marked exhausted nothing is submitted for it, and once
    a profile is marked successful for a pair it is not submitted for that
    pair again. *)
Theorem no_submission_after_mark (fuel : nat) (phien_data : list phien) (s : sys)
    (t1 t2 : list event) (mark : event) (name : pystr) (d sid : Z) (c : pystr) :
  trace (snd (run_registration_algorithm E cfg fuel phien_data s))
    = trace s ++ t1 ++ mark :: t2 ->
  EvSubmit name d sid c ∈ t2 ->
  mark <> EvMarkSuccessful name d sid
  /\ mark <> EvMarkRegistered name d
  /\ mark <> EvMarkSlotFull d sid.
Proof.
  intros Ht Hin.
  destruct (run_registration_algorithm_safe E cfg fuel phien_data s) as (t & Ht' & Hok & _).
  rewrite Ht in Ht'. apply app_inv_head in Ht' as <-.
  apply trace_ok_app in Hok as [_ Hok]. cbn [trace_ok] in Hok. destruct Hok as [_ Hok].
  pose proof (submission_was_eligible _ _ _ _ _ _ Hok Hin) as Hel.
  apply can_register_true in Hel as (H1 & H2 & H3).
  repeat split; intros ->; cbn [apply_event] in *.
  - assert (K : is_profile_successful name d sid
                  (mark_profile_successful name d sid (replay (store s) t1)) = true)
      by (apply successful_mark_successful; auto).
    congruence.
  - assert (K : is_profile_already_registered_for_date name d
                  (mark_profile_already_registered name d (replay (store s) t1)) = true)
      by (apply registered_mark_registered; auto).
    congruence.
  - assert (K : is_slot_full d sid (mark_slot_full d sid (replay (store s) t1)) = true)
      by (apply slot_full_mark_slot_full; auto).
    congruence.
Qed.

Lemma pairs_loop_returned (fuel : nat) (phien_data : list phien) (s s' : sys) :
  pairs_loop E cfg fuel phien_data s = (Ok false, s') ->
  exists k, tick s' = S k /\ stop_is_set E k = true.
Proof.
  revert s. induction phien_data as [|ph rest IH]; intros s; cbn [pairs_loop].
  - intros [= ].
  - mred. destruct (stop_is_set E (tick s)) eqn:Hstop.
    + intros [= <-]. cbn [tick]. eauto.
    + destruct (is_slot_full _ _ _); [apply IH|].
      destruct (register_all_profiles_parallel E cfg fuel _ _ _) as [[r| e |] s1];
        [apply IH | intros [= ] | intros [= ]].
Qed.

Lemma iterations_returned (fuel rounds : nat) (phien_data : list phien) (s s' : sys) (u : unit) :
  iterations E cfg fuel rounds phien_data s = (Ok u, s') ->
  exists k, tick s' = S k /\ stop_is_set E k = true.
Proof.
  revert s. induction rounds as [|rounds IH]; intros s; cbn [iterations].
  - intros [= ].
  - unfold bind at 1.
    destruct (pairs_loop E cfg fuel phien_data s) as [[[|]| e |] s1] eqn:Hloop;
      try (intros [= ]; fail).
    + mred. apply IH.
    + intros [= _ <-]. eapply pairs_loop_returned; eauto.
Qed.

(** X4. [run_registration_algorithm] returns only right after a reading of
    the stop event that found it set: the state of a run that returns is
    one tick past such a reading. *)
Theorem algorithm_returns_only_on_stop (fuel : nat) (phien_data : list phien) (s : sys) :
  let run := run_registration_algorithm E cfg fuel phien_data s in
  is_Ok (fst run) = true ->
  exists k, tick (snd run) = S k /\ stop_is_set E k = true.
Proof.
  cbv zeta.
  destruct (run_registration_algorithm E cfg fuel phien_data s) as [[[]| e |] s'] eqn:Hrun;
    cbn [fst snd is_Ok]; try discriminate.
  intros _. unfold run_registration_algorithm in Hrun. mred_in Hrun.
  eapply iterations_returned; eauto.
Qed.
End AlgorithmProps.

Lemma filter_none {A} (f : A -> bool) (l : list A) :
  Forall (fun x => f x = false) l -> List.filter f l = [].
Proof.
  induction 1 as [|x l Hx _ IH]; cbn [List.filter]; [reflexivity|].
  now rewrite Hx.
Qed.

Section Spin.
Variable E : env.
Variable cfg : config.

Lemma register_all_nothing_left (fuel : nat) (ph : phien) (s : sys) :
  nothing_left cfg (store s) ph ->
  register_all_profiles_parallel E cfg fuel (phien_date_id ph) (phien_session_id ph) s
  = (Ok ∅, s).
Proof.
  intros Hn. unfold register_all_profiles_parallel. mred.
  destruct (is_slot_full _ _ (store s)) eqn:Hfull; [reflexivity|].
  destruct Hn as [Hn|Hn]; [congruence|].
  rewrite (filter_none _ _ Hn). reflexivity.
Qed.

Lemma pairs_loop_nothing_left (fuel : nat) (phien_data : list phien) (s : sys) :
  (forall k, stop_is_set E k = false) ->
  Forall (nothing_left cfg (store s)) phien_data ->
  pairs_loop E cfg fuel phien_data s
  = (Ok true, {| pool := pool s; store := store s; book := book s;
                 tick := tick s + length phien_data; trace := trace s |}).
Proof.
  intros Hstop Hall. revert s Hall.
  induction phien_data as [|ph rest IH]; intros s Hall; cbn [pairs_loop].
  - cbv [ret]. destruct s. cbn. now rewrite Nat.add_0_r.
  - inversion Hall as [|? ? Hph Hrest]; subst. mred. cbv zeta. rewrite Hstop. mred.
    assert (Hgo : pairs_loop E cfg fuel rest (next_tick s)
                  = (Ok true, {| pool := pool s; store := store s; book := book s;
                                 tick := tick s + length (ph :: rest);
                                 trace := trace s |})).
    { rewrite (IH (next_tick s)) by exact Hrest. cbn [next_tick pool store book tick trace length].
      do 2 f_equal. lia. }
    pose proof (register_all_nothing_left fuel ph (next_tick s) Hph) as Hreg.
    unfold next_tick in Hgo, Hreg.
    destruct (is_slot_full (phien_date_id ph) (phien_session_id ph) (store s)) eqn:Hfull;
      [exact Hgo|].
    rewrite Hreg. exact Hgo.
Qed.

(** X5. When the stop event is never set and every pair of the list is
    exhausted or has no eligible profile, [run_registration_algorithm]
    goes through all its iterations without returning and without
    emitting anything: no request, no sleep, no mark. Pool, store and
    journal stay as they are; an iteration only reads the stop event once
    per pair and the clock once. *)
Theorem algorithm_spins_when_nothing_left (fuel : nat) (phien_data : list phien) (s : sys) :
  (forall k, stop_is_set E k = false) ->
  Forall (nothing_left cfg (store s)) phien_data ->
  run_registration_algorithm E cfg fuel phien_data s
  = (Fuel, {| pool := pool s; store := store s; book := book s;
              tick := tick s + 1 + fuel * (length phien_data + 1); trace := trace s |}).
Proof.
  intros Hstop Hall. unfold run_registration_algorithm. mred.
  assert (Hit : forall rounds s0,
            store s0 = store s ->
            iterations E cfg fuel rounds phien_data s0
            = (Fuel, {| pool := pool s0; store := store s0; book := book s0;
                        tick := tick s0 + rounds * (length phien_data + 1);
                        trace := trace s0 |})).
  { induction rounds as [|rounds IH]; intros s0 Hst; cbn [iterations].
    - cbv [out_of_fuel]. destruct s0. cbn. now rewrite Nat.add_0_r.
    - unfold bind at 1. rewrite pairs_loop_nothing_left by (rewrite ?Hst; auto).
      mred. rewrite IH by exact Hst. cbn [pool store book tick trace].
      do 2 f_equal. lia. }
  rewrite Hit by reflexivity. cbn [next_tick pool store book tick trace].
  do 2 f_equal. lia.
Qed.
End Spin.

Lemma algorithm_spins_when_nothing_left_witness :
  let s := set_store (mark_slot_full 67 101) (fresh_sys 2) in
  let pairs := [ {| phien_date_id := 67; phien_session_id := 101 |} ] in
  Forall (nothing_left (sample_cfg 2 ["p1"; "p2"]) (store s)) pairs
  /\ fst (run_registration_algorithm accepting_world (sample_cfg 2 ["p1"; "p2"]) 1000 pairs s)
     = Fuel
  /\ trace (snd (run_registration_algorithm accepting_world (sample_cfg 2 ["p1"; "p2"])
                   1000 pairs s)) = [].
Proof.
  cbv zeta.
  assert (H : Forall (nothing_left (sample_cfg 2 ["p1"; "p2"])
                        (store (set_store (mark_slot_full 67 101) (fresh_sys 2))))
                [ {| phien_date_id := 67; phien_session_id := 101 |} ]).
  { constructor; [left; vm_compute; reflexivity | constructor]. }
  split; [exact H|].
  rewrite (algorithm_spins_when_nothing_left accepting_world (sample_cfg 2 ["p1"; "p2"])
             1000 _ _ (fun _ => eq_refl) H).
  split; reflexivity.
Defined.

(** X6. Step 3 of [_cleanup_resources], given more passes than there are
    idle sessions, returns with the deque empty, having closed every idle
    session once, in the order of the deque; the in-flight counter and
    everything else are untouched. *)
Theorem cleanup_closes_idle_sessions (fuel : nat) (s : sys) :
  (length (session_pool (pool s)) < fuel)%nat ->
  _cleanup_resources fuel s
  = (Ok tt, {| pool := {| session_pool := [];
                          inflight_sessions := inflight_sessions (pool s);
                          created := created (pool s) |};
               store := store s; book := book s; tick := tick s;
               trace := trace s ++ map EvClose (session_pool (pool s)) |}).
Proof.
  unfold _cleanup_resources. revert s.
  induction fuel as [|fuel IH]; intros s Hlen; [lia|].
  cbn [close_pooled]. mred. unfold pool_popleft.
  destruct s as [[idle inflight made] st bk tk tr]. cbn [pool session_pool] in *.
  destruct idle as [|session rest]; cbn [map].
  - now rewrite app_nil_r.
  - mred. rewrite IH by (cbn in *; lia). cbn [pool session_pool inflight_sessions created
      store book tick trace]. now rewrite <- app_assoc.
Qed.

Lemma cleanup_closes_idle_sessions_witness :
  (length (session_pool (pool (fresh_sys 3))) < 4)%nat
  /\ fst (_cleanup_resources 4 (fresh_sys 3)) = Ok tt
  /\ trace (snd (_cleanup_resources 4 (fresh_sys 3)))
     = [EvClose 0%nat; EvClose 1%nat; EvClose 2%nat].
Proof.
  assert (H : (length (session_pool (pool (fresh_sys 3))) < 4)%nat) by (vm_compute; lia).
  split; [exact H|].
  rewrite (cleanup_closes_idle_sessions 4 (fresh_sys 3) H). split; reflexivity.
Defined.

(* ===================================================================== *)
(** ** Soft cap, waiting at the hard cap, the bypass *)

Lemma pool_exec_idle_bounded (cfg : config) (op : pool_op) (ps ps' : pool_state) (bound : Z) :
  max_pool_size cfg <= bound ->
  pool_exec cfg op ps = Some ps' ->
  Z.of_nat (length (session_pool ps)) <= bound ->
  Z.of_nat (length (session_pool ps')) <= bound.
Proof.
  intros Hcap Hexec Hle.
  destruct op as [| | |session]; cbn [pool_exec] in Hexec.
  - unfold pool_take in Hexec.
    destruct (session_pool ps) as [|x rest] eqn:Hp; cbn in Hexec; [discriminate|].
    injection Hexec as <-. cbn [session_pool length] in *. lia.
  - unfold pool_create_under_cap in Hexec.
    destruct (_ <? _); cbn in Hexec; [|discriminate].
    injection Hexec as <-. cbn [session_pool]. exact Hle.
  - injection Hexec as <-. cbn [pool_create_on_stop create_session_with_pool snd session_pool].
    exact Hle.
  - injection Hexec as <-. unfold pool_return.
    destruct (_ <? _) eqn:Hlt; cbn [snd session_pool]; [|exact Hle].
    apply Z.ltb_lt in Hlt. rewrite length_app. cbn [length]. lia.
Qed.

(** X7. Under any schedule of acquisitions and releases the number of idle
    sessions never exceeds the larger of its initial value and
    [max_pool_size]: a release puts the session back only while the deque
    is below [max_pool_size]. *)
Theorem idle_sessions_within_soft_cap (cfg : config) (ops : list pool_op) (ps : pool_state) :
  Z.of_nat (length (session_pool (pool_run cfg ops ps)))
  <= Z.max (Z.of_nat (length (session_pool ps))) (max_pool_size cfg).
Proof.
  set (bound := Z.max _ _).
  assert (Hcap : max_pool_size cfg <= bound) by lia.
  assert (Hle : Z.of_nat (length (session_pool ps)) <= bound) by lia.
  clearbody bound. revert ps Hle.
  induction ops as [|op ops IH]; intros ps Hle; cbn [pool_run]; [exact Hle|].
  apply IH. destruct (pool_exec cfg op ps) as [ps'|] eqn:Hexec; cbn [default]; [|exact Hle].
  eapply pool_exec_idle_bounded; eauto.
Qed.

Section Acquire.
Variable E : env.
Variable cfg : config.

(** X8. With no idle session, the in-flight count at or above [hard_cap]
    and the stop event never set, [get_session_from_pool] does not return:
    whatever the budget, it is still waiting when the budget ends, has
    created no session, has left the pool as it was, and has slept 5 ms
    after each check. *)
Theorem acquire_waits_at_hard_cap (fuel : nat) (s : sys) :
  session_pool (pool s) = [] ->
  hard_cap cfg <= inflight_sessions (pool s) ->
  (forall k, stop_is_set E k = false) ->
  get_session_from_pool E cfg fuel s
  = (Fuel, {| pool := pool s; store := store s; book := book s;
              tick := tick s + fuel;
              trace := trace s ++ replicate fuel (EvSleep 5) |}).
Proof.
  intros Hidle Hcap Hstop. unfold get_session_from_pool. mred. unfold pool_take.
  rewrite Hidle.
  assert (Hwait : forall s0, pool s0 = pool s ->
            wait_under_cap E cfg fuel s0
            = (Fuel, {| pool := pool s0; store := store s0; book := book s0;
                        tick := tick s0 + fuel;
                        trace := trace s0 ++ replicate fuel (EvSleep 5) |})).
  { induction fuel as [|n IH]; intros s0 Hp; cbn [wait_under_cap].
    - cbv [out_of_fuel]. destruct s0; cbn. now rewrite Nat.add_0_r, app_nil_r.
    - mred. unfold pool_create_under_cap. rewrite Hp, Hidle. cbn [length].
      replace (Z.of_nat 0 + inflight_sessions (pool s) <? hard_cap cfg) with false
        by (symmetry; apply Z.ltb_ge; lia).
      mred. rewrite Hstop. mred. rewrite IH by exact Hp.
      cbn [pool store book tick trace]. rewrite <- app_assoc. cbn [app replicate].
      rewrite ?Hp. do 2 f_equal. lia. }
  rewrite Hwait by reflexivity. reflexivity.
Qed.

(** X9. With no idle session and the in-flight count at or above
    [hard_cap], an acquisition that finds the stop event set returns at
    once with a newly created session, and the in-flight count goes one
    further above the cap. *)
Theorem acquire_under_stop_ignores_cap (fuel : nat) (s : sys) :
  session_pool (pool s) = [] ->
  hard_cap cfg <= inflight_sessions (pool s) ->
  stop_is_set E (tick s) = true ->
  get_session_from_pool E cfg (S fuel) s
  = (Ok (created (pool s)),
     {| pool := {| session_pool := [];
                   inflight_sessions := inflight_sessions (pool s) + 1;
                   created := S (created (pool s)) |};
        store := store s; book := book s; tick := S (tick s);
        trace := trace s ++ [EvAcquire (created (pool s))] |}).
Proof.
  intros Hidle Hcap Hstop. unfold get_session_from_pool. mred. unfold pool_take.
  rewrite Hidle. cbn [wait_under_cap]. mred. unfold pool_create_under_cap.
  rewrite Hidle. cbn [length].
  replace (Z.of_nat 0 + inflight_sessions (pool s) <? hard_cap cfg) with false
    by (symmetry; apply Z.ltb_ge; lia).
  mred. rewrite Hstop. mred.
  cbv [pool_create_on_stop create_session_with_pool]. mred.
  cbn [session_pool inflight_sessions created]. rewrite Hidle. reflexivity.
Qed.
End Acquire.

Lemma acquire_waits_at_hard_cap_witness :
  hard_cap (sample_cfg 2 ["p1"]) <= inflight_sessions (pool (busy_sys 18))
  /\ fst (get_session_from_pool accepting_world (sample_cfg 2 ["p1"]) 50 (busy_sys 18)) = Fuel
  /\ trace (snd (get_session_from_pool accepting_world (sample_cfg 2 ["p1"]) 50 (busy_sys 18)))
     = replicate 50 (EvSleep 5).
Proof.
  assert (H : hard_cap (sample_cfg 2 ["p1"]) <= inflight_sessions (pool (busy_sys 18)))
    by (vm_compute; discriminate).
  split; [exact H|].
  rewrite (acquire_waits_at_hard_cap accepting_world (sample_cfg 2 ["p1"]) 50 (busy_sys 18)
             eq_refl H (fun _ => eq_refl)).
  split; reflexivity.
Defined.

Lemma acquire_under_stop_ignores_cap_witness :
  hard_cap (sample_cfg 2 ["p1"]) <= inflight_sessions (pool (busy_sys 18))
  /\ fst (get_session_from_pool stopped_world (sample_cfg 2 ["p1"]) 1 (busy_sys 18))
     = Ok 18%nat
  /\ pool_total (pool (snd (get_session_from_pool stopped_world (sample_cfg 2 ["p1"]) 1
                              (busy_sys 18)))) = 19.
Proof.
  assert (H : hard_cap (sample_cfg 2 ["p1"]) <= inflight_sessions (pool (busy_sys 18)))
    by (vm_compute; discriminate).
  split; [exact H|].
  rewrite (acquire_under_stop_ignores_cap stopped_world (sample_cfg 2 ["p1"]) 0 (busy_sys 18)
             eq_refl H eq_refl).
  split; reflexivity.
Defined.

(* ===================================================================== *)
(** ** Steps that leave the pool alone *)

#[global] Instance calm_refl : Reflexive calm.
Proof. intros s. split; [reflexivity|]. exists []. now rewrite app_nil_r. Qed.

#[global] Instance calm_trans : Transitive calm.
Proof.
  intros s1 s2 s3 [Hp1 (t1 & Ht1 & H1)] [Hp2 (t2 & Ht2 & H2)]. split; [congruence|].
  exists (t1 ++ t2). rewrite Ht2, Ht1, app_assoc. split; [reflexivity|].
  now apply Forall_app.
Qed.

Lemma calm_silent {A} (c : M A) :
  (forall s, pool (snd (c s)) = pool s /\ trace (snd (c s)) = trace s) -> rel calm c.
Proof.
  intros H s. destruct (H s) as [Hp Ht]. split; [exact Hp|].
  exists []. rewrite app_nil_r. auto.
Qed.

Lemma calm_emit (e : event) : off_pool e -> rel calm (emit e).
Proof.
  intros He s. split; [reflexivity|]. exists [e]. split; [reflexivity|]. now constructor.
Qed.

Section CalmFacts.
Variable E : env.
Variable cfg : config.

Lemma calm_time_time : rel calm (time_time E).
Proof. apply calm_silent. intros s. now mred. Qed.

Lemma calm_stop : rel calm (stop_event_is_set E).
Proof. apply calm_silent. intros s. now mred. Qed.

Lemma calm_predict (data : list N) : rel calm (predict_from_bytes E data).
Proof. apply calm_silent. intros s. mred. now destruct (ocr E (tick s) data). Qed.

Lemma calm_session_get (session : session) (r : request) :
  rel calm (session_get E session r).
Proof.
  unfold session_get. apply rel_bind; [apply calm_silent; intros s; now mred|].
  intros k. apply rel_bind; [now apply calm_emit|].
  intros _. destruct (http E k session r); [apply rel_ret | apply rel_raise].
Qed.

Lemma calm_set_store (f : tracking -> tracking) : rel calm (modify (set_store f)).
Proof. apply calm_silent. intros s. now mred. Qed.

Lemma calm_set_book (f : journal -> journal) : rel calm (modify (set_book f)).
Proof. apply calm_silent. intros s. now mred. Qed.

Lemma calm_submit_request (session : session) (profile : profile) (date_id session_id : Z)
    (captcha_text : pystr) :
  rel calm (submit_request E cfg session profile date_id session_id captcha_text).
Proof.
  unfold submit_request. apply rel_try_except.
  - apply rel_bind; [apply calm_session_get|]. intros response.
    repeat (match goal with |- rel _ (if ?b then _ else _) => destruct b end;
            try apply rel_ret).
    destruct (classify_error _ _ _) as [error_type description].
    destruct (bool_decide _); apply rel_ret.
  - intros e h Hh. destruct e; inversion Hh; subst; apply rel_ret.
Qed.

Lemma calm_captcha_attempt (session : session) : rel calm (captcha_attempt E session).
Proof.
  unfold captcha_attempt. apply rel_try_except.
  - apply rel_bind; [apply calm_session_get|]. intros response.
    destruct (status_code response =? 503); [apply rel_ret|].
    destruct (negb (status_code response =? 200)); [apply rel_ret|].
    destruct (search_src (text response)) as [path|]; [|apply rel_ret].
    apply rel_bind; [apply calm_session_get|]. intros img_response.
    destruct (status_code img_response =? 503); [apply rel_ret|].
    destruct (negb (status_code img_response =? 200)); [apply rel_ret|].
    apply rel_bind; [apply calm_predict|]. intros captcha_text.
    destruct (_ || _); [apply rel_ret|].
    apply rel_bind; [apply calm_time_time | intros; apply rel_ret].
  - intros e h Hh. destruct e; inversion Hh; subst; apply rel_ret.
Qed.

Lemma calm_captcha_loop (fuel : nat) (session : session) :
  rel calm (captcha_loop E fuel session).
Proof.
  induction fuel as [|fuel IH]; cbn [captcha_loop].
  - apply rel_out_of_fuel.
  - apply rel_bind; [apply calm_captcha_attempt|].
    intros [c|]; [apply rel_ret | exact IH].
Qed.

Lemma calm_get_fresh_captcha (fuel : nat) (session : session) :
  rel calm (get_fresh_captcha E fuel (Some session)).
Proof.
  unfold get_fresh_captcha. apply rel_bind; [apply rel_ret|].
  intros [own_session owns]. apply rel_try_finally.
  - apply rel_bind; [apply calm_captcha_loop|]. intros c.
    apply rel_bind; [now apply calm_emit | intros; apply rel_ret].
  - destruct owns; [now apply calm_emit | apply rel_ret].
Qed.

Lemma calm_is_captcha_valid (captcha_timestamp ttl : Z) :
  rel calm (is_captcha_valid E captcha_timestamp ttl).
Proof.
  unfold is_captcha_valid. apply rel_bind; [apply calm_time_time | intros; apply rel_ret].
Qed.

Lemma calm_log_message (is_success : bool) (name : pystr) (date_id session_id : Z)
    (error_type : tag) (full_response : pystr) :
  rel calm (log_message E is_success name date_id session_id error_type full_response).
Proof.
  unfold log_message. apply rel_bind; [apply calm_time_time|].
  intros ts. apply calm_set_book.
Qed.

Lemma calm_handle_result (date_id session_id : Z) (batch_results : gmap pystr outcome)
    (v : round_vars) (p : profile) :
  rel calm (handle_result E date_id session_id batch_results v p).
Proof.
  unfold handle_result.
  destruct (result_of batch_results (profile_name p)) as [[success error_type] full_response].
  assert (Hmark1 : rel calm (do_mark_profile_already_registered (profile_name p) date_id)).
  { unfold do_mark_profile_already_registered.
    apply rel_bind; [apply calm_set_store | intros; now apply calm_emit]. }
  assert (Hfail : forall v' : round_vars, rel calm
            (timestamp <- time_time E ;;
             record_failure {| fr_profile_name := profile_name p; fr_date_id := date_id;
                               fr_session_id := session_id; fr_timestamp := timestamp;
                               fr_error_type := error_type;
                               fr_response := slice_to 200 full_response |} ;;
             log_message E false (profile_name p) date_id session_id error_type
                         full_response ;;
             ret v')).
  { intros v'. apply rel_bind; [apply calm_time_time|]. intros ts.
    apply rel_bind; [apply calm_set_book|]. intros _.
    apply rel_bind; [apply calm_log_message | intros; apply rel_ret]. }
  destruct success.
  - apply rel_bind; [apply calm_time_time|]. intros ts.
    apply rel_bind; [apply calm_set_book|]. intros _.
    apply rel_bind.
    { unfold do_mark_profile_successful.
      apply rel_bind; [apply calm_set_store | intros; now apply calm_emit]. }
    intros _. apply rel_bind; [exact Hmark1|]. intros _.
    apply rel_bind; [apply calm_log_message | intros; apply rel_ret].
  - apply rel_bind; [|intros v'; apply Hfail].
    destruct error_type; try apply rel_ret.
    + apply rel_bind; [|intros; apply rel_ret]. unfold do_mark_slot_full.
      apply rel_bind; [apply calm_set_store | intros; now apply calm_emit].
    + apply rel_bind; [exact Hmark1 | intros; apply rel_ret].
Qed.
End CalmFacts.

(** A relation that holds across the steps that leave the pool alone,
    across a submission task and across a credential fetch holds across
    the whole orchestrator and the endless algorithm. *)
Section Lift.
Variable E : env.
Variable cfg : config.
Variable R : sys -> sys -> Prop.
Variable strict : bool.
Context `{!Reflexive R} `{!Transitive R}.
Hypothesis calm_R : forall s s', calm s s' -> R s s'.
Hypothesis attempt_R : forall fuel p d sid c,
  rel R (register_single_attempt E cfg fuel p d sid c).
Hypothesis fetch_R : forall fuel, rel_if strict R (fetch_shared_captcha E cfg fuel).

Lemma rel_if_of_rel {A} (c : M A) : rel R c -> rel_if strict R c.
Proof. intros H s _. apply H. Qed.

Lemma rel_of_calm {A} (c : M A) : rel calm c -> rel R c.
Proof. intros H s. apply calm_R, H. Qed.

Lemma rel_if_bind {A B} (c : M A) (k : A -> M B) :
  rel_if strict R c -> (forall a, rel_if strict R (k a)) -> rel_if strict R (bind c k).
Proof.
  intros Hc Hk s Hok. unfold bind in *. specialize (Hc s).
  destruct (c s) as [[a| e |] s1]; cbn [fst snd] in *.
  - etransitivity; [apply Hc; reflexivity | apply Hk, Hok].
  - apply Hc. intros Hs. specialize (Hok Hs). discriminate.
  - apply Hc. intros Hs. specialize (Hok Hs). discriminate.
Qed.

Lemma rel_if_ret {A} (a : A) : rel_if strict R (ret a).
Proof. apply rel_if_of_rel, rel_ret. Qed.

Lemma lift_collect_task (fuel : nat) (date_id session_id : Z) (captcha_text : pystr)
    (results : gmap pystr outcome) (p : profile) :
  rel R (collect_task E cfg fuel date_id session_id captcha_text results p).
Proof.
  unfold collect_task. apply rel_try_except.
  - apply rel_bind; [apply attempt_R | intros; apply rel_ret].
  - intros e h Hh. destruct (is_Exception e); inversion Hh; subst. apply rel_ret.
Qed.

Lemma lift_run_chunk (fuel : nat) (date_id session_id : Z) (captcha_text : pystr)
    (captcha_timestamp : Z) (n_chunks : nat) (results : gmap pystr outcome)
    (indexed : nat * list profile) :
  rel R (run_chunk E cfg fuel date_id session_id captcha_text captcha_timestamp n_chunks
                   results indexed).
Proof.
  unfold run_chunk. destruct indexed as [chunk_idx chunk].
  apply rel_bind; [apply rel_of_calm, calm_is_captcha_valid|].
  intros valid. destruct (negb valid).
  - apply rel_bind; [apply rel_of_calm, calm_time_time|]. intros _.
    apply rel_for_each. intros; apply rel_ret.
  - apply rel_bind.
    { apply rel_for_each. intros [] p Hp. unfold submit_task.
      apply rel_of_calm. now apply calm_emit. }
    intros _. apply rel_bind.
    { apply rel_for_each. intros acc p Hp. apply lift_collect_task. }
    intros results'. apply rel_bind; [|intros; apply rel_ret].
    destruct (_ <? _)%nat; [|apply rel_ret]. apply rel_of_calm. now apply calm_emit.
Qed.

Lemma lift_register_batch (fuel : nat) (batch : list profile) (date_id session_id : Z)
    (captcha_text : pystr) (captcha_timestamp : Z) :
  rel R (register_batch_with_shared_captcha E cfg fuel batch date_id session_id
           captcha_text captcha_timestamp).
Proof.
  unfold register_batch_with_shared_captcha.
  apply rel_bind; [apply rel_of_calm; now apply calm_emit|]. intros _.
  apply rel_bind.
  - destruct (make_chunks (max_workers cfg) batch); [apply rel_ret | apply rel_raise].
  - intros chunks. apply rel_for_each. intros acc indexed _. apply lift_run_chunk.
Qed.

Lemma lift_dispatch_round (fuel : nat) (date_id session_id : Z) (pending : list profile)
    (captcha_text : pystr) (captcha_timestamp : Z) :
  rel_if strict R
    (dispatch_round E cfg fuel date_id session_id pending captcha_text captcha_timestamp).
Proof.
  unfold dispatch_round.
  apply rel_if_bind; [apply rel_if_of_rel, rel_of_calm, calm_is_captcha_valid|].
  intros valid. apply rel_if_bind.
  { destruct (negb valid); [|apply rel_if_ret].
    apply rel_if_bind; [apply rel_if_of_rel, rel_of_calm, calm_time_time|].
    intros _. apply fetch_R. }
  intros credential.
  apply rel_if_bind; [apply rel_if_of_rel, lift_register_batch | intros; apply rel_if_ret].
Qed.

Lemma lift_retry_round (fuel : nat) (date_id session_id : Z) (pending : list profile)
    (final : gmap pystr bool) (captcha_text : pystr) (captcha_timestamp : Z) :
  rel_if strict R
    (retry_round E cfg fuel date_id session_id pending final captcha_text
                 captcha_timestamp).
Proof.
  unfold retry_round. apply rel_if_bind; [apply lift_dispatch_round|]. intros round.
  apply rel_if_bind.
  { apply rel_if_of_rel, rel_for_each. intros acc p _.
    apply rel_of_calm, calm_handle_result. }
  intros v. unfold refresh_after_errors.
  destruct (captcha_error_profiles v); [apply rel_if_ret|].
  apply rel_if_bind; [apply fetch_R | intros; apply rel_if_ret].
Qed.

Lemma lift_retry_loop (fuel rounds : nat) (date_id session_id : Z) :
  forall (pending : list profile) (final : gmap pystr bool) (captcha_text : pystr)
         (captcha_timestamp : Z),
    rel_if strict R
      (retry_loop E cfg fuel rounds date_id session_id pending final captcha_text
                  captcha_timestamp).
Proof.
  induction rounds as [|rounds IH]; intros pending final captcha_text captcha_timestamp;
    destruct pending as [|p0 pending0]; cbn [retry_loop]; try apply rel_if_ret.
  - apply rel_if_of_rel, rel_out_of_fuel.
  - apply rel_if_bind; [apply lift_retry_round|].
    intros [[credential pending'] final'].
    apply rel_if_bind; [apply rel_if_of_rel, rel_gets|].
    intros [|]; [apply rel_if_ret | apply IH].
Qed.

Lemma lift_register_all (fuel : nat) (date_id session_id : Z) :
  rel_if strict R (register_all_profiles_parallel E cfg fuel date_id session_id).
Proof.
  unfold register_all_profiles_parallel.
  apply rel_if_bind; [apply rel_if_of_rel, rel_gets|].
  intros [|]; [apply rel_if_ret|].
  apply rel_if_bind; [apply rel_if_of_rel, rel_gets|].
  intros [|p0 rest]; [apply rel_if_ret|].
  apply rel_if_bind; [apply fetch_R | intros; apply lift_retry_loop].
Qed.

Lemma lift_pairs_loop (fuel : nat) (phien_data : list phien) :
  rel_if strict R (pairs_loop E cfg fuel phien_data).
Proof.
  induction phien_data as [|ph rest IH]; cbn [pairs_loop].
  - apply rel_if_ret.
  - apply rel_if_bind; [apply rel_if_of_rel, rel_of_calm, calm_stop|].
    intros [|]; [apply rel_if_ret|].
    apply rel_if_bind; [apply rel_if_of_rel, rel_gets|]. intros [|]; [exact IH|].
    apply rel_if_bind; [apply lift_register_all | intros _; exact IH].
Qed.

Lemma lift_run_registration_algorithm (fuel : nat) (phien_data : list phien) :
  rel_if strict R (run_registration_algorithm E cfg fuel phien_data).
Proof.
  unfold run_registration_algorithm.
  apply rel_if_bind; [apply rel_if_of_rel, rel_of_calm, calm_time_time|]. intros _.
  generalize fuel at 2. intros rounds.
  induction rounds as [|rounds IH]; cbn [iterations].
  - apply rel_if_of_rel, rel_out_of_fuel.
  - apply rel_if_bind; [apply lift_pairs_loop|]. intros [|]; [|apply rel_if_ret].
    apply rel_if_bind; [apply rel_if_of_rel, rel_of_calm, calm_time_time|].
    intros _. exact IH.
Qed.
End Lift.

(* ===================================================================== *)
(** ** Pooled sessions and balance of acquisitions *)

#[global] Instance keeps_wf_refl : Reflexive keeps_wf.
Proof. intros s H. exact H. Qed.

#[global] Instance keeps_wf_trans : Transitive keeps_wf.
Proof. intros s1 s2 s3 H1 H2 H. auto. Qed.

Lemma calm_keeps_wf (s s' : sys) : calm s s' -> keeps_wf s s'.
Proof. intros [Hp _] H. now rewrite Hp. Qed.

Lemma fill_pool_wf (n : nat) (ps : pool_state) : pool_wf ps -> pool_wf (fill_pool n ps).
Proof.
  revert ps. induction n as [|n IH]; intros ps [Hnd Hlt]; cbn [fill_pool]; [now split|].
  unfold create_session_with_pool. apply IH. cbn [session_pool created]. split.
  - apply NoDup_app. split; [exact Hnd|]. split; [|apply NoDup_singleton].
    intros x Hx Hx'. apply list_elem_of_singleton in Hx'. subst x.
    rewrite Forall_forall in Hlt. specialize (Hlt _ Hx). lia.
  - apply Forall_app. split.
    + eapply Forall_impl; [exact Hlt|]. cbn. intros; lia.
    + repeat constructor.
Qed.

Lemma init_session_pool_wf (cfg : config) (pool_size : option Z) (ps : pool_state) :
  pool_wf (init_session_pool cfg pool_size ps).
Proof.
  unfold init_session_pool. cbv zeta. apply fill_pool_wf. split; cbn; constructor.
Qed.

Section PoolFacts.
Variable E : env.
Variable cfg : config.

Lemma wait_under_cap_creates (fuel : nat) (s : sys) :
  match wait_under_cap E cfg fuel s with
  | (Ok x, s1) =>
      session_pool (pool s1) = session_pool (pool s)
      /\ x = created (pool s) /\ created (pool s1) = S x
  | (Raise _, _) => False
  | (Fuel, s1) => pool s1 = pool s
  end.
Proof.
  revert s. induction fuel as [|fuel IH]; intros s; cbn [wait_under_cap].
  - reflexivity.
  - mred. unfold pool_create_under_cap.
    destruct (_ <? _); mred.
    + cbv [create_session_with_pool]. cbn. auto.
    + destruct (stop_is_set E (tick s)); mred.
      * cbv [pool_create_on_stop create_session_with_pool]. cbn. auto.
      * match goal with |- context [wait_under_cap E cfg fuel ?s1] =>
          specialize (IH s1); destruct (wait_under_cap E cfg fuel s1) as [[x| e |] s2] end;
          cbn [pool] in IH; exact IH.
Qed.

Lemma get_session_from_pool_wf (fuel : nat) (s : sys) :
  pool_wf (pool s) ->
  match get_session_from_pool E cfg fuel s with
  | (Ok x, s1) =>
      pool_wf (pool s1) /\ (x ∉ session_pool (pool s1)) /\ (x < created (pool s1))%nat
  | (Raise _, _) => False
  | (Fuel, s1) => pool s1 = pool s
  end.
Proof.
  intros [Hnd Hlt]. unfold get_session_from_pool. mred. unfold pool_take.
  destruct (session_pool (pool s)) as [|x rest] eqn:Hp.
  - pose proof (wait_under_cap_creates fuel s) as Hw.
    destruct (wait_under_cap E cfg fuel s) as [[x| e |] s1]; mred; auto.
    destruct Hw as (Hsame & -> & Hc). rewrite Hp in Hsame. unfold pool_wf.
    rewrite Hsame, Hc. repeat split; [constructor | constructor | | lia].
    intros H. now apply elem_of_nil in H.
  - mred. unfold pool_wf. cbn [session_pool created].
    apply NoDup_cons in Hnd as [Hx Hnd]. apply Forall_cons in Hlt as [Hxl Hlt].
    auto.
Qed.

Lemma return_session_to_pool_wf (x : session) (s : sys) :
  pool_wf (pool s) -> x ∉ session_pool (pool s) -> (x < created (pool s))%nat ->
  pool_wf (pool (snd (return_session_to_pool cfg x s))).
Proof.
  intros [Hnd Hlt] Hx Hc. unfold return_session_to_pool. mred. unfold pool_return.
  destruct (_ <? _); mred; unfold pool_wf; cbn [session_pool created]; [|auto].
  split.
  - apply NoDup_app. split; [exact Hnd|]. split; [|apply NoDup_singleton].
    intros y Hy Hy'. apply list_elem_of_singleton in Hy'. now subst y.
  - apply Forall_app. split; [exact Hlt | repeat constructor; exact Hc].
Qed.

Lemma keeps_wf_register_single_attempt (fuel : nat) (p : profile) (d sid : Z)
    (c : pystr) :
  rel keeps_wf (register_single_attempt E cfg fuel p d sid c).
Proof.
  intros s Hwf. unfold register_single_attempt, bind.
  pose proof (get_session_from_pool_wf fuel s Hwf) as Hacq.
  destruct (get_session_from_pool E cfg fuel s) as [[x| e |] s1];
    [|contradiction | cbn [snd]; now rewrite Hacq].
  destruct Hacq as (Hwf1 & Hx & Hc). unfold try_finally.
  destruct (submit_request_spec E cfg x p d sid c s1) as (r1 & Hsub & Hfuel & _).
  rewrite Hsub.
  set (s2 := add_event _ (next_tick s1)).
  pose proof (return_session_to_pool_wf x s2 Hwf1 Hx Hc) as Hret.
  destruct (return_session_to_pool_shape cfg x s2) as (closing & Heq & _).
  rewrite Heq. destruct r1; cbn [snd is_Fuel] in *; try exact Hret. discriminate.
Qed.

Lemma keeps_wf_fetch_shared_captcha (fuel : nat) :
  rel keeps_wf (fetch_shared_captcha E cfg fuel).
Proof.
  intros s Hwf. unfold fetch_shared_captcha. unfold bind at 1.
  pose proof (get_session_from_pool_wf fuel s Hwf) as Hacq.
  destruct (get_session_from_pool E cfg fuel s) as [[x| e |] s1];
    [|contradiction | cbn [snd]; now rewrite Hacq].
  destruct Hacq as (Hwf1 & Hx & Hc). unfold bind at 1.
  destruct (calm_get_fresh_captcha E fuel x s1) as [Hp _].
  destruct (get_fresh_captcha E fuel (Some x) s1) as [[cr| e |] s2]; cbn [snd] in *;
    try (unfold pool_wf; rewrite Hp; exact Hwf1).
  unfold bind.
  assert (Hret : pool_wf (pool (snd (return_session_to_pool cfg x s2)))).
  { apply return_session_to_pool_wf; unfold pool_wf; rewrite Hp; auto. }
  destruct (return_session_to_pool_shape cfg x s2) as (closing & Heq & _).
  rewrite Heq. exact Hret.
Qed.

(** X10. The idle sessions stay pairwise distinct, and created by the pool,
    across a run of [run_registration_algorithm], however it ends: no
    session is put back into the deque twice. *)
Theorem pooled_sessions_stay_distinct (fuel : nat) (phien_data : list phien) (s : sys) :
  pool_wf (pool s) ->
  pool_wf (pool (snd (run_registration_algorithm E cfg fuel phien_data s))).
Proof.
  apply (lift_run_registration_algorithm E cfg keeps_wf false calm_keeps_wf
           keeps_wf_register_single_attempt
           (fun fuel s _ => keeps_wf_fetch_shared_captcha fuel s)).
  discriminate.
Qed.
End PoolFacts.

#[global] Instance balanced_refl : Reflexive balanced.
Proof. intros s. split; [reflexivity|]. exists []. now rewrite app_nil_r. Qed.

#[global] Instance balanced_trans : Transitive balanced.
Proof.
  intros s1 s2 s3 [Hp1 (t1 & Ht1 & H1)] [Hp2 (t2 & Ht2 & H2)]. split; [congruence|].
  exists (t1 ++ t2). rewrite Ht2, Ht1, app_assoc. split; [reflexivity|].
  unfold released, acquired in *. rewrite !omap_app. now apply Permutation_app.
Qed.

Lemma off_pool_untouched (t : list event) :
  Forall off_pool t -> acquired t = [] /\ released t = [].
Proof.
  induction 1 as [|e t He _ [IH1 IH2]]; [split; reflexivity|].
  unfold acquired, released in *. cbn [omap].
  destruct e; try destruct He; cbn; auto.
Qed.

Lemma calm_balanced (s s' : sys) : calm s s' -> balanced s s'.
Proof.
  intros [Hp (t & Ht & Hev)]. split; [now rewrite Hp|]. exists t. split; [exact Ht|].
  destruct (off_pool_untouched t Hev) as [-> ->]. reflexivity.
Qed.

Section Balance.
Variable E : env.
Variable cfg : config.

Lemma balanced_register_single_attempt (fuel : nat) (p : profile) (d sid : Z) (c : pystr) :
  rel balanced (register_single_attempt E cfg fuel p d sid c).
Proof.
  intros s. destruct (register_single_attempt_trace E cfg fuel p d sid c s)
    as (t & Ht & _ & Hrel & _ & Hin).
  split; [exact Hin|]. exists t. split; [exact Ht|]. now rewrite Hrel.
Qed.

(** What a credential fetch does with its session, by the outcome of
    [get_fresh_captcha]. *)
Lemma fetch_shared_captcha_session (fuel : nat) (s : sys) (x : session) (s1 : sys) :
  get_session_from_pool E cfg fuel s = (Ok x, s1) ->
  exists n t,
    trace (snd (get_fresh_captcha E fuel (Some x) s1))
      = trace s ++ replicate n (EvSleep 5) ++ [EvAcquire x] ++ t
    /\ Forall off_pool t
    /\ pool (snd (get_fresh_captcha E fuel (Some x) s1)) = pool s1
    /\ inflight_sessions (pool s1) = inflight_sessions (pool s) + 1.
Proof.
  intros Hacq. destruct (get_session_from_pool_shape E cfg fuel s) as (n & Hshape).
  rewrite Hacq in Hshape. destruct Hshape as [Ht1 Hin].
  destruct (calm_get_fresh_captcha E fuel x s1) as [Hp (t & Ht & Hev)].
  exists n, t. rewrite Ht, Ht1, <- !app_assoc. auto.
Qed.

Lemma balanced_fetch_shared_captcha (fuel : nat) :
  rel_if true balanced (fetch_shared_captcha E cfg fuel).
Proof.
  intros s Hok. specialize (Hok eq_refl).
  unfold fetch_shared_captcha in *. unfold bind at 1 in Hok. unfold bind at 1.
  destruct (get_session_from_pool E cfg fuel s) as [[x| e |] s1] eqn:Hacq;
    try discriminate.
  destruct (fetch_shared_captcha_session fuel s x s1 Hacq) as (n & t & Ht & Hev & Hp & Hin).
  unfold bind at 1 in Hok. unfold bind at 1.
  destruct (get_fresh_captcha E fuel (Some x) s1) as [[cr| e |] s2]; try discriminate.
  cbn [snd] in *. unfold bind.
  destruct (return_session_to_pool_shape cfg x s2) as (closing & Heq & Htr & Hcl & Hinf).
  rewrite Heq. change (balanced s (snd (return_session_to_pool cfg x s2))).
  split; [rewrite Hinf, Hp; lia|].
  exists (replicate n (EvSleep 5) ++ [EvAcquire x] ++ t ++ EvRelease x :: closing).
  split; [rewrite Htr, Ht, <- !app_assoc; reflexivity|].
  destruct (off_pool_untouched t Hev) as [Ha Hr].
  rewrite !released_app, !acquired_app, released_sleeps, acquired_sleeps, Ha, Hr.
  destruct Hcl as [-> | ->]; reflexivity.
Qed.

(** X11. A run of [register_all_profiles_parallel] that returns has
    released every session it acquired, as often as it acquired it (the
    releases are the acquisitions up to order), and leaves the in-flight
    counter at its value on entry. *)
Theorem returned_run_released_its_sessions (fuel : nat) (date_id session_id : Z) (s : sys) :
  let run := register_all_profiles_parallel E cfg fuel date_id session_id s in
  is_Ok (fst run) = true ->
  balanced s (snd run).
Proof.
  cbv zeta. intros Hok.
  apply (lift_register_all E cfg balanced true calm_balanced
           balanced_register_single_attempt balanced_fetch_shared_captcha).
  intros _. exact Hok.
Qed.

(** X12. When [get_fresh_captcha] raises during a credential fetch, which
    only an exception outside [Exception] can make it do, the fetch raises
    the same exception without giving the session back: the session was
    acquired and not released, and the in-flight counter stays one above
    its value on entry. *)
Theorem interrupted_fetch_keeps_its_session (fuel : nat) (s : sys) (x : session)
    (s1 : sys) (e : exn) (s2 : sys) :
  get_session_from_pool E cfg fuel s = (Ok x, s1) ->
  get_fresh_captcha E fuel (Some x) s1 = (Raise e, s2) ->
  fetch_shared_captcha E cfg fuel s = (Raise e, s2)
  /\ is_Exception e = false
  /\ inflight_sessions (pool s2) = inflight_sessions (pool s) + 1
  /\ exists t, trace s2 = trace s ++ t /\ acquired t = [x] /\ released t = [].
Proof.
  intros Hacq Hraise.
  destruct (fetch_shared_captcha_session fuel s x s1 Hacq) as (n & t & Ht & Hev & Hp & Hin).
  rewrite Hraise in Ht, Hp. cbn [snd] in Ht, Hp.
  split; [unfold fetch_shared_captcha, bind; now rewrite Hacq, Hraise|].
  split.
  { unfold get_fresh_captcha in Hraise. mred_in Hraise.
    assert (Hloop : forall f s0 e0 s3,
              captcha_loop E f x s0 = (Raise e0, s3) -> is_Exception e0 = false).
    { induction f as [|f IH]; intros s0 e0 s3; cbn [captcha_loop]; [discriminate|].
      unfold bind at 1.
      destruct (captcha_attempt E x s0) as [[[cr|]| e1 |] s4] eqn:Hatt;
        try discriminate.
      - apply IH.
      - intros [= <- <-]. unfold captcha_attempt in Hatt.
        unfold try_except in Hatt.
        match type of Hatt with context [match ?b with _ => _ end] =>
          destruct b as [[o| e2 |] s5] end; try discriminate.
        destruct e2; try discriminate. injection Hatt as <- _. reflexivity. }
    destruct (captcha_loop E fuel x s1) as [[cr| e1 |] s3] eqn:Hl; try discriminate.
    injection Hraise as <- <-. eapply Hloop; eauto. }
  split; [rewrite Hp; exact Hin|].
  exists (replicate n (EvSleep 5) ++ [EvAcquire x] ++ t). split; [exact Ht|].
  destruct (off_pool_untouched t Hev) as [Ha Hr].
  rewrite !released_app, !acquired_app, released_sleeps, acquired_sleeps, Ha, Hr.
  split; reflexivity.
Qed.
End Balance.

Lemma returned_run_released_its_sessions_witness :
  let run := register_all_profiles_parallel accepting_world
               (sample_cfg 8 ["p1"; "p2"; "p3"]) 5 67 101 (fresh_sys 8) in
  is_Ok (fst run) = true
  /\ balanced (fresh_sys 8) (snd run)
  /\ length (acquired (trace (snd run))) = 4%nat.
Proof.
  cbv zeta.
  assert (H : is_Ok (fst (register_all_profiles_parallel accepting_world
                            (sample_cfg 8 ["p1"; "p2"; "p3"]) 5 67 101 (fresh_sys 8)))
              = true) by (vm_compute; reflexivity).
  split; [exact H|]. split; [|vm_compute; reflexivity].
  exact (returned_run_released_its_sessions accepting_world
           (sample_cfg 8 ["p1"; "p2"; "p3"]) 5 67 101 (fresh_sys 8) H).
Defined.

Lemma interrupted_fetch_keeps_its_session_witness :
  let s := fresh_sys 1 in
  let s1 := snd (get_session_from_pool interrupted_world (sample_cfg 2 ["p1"]) 3 s) in
  let s2 := snd (get_fresh_captcha interrupted_world 3 (Some 0%nat) s1) in
  fst (fetch_shared_captcha interrupted_world (sample_cfg 2 ["p1"]) 3 s)
    = Raise (ExBase (py "KeyboardInterrupt"))
  /\ inflight_sessions (pool s2) = 1
  /\ session_pool (pool s2) = [].
Proof.
  cbv zeta.
  destruct (interrupted_fetch_keeps_its_session interrupted_world (sample_cfg 2 ["p1"]) 3
              (fresh_sys 1) 0%nat
              (snd (get_session_from_pool interrupted_world (sample_cfg 2 ["p1"]) 3
                      (fresh_sys 1)))
              (ExBase (py "KeyboardInterrupt"))
              (snd (get_fresh_captcha interrupted_world 3 (Some 0%nat)
                      (snd (get_session_from_pool interrupted_world (sample_cfg 2 ["p1"]) 3
                              (fresh_sys 1))))))
    as (Hf & _ & Hin & _).
  - vm_compute. reflexivity.
  - vm_compute. reflexivity.
  - split; [now rewrite Hf|]. split; [vm_compute; reflexivity | vm_compute; reflexivity].
Defined.

(* ===================================================================== *)
(** ** Outcomes of a fan-out round *)

Lemma classify_error_not_no_result (lower : pystr -> pystr) (body : pystr) (code : Z) :
  fst (classify_error lower body code) <> NO_RESULT.
Proof.
  unfold classify_error.
  repeat (match goal with |- context [if ?b then _ else _] => destruct b end;
          try (cbn [fst]; discriminate)).
Qed.

Section Outcomes.
Variable E : env.
Variable cfg : config.

Lemma response_tag_not_no_result (resp : response) : response_tag E resp <> NO_RESULT.
Proof.
  unfold response_tag, status_tag.
  destruct (status_code resp =? 200); [apply classify_error_not_no_result|].
  repeat destruct (_ =? _); discriminate.
Qed.

Lemma register_single_attempt_sound (fuel : nat) (p : profile) (d sid : Z) (c : pystr)
    (s : sys) (o : outcome) (s' : sys) :
  register_single_attempt E cfg fuel p d sid c s = (Ok o, s') -> sound_outcome o.
Proof.
  unfold register_single_attempt, bind.
  destruct (get_session_from_pool E cfg fuel s) as [[x| e |] s1]; try discriminate.
  unfold try_finally.
  destruct (submit_request_spec E cfg x p d sid c s1) as (r1 & Hsub & _ & Hres).
  rewrite Hsub.
  match goal with |- context [return_session_to_pool cfg x ?s2] =>
    destruct (return_session_to_pool_shape cfg x s2) as (closing & Heq & _) end.
  rewrite Heq. destruct r1 as [o1| e |]; cbv beta iota; try discriminate.
  intros [= <- _]. unfold sound_outcome.
  destruct (http E (tick s1) x (Register (make_payload cfg p d sid c))) as [resp|e].
  - destruct Hres as (detail & Hd). injection Hd as ->. cbn [fst snd].
    rewrite bool_decide_eq_true. split; [tauto | apply response_tag_not_no_result].
  - destruct e; try discriminate Hres; injection Hres as ->; cbn [fst snd];
      (split; [split; discriminate | discriminate]).
Qed.

Lemma collect_task_keys (fuel : nat) (d sid : Z) (c : pystr)
    (results : gmap pystr outcome) (p : profile) (s : sys)
    (results' : gmap pystr outcome) (s' : sys) :
  collect_task E cfg fuel d sid c results p s = (Ok results', s') ->
  exists o, results' = <[profile_name p := o]> results /\ sound_outcome o.
Proof.
  unfold collect_task, try_except, bind.
  destruct (register_single_attempt E cfg fuel p d sid c s) as [[o| e |] s1] eqn:Hrun.
  - intros [= <- _]. exists o. split; [reflexivity|].
    eapply register_single_attempt_sound; eauto.
  - destruct (is_Exception e); [|discriminate]. intros [= <- _].
    eexists. split; [reflexivity|]. unfold sound_outcome. cbn [fst snd].
    split; [split; discriminate | discriminate].
  - discriminate.
Qed.

Lemma extends_by_nil (results : gmap pystr outcome) : extends_by [] results results.
Proof.
  split.
  - intros name. cbn [map]. rewrite elem_of_nil. tauto.
  - auto.
Qed.

Lemma extends_by_cons (p : profile) (chunk : list profile) (o : outcome)
    (results results' : gmap pystr outcome) :
  sound_outcome o ->
  extends_by chunk (<[profile_name p := o]> results) results' ->
  extends_by (p :: chunk) results results'.
Proof.
  unfold outcome in *. intros Ho [Hk Hv]. split.
  - intros name. rewrite Hk. cbn [map]. rewrite elem_of_cons.
    destruct (decide (name = profile_name p)) as [->|Hne].
    + rewrite lookup_insert_eq. intuition eauto.
    + rewrite lookup_insert_ne by congruence. tauto.
  - intros name o' Hl. destruct (Hv name o' Hl) as [H|H]; [auto|].
    destruct (decide (name = profile_name p)) as [->|Hne].
    + rewrite lookup_insert_eq in H. injection H as <-. auto.
    + rewrite lookup_insert_ne in H by congruence. auto.
Qed.

Lemma extends_by_app (c1 c2 : list profile) (r1 r2 r3 : gmap pystr outcome) :
  extends_by c1 r1 r2 -> extends_by c2 r2 r3 -> extends_by (c1 ++ c2) r1 r3.
Proof.
  unfold outcome in *. intros [Hk1 Hv1] [Hk2 Hv2]. split.
  - intros name. rewrite Hk2, Hk1, map_app, elem_of_app. tauto.
  - intros name o Hl. destruct (Hv2 name o Hl) as [H|H]; [auto|]. apply Hv1, H.
Qed.

Lemma for_each_collect_keys (fuel : nat) (d sid : Z) (c : pystr) (chunk : list profile) :
  forall (results : gmap pystr outcome) (s : sys) (results' : gmap pystr outcome) (s' : sys),
    for_each (collect_task E cfg fuel d sid c) chunk results s = (Ok results', s') ->
    extends_by chunk results results'.
Proof.
  induction chunk as [|p chunk IH]; intros results s results' s'; cbn [for_each].
  - intros [= <- _]. apply extends_by_nil.
  - unfold bind at 1.
    destruct (collect_task E cfg fuel d sid c results p s) as [[r1| e |] s1] eqn:H1;
      try discriminate.
    apply collect_task_keys in H1 as (o & -> & Ho).
    intros Hrest. eapply extends_by_cons; eauto.
Qed.

Lemma expired_keys (chunk : list profile) (results : gmap pystr outcome) :
  extends_by chunk results
    (fold_left (fun r p => <[profile_name p := expired_outcome]> r) chunk results).
Proof.
  revert results. induction chunk as [|p chunk IH]; intros results; cbn [fold_left].
  - apply extends_by_nil.
  - eapply extends_by_cons; [|apply IH].
    unfold sound_outcome, expired_outcome. cbn [fst snd].
    split; [split; discriminate | discriminate].
Qed.

Lemma run_chunk_keys (fuel : nat) (d sid : Z) (c : pystr) (ts : Z) (n_chunks : nat)
    (results : gmap pystr outcome) (idx : nat) (chunk : list profile) (s : sys)
    (results' : gmap pystr outcome) (s' : sys) :
  run_chunk E cfg fuel d sid c ts n_chunks results (idx, chunk) s = (Ok results', s') ->
  extends_by chunk results results'.
Proof.
  unfold run_chunk, is_captcha_valid. mred.
  destruct (clock E (tick s) - ts <? 55 * 1000); cbn [negb].
  - match goal with |- context [for_each (submit_task _ _ _) chunk tt ?s0] =>
      destruct (for_each_submit_trace d sid c chunk s0) as (s1 & Hsub & _) end.
    rewrite Hsub.
    destruct (for_each (collect_task E cfg fuel d sid c) chunk results s1)
      as [[r1| e |] s2] eqn:Hcol; try discriminate.
    apply for_each_collect_keys in Hcol.
    destruct (idx <? n_chunks)%nat; intros [= <- _]; exact Hcol.
  - rewrite for_each_pure. intros [= <- _]. apply expired_keys.
Qed.

Lemma for_each_run_chunk_keys (fuel : nat) (d sid : Z) (c : pystr) (ts : Z)
    (n_chunks : nat) (chunks : list (list profile)) :
  forall (k : nat) (results : gmap pystr outcome) (s : sys)
         (results' : gmap pystr outcome) (s' : sys),
    for_each (run_chunk E cfg fuel d sid c ts n_chunks) (enumerate_from k chunks) results s
      = (Ok results', s') ->
    extends_by (concat chunks) results results'.
Proof.
  induction chunks as [|chunk chunks IH]; intros k results s results' s';
    cbn [enumerate_from for_each concat].
  - intros [= <- _]. apply extends_by_nil.
  - unfold bind at 1.
    destruct (run_chunk E cfg fuel d sid c ts n_chunks results (k, chunk) s)
      as [[r1| e |] s1] eqn:H1; try discriminate.
    apply run_chunk_keys in H1. intros Hrest. apply IH in Hrest.
    eapply extends_by_app; eauto.
Qed.

(** X13. For a positive worker count, the results of a fan-out round that
    returns have a key for exactly the profile names of the batch; the
    success flag of every stored outcome is set exactly when its tag is
    [SUCCESS], and no profile of the batch is left to the [NO_RESULT]
    default. *)
Theorem every_profile_gets_an_outcome (fuel : nat) (batch : list profile) (d sid : Z)
    (c : pystr) (ts : Z) (s : sys) (results : gmap pystr outcome) (s' : sys) :
  0 < max_workers cfg ->
  register_batch_with_shared_captcha E cfg fuel batch d sid c ts s = (Ok results, s') ->
  (forall name, is_Some (results !! name) <-> name ∈ map profile_name batch)
  /\ (forall name o, results !! name = Some o -> sound_outcome o)
  /\ (forall p, p ∈ batch -> snd (fst (result_of results (profile_name p))) <> NO_RESULT).
Proof.
  intros Hw Hrun.
  destruct (make_chunks_spec batch (max_workers cfg) Hw) as (chunks & Hmk & Hcat & _).
  unfold register_batch_with_shared_captcha in Hrun. rewrite Hmk in Hrun. mred_in Hrun.
  apply for_each_run_chunk_keys in Hrun. rewrite Hcat in Hrun.
  destruct Hrun as [Hk Hv]. unfold outcome in *.
  assert (Hkeys : forall name, is_Some (results !! name) <-> name ∈ map profile_name batch).
  { intros name. rewrite Hk, lookup_empty. split; [intros [H|[? H]]; [auto|discriminate] | auto]. }
  assert (Hsound : forall name o, results !! name = Some o -> sound_outcome o).
  { intros name o Hl. destruct (Hv name o Hl) as [H|H]; [exact H|].
    rewrite lookup_empty in H. discriminate. }
  split; [exact Hkeys|]. split; [exact Hsound|].
  intros p Hp. unfold result_of, outcome.
  destruct (proj2 (Hkeys (profile_name p))) as [o Ho]; [now apply list_elem_of_fmap_2|].
  rewrite Ho. cbn [default]. apply (Hsound _ _ Ho).
Qed.
End Outcomes.

Lemma every_profile_gets_an_outcome_witness :
  let cfg := sample_cfg 2 ["p1"; "p2"; "p3"] in
  let run := register_batch_with_shared_captcha overloaded_world cfg 1 (profiles cfg)
               67 101 (py "abcde") 0 (fresh_sys 3) in
  0 < max_workers cfg
  /\ is_Ok (fst run) = true
  /\ forall p, p ∈ profiles cfg ->
       snd (fst (result_of (value_of ∅ (fst run)) (profile_name p))) <> NO_RESULT.
Proof.
  cbv zeta. split; [vm_compute; reflexivity|]. split; [vm_compute; reflexivity|].
  refine (proj2 (proj2 (every_profile_gets_an_outcome overloaded_world
            (sample_cfg 2 ["p1"; "p2"; "p3"]) 1
            (profiles (sample_cfg 2 ["p1"; "p2"; "p3"])) 67 101 (py "abcde") 0 (fresh_sys 3)
            (value_of ∅ (fst (register_batch_with_shared_captcha overloaded_world
               (sample_cfg 2 ["p1"; "p2"; "p3"]) 1
               (profiles (sample_cfg 2 ["p1"; "p2"; "p3"])) 67 101 (py "abcde") 0
               (fresh_sys 3))))
            (snd (register_batch_with_shared_captcha overloaded_world
               (sample_cfg 2 ["p1"; "p2"; "p3"]) 1
               (profiles (sample_cfg 2 ["p1"; "p2"; "p3"])) 67 101 (py "abcde") 0
               (fresh_sys 3))) _ _))).
  - vm_compute. reflexivity.
  - vm_compute. reflexivity.
Defined.

Section OneCredential.
Variable E : env.
Variable cfg : config.

Lemma round_register_single_attempt (fuel : nat) (p : profile) (d sid : Z) (c : pystr) :
  rel (grows (round_event cfg d sid c)) (register_single_attempt E cfg fuel p d sid c).
Proof.
  intros s. split.
  { apply (io_register_single_attempt E cfg fuel p d sid c s). }
  unfold register_single_attempt, bind.
  destruct (get_session_from_pool_shape E cfg fuel s) as (n & Hacq).
  assert (Hsl : Forall (round_event cfg d sid c) (replicate n (EvSleep 5))).
  { apply Forall_forall. intros e He. apply elem_of_replicate in He as [-> _]. exact I. }
  destruct (get_session_from_pool E cfg fuel s) as [[x| e |] s1];
    [destruct Hacq as [Ht _] | contradiction | destruct Hacq as [Ht _]].
  2:{ cbn [snd]. eauto. }
  unfold try_finally.
  destruct (submit_request_spec E cfg x p d sid c s1) as (r1 & Hsub & Hfuel & _).
  rewrite Hsub.
  match goal with |- context [return_session_to_pool cfg x ?s2] =>
    destruct (return_session_to_pool_shape cfg x s2) as (closing & Heq & Htr & Hcl & _) end.
  rewrite Heq.
  exists (replicate n (EvSleep 5) ++ [EvAcquire x]
          ++ [EvGet x (Register (make_payload cfg p d sid c))]
          ++ EvRelease x :: closing).
  split.
  - destruct r1; cbn [snd is_Fuel] in *; try discriminate;
      rewrite Htr; cbn [trace add_event next_tick]; rewrite Ht, <- !app_assoc; reflexivity.
  - apply Forall_app. split; [exact Hsl|].
    constructor; [exact I|]. constructor; [cbn; auto|]. constructor; [exact I|].
    destruct Hcl as [-> | ->]; repeat constructor.
Qed.

Lemma round_run_chunk (fuel : nat) (d sid : Z) (c : pystr) (ts : Z) (n_chunks : nat)
    (results : gmap pystr outcome) (indexed : nat * list profile) :
  rel (grows (round_event cfg d sid c))
      (run_chunk E cfg fuel d sid c ts n_chunks results indexed).
Proof.
  unfold run_chunk. destruct indexed as [chunk_idx chunk].
  apply rel_bind; [unfold is_captcha_valid; apply rel_bind;
                   [apply io_time_time | intros; apply rel_ret]|].
  intros valid. destruct (negb valid).
  - apply rel_bind; [apply io_time_time|]. intros _.
    apply rel_for_each. intros; apply rel_ret.
  - apply rel_bind.
    { apply rel_for_each. intros [] p Hp. unfold submit_task. apply rel_emit.
      cbn. auto. }
    intros _. apply rel_bind.
    { apply rel_for_each. intros acc p Hp. unfold collect_task.
      apply rel_try_except.
      - apply rel_bind; [apply round_register_single_attempt | intros; apply rel_ret].
      - intros e h Hh. destruct (is_Exception e); inversion Hh; subst. apply rel_ret. }
    intros results'. apply rel_bind; [|intros; apply rel_ret].
    destruct (_ <? _)%nat; [|apply rel_ret]. now apply rel_emit.
Qed.

(** X14. Everything a fan-out round dispatches carries the credential text
    and the pair it was called with: each submission is for that pair with
    that text, and every request made during the round is a registration
    request whose payload holds the configured action, the two ids and
    that text. The store is untouched. *)
Theorem round_uses_one_credential (fuel : nat) (batch : list profile) (d sid : Z)
    (c : pystr) (ts : Z) (s : sys) :
  let run := register_batch_with_shared_captcha E cfg fuel batch d sid c ts s in
  store (snd run) = store s
  /\ exists t, trace (snd run) = trace s ++ t /\ Forall (round_event cfg d sid c) t.
Proof.
  cbv zeta.
  enough (H : rel (grows (round_event cfg d sid c))
                  (register_batch_with_shared_captcha E cfg fuel batch d sid c ts))
    by apply H.
  unfold register_batch_with_shared_captcha.
  apply rel_bind; [now apply rel_emit|]. intros _.
  apply rel_bind.
  - destruct (make_chunks (max_workers cfg) batch); [apply rel_ret | apply rel_raise].
  - intros chunks. apply rel_for_each. intros acc indexed _. apply round_run_chunk.
Qed.
End OneCredential.

(* ===================================================================== *)
(** ** The result loop as a function of the results *)

Section ResultSpec.
Variable E : env.

Lemma handle_result_spec (date_id session_id : Z) (batch_results : gmap pystr outcome)
    (v : round_vars) (p : profile) (s : sys) :
  exists s',
    handle_result E date_id session_id batch_results v p s
    = (Ok (sort_result batch_results v p), s')
    /\ store s' = settle date_id session_id batch_results (store s) p.
Proof.
  unfold handle_result, sort_result, settle. cbv zeta.
  destruct (result_of batch_results (profile_name p))
    as [[success error_type] full_response].
  unfold waits, is_final, is_captcha_error. cbn [fst snd].
  destruct success; [|destruct error_type]; book_red; cbn [orb andb negb];
    rewrite ?app_nil_r; eexists; split; reflexivity.
Qed.

Lemma result_loop_spec (date_id session_id : Z) (batch_results : gmap pystr outcome)
    (pending : list profile) :
  forall (v : round_vars) (s : sys),
  exists s',
    for_each (handle_result E date_id session_id batch_results) pending v s
    = (Ok (fold_left (sort_result batch_results) pending v), s')
    /\ store s' = fold_left (settle date_id session_id batch_results) pending (store s).
Proof.
  induction pending as [|p pending IH]; intros v s; cbn [for_each fold_left].
  - exists s. auto.
  - destruct (handle_result_spec date_id session_id batch_results v p s) as (s1 & H1 & Hst).
    unfold bind. rewrite H1.
    destruct (IH (sort_result batch_results v p) s1) as (s2 & H2 & Hst2).
    exists s2. rewrite Hst2, Hst. auto.
Qed.
End ResultSpec.

Lemma sort_result_lists (batch_results : gmap pystr outcome) (pending : list profile) :
  forall v : round_vars,
    next_pending (fold_left (sort_result batch_results) pending v)
    = next_pending v
      ++ List.filter (fun p => waits (result_of batch_results (profile_name p))) pending
    /\ captcha_error_profiles (fold_left (sort_result batch_results) pending v)
       = captcha_error_profiles v
         ++ List.filter (fun p => is_captcha_error (result_of batch_results (profile_name p)))
              pending.
Proof.
  induction pending as [|p pending IH]; intros v; cbn [fold_left List.filter].
  - now rewrite !app_nil_r.
  - destruct (IH (sort_result batch_results v p)) as [-> ->].
    unfold sort_result. cbn [next_pending captcha_error_profiles].
    split; [destruct (waits _) | destruct (is_captcha_error _)];
      rewrite <- ?app_assoc, ?app_nil_r; reflexivity.
Qed.

Lemma sort_result_final (batch_results : gmap pystr outcome) (pending : list profile)
    (n : pystr) :
  forall v : round_vars,
    final_results (fold_left (sort_result batch_results) pending v) !! n
    = if bool_decide (n ∈ map profile_name pending) && is_final (result_of batch_results n)
      then Some (fst (fst (result_of batch_results n)))
      else final_results v !! n.
Proof.
  induction pending as [|p pending IH]; intros v; cbn [fold_left map].
  - rewrite bool_decide_eq_false_2; [reflexivity | apply not_elem_of_nil].
  - rewrite IH. unfold sort_result at 1. cbn [final_results].
    destruct (decide (n = profile_name p)) as [->|Hne].
    + rewrite (bool_decide_eq_true_2 (profile_name p ∈ profile_name p :: _)) by left.
      destruct (is_final (result_of batch_results (profile_name p)));
        rewrite ?andb_true_r, ?andb_false_r; cbn [andb]; [|reflexivity].
      rewrite lookup_insert_eq. now destruct (bool_decide _).
    + assert (Hsame : (if is_final (result_of batch_results (profile_name p))
                       then <[profile_name p := fst (fst (result_of batch_results
                                                            (profile_name p)))]>
                              (final_results v)
                       else final_results v) !! n = final_results v !! n).
      { destruct (is_final (result_of batch_results (profile_name p))); [|reflexivity].
        apply lookup_insert_ne. congruence. }
      rewrite Hsame.
      destruct (bool_decide (n ∈ map profile_name pending)) eqn:Hin.
      * apply bool_decide_eq_true in Hin.
        rewrite (bool_decide_eq_true_2 (n ∈ profile_name p :: map profile_name pending))
          by now right.
        reflexivity.
      * apply bool_decide_eq_false in Hin.
        rewrite (bool_decide_eq_false_2 (n ∈ profile_name p :: map profile_name pending))
          by (intros [?|?]%elem_of_cons; contradiction).
        reflexivity.
Qed.

Section Partition.
Variable E : env.
Variable cfg : config.

Lemma retry_round_outcome (fuel : nat) (date_id session_id : Z)
    (pending : list profile) (final : gmap pystr bool) (captcha_text : pystr)
    (captcha_timestamp : Z) (s : sys) (credential : pystr * Z)
    (batch_results : gmap pystr outcome) (s1 : sys)
    (credential' : pystr * Z) (pending' : list profile) (final' : gmap pystr bool)
    (s' : sys) :
  dispatch_round E cfg fuel date_id session_id pending captcha_text captcha_timestamp s
    = (Ok (credential, batch_results), s1) ->
  retry_round E cfg fuel date_id session_id pending final captcha_text captcha_timestamp s
    = (Ok (credential', pending', final'), s') ->
  let outcome_of (p : profile) := result_of batch_results (profile_name p) in
  pending' = List.filter (fun p => waits (outcome_of p)) pending
             ++ List.filter (fun p => is_captcha_error (outcome_of p)) pending
  /\ (forall n,
        final' !! n
        = if bool_decide (n ∈ map profile_name pending) && is_final (result_of batch_results n)
          then Some (fst (fst (result_of batch_results n)))
          else final !! n)
  /\ (List.filter (fun p => is_captcha_error (outcome_of p)) pending = [] ->
      credential' = credential).
Proof.
  intros Hdisp Hrun. cbv zeta. unfold retry_round in Hrun.
  unfold bind at 1 in Hrun. rewrite Hdisp in Hrun. cbn [fst snd] in Hrun.
  unfold bind at 1 in Hrun.
  destruct (result_loop_spec E date_id session_id batch_results pending
              {| final_results := final; captcha_error_profiles := [];
                 next_pending := [] |} s1) as (s2 & Hloop & _).
  rewrite Hloop in Hrun.
  destruct (sort_result_lists batch_results pending
              {| final_results := final; captcha_error_profiles := [];
                 next_pending := [] |}) as [Hnp Hce].
  pose proof (fun n => sort_result_final batch_results pending n
              {| final_results := final; captcha_error_profiles := [];
                 next_pending := [] |}) as Hfin.
  cbn [next_pending captcha_error_profiles final_results app] in Hnp, Hce, Hfin.
  unfold refresh_after_errors in Hrun. rewrite Hce, Hnp in Hrun.
  destruct (List.filter (fun p => is_captcha_error _) pending) as [|x l] eqn:Hl.
  - cbv [ret] in Hrun. injection Hrun as <- <- <- _. rewrite app_nil_r. auto.
  - unfold bind in Hrun.
    destruct (fetch_shared_captcha E cfg fuel s2) as [[c| e |] s3]; try discriminate.
    cbv [ret] in Hrun. injection Hrun as _ <- <- _.
    split; [reflexivity|]. split; [exact Hfin | discriminate].
Qed.

(** X15. A round of the orchestrator that returns hands on, in their order
    in the pending list, first the profiles whose outcome is neither final
    nor a captcha error, then those with a captcha error; the final
    results get the success flag of exactly the pending names whose
    outcome is final (success, exhausted slot, earlier registration);
    without a captcha error the credential is the one the round
    dispatched with. *)
Theorem retry_round_sorts_pending (fuel : nat) (date_id session_id : Z)
    (pending : list profile) (final : gmap pystr bool) (captcha_text : pystr)
    (captcha_timestamp : Z) (s : sys) (credential : pystr * Z)
    (batch_results : gmap pystr outcome) (s1 : sys)
    (credential' : pystr * Z) (pending' : list profile) (final' : gmap pystr bool)
    (s' : sys) :
  dispatch_round E cfg fuel date_id session_id pending captcha_text captcha_timestamp s
    = (Ok (credential, batch_results), s1) ->
  retry_round E cfg fuel date_id session_id pending final captcha_text captcha_timestamp s
    = (Ok (credential', pending', final'), s') ->
  let outcome_of (p : profile) := result_of batch_results (profile_name p) in
  pending' = List.filter (fun p => waits (outcome_of p)) pending
             ++ List.filter (fun p => is_captcha_error (outcome_of p)) pending
  /\ (forall n,
        final' !! n
        = if bool_decide (n ∈ map profile_name pending) && is_final (result_of batch_results n)
          then Some (fst (fst (result_of batch_results n)))
          else final !! n)
  /\ (List.filter (fun p => is_captcha_error (outcome_of p)) pending = [] ->
      credential' = credential).
Proof. apply retry_round_outcome. Qed.
End Partition.

Lemma settle_keeps (d sid : Z) (batch_results : gmap pystr outcome) (st : tracking)
    (p : profile) (n : pystr) :
  (is_profile_successful n d sid st = true ->
   is_profile_successful n d sid (settle d sid batch_results st p) = true)
  /\ (is_profile_already_registered_for_date n d st = true ->
      is_profile_already_registered_for_date n d (settle d sid batch_results st p) = true)
  /\ (is_slot_full d sid st = true ->
      is_slot_full d sid (settle d sid batch_results st p) = true).
Proof.
  unfold settle. cbv zeta.
  destruct (result_of batch_results (profile_name p)) as [[success error_type] resp].
  cbn [fst snd].
  pose proof (apply_event_keeps st (EvMarkSuccessful (profile_name p) d sid) n d sid) as K1.
  pose proof (fun st0 => apply_event_keeps st0 (EvMarkRegistered (profile_name p) d) n d sid)
    as K2.
  pose proof (apply_event_keeps st (EvMarkSlotFull d sid) n d sid) as K3.
  cbn [apply_event] in K1, K2, K3.
  destruct success.
  - specialize (K2 (mark_profile_successful (profile_name p) d sid st)). tauto.
  - specialize (K2 st). destruct error_type; tauto.
Qed.

Lemma recorded_settle (d sid : Z) (batch_results : gmap pystr outcome) (st : tracking)
    (p : profile) (n : pystr) (b : bool) :
  recorded d sid st n b -> recorded d sid (settle d sid batch_results st p) n b.
Proof.
  destruct (settle_keeps d sid batch_results st p n) as (K1 & K2 & K3).
  unfold recorded. destruct b; tauto.
Qed.

Lemma recorded_sort_result (d sid : Z) (batch_results : gmap pystr outcome)
    (st : tracking) (v : round_vars) (p : profile) :
  (forall n b, final_results v !! n = Some b -> recorded d sid st n b) ->
  forall n b, final_results (sort_result batch_results v p) !! n = Some b ->
    recorded d sid (settle d sid batch_results st p) n b.
Proof.
  intros Hold n b. unfold sort_result. cbn [final_results].
  destruct (is_final (result_of batch_results (profile_name p))) eqn:Hfin;
    [|intros H; apply recorded_settle, Hold, H].
  destruct (decide (n = profile_name p)) as [->|Hne].
  2:{ rewrite lookup_insert_ne by congruence. intros H. apply recorded_settle, Hold, H. }
  rewrite lookup_insert_eq. intros [= <-]. unfold settle, recorded. cbv zeta.
  unfold is_final in Hfin.
  destruct (result_of batch_results (profile_name p)) as [[success error_type] resp].
  cbn [fst snd] in *. destruct success.
  - split.
    + apply (apply_event_keeps _ (EvMarkRegistered (profile_name p) d)).
      apply successful_mark_successful. auto.
    + apply registered_mark_registered. auto.
  - cbn [orb] in Hfin. apply orb_true_iff in Hfin as [Hf|Hf];
      apply bool_decide_eq_true in Hf; subst error_type.
    + left. apply slot_full_mark_slot_full. auto.
    + right. apply registered_mark_registered. auto.
Qed.

Lemma recorded_result_loop (d sid : Z) (batch_results : gmap pystr outcome)
    (pending : list profile) :
  forall (st : tracking) (v : round_vars),
    (forall n b, final_results v !! n = Some b -> recorded d sid st n b) ->
    forall n b,
      final_results (fold_left (sort_result batch_results) pending v) !! n = Some b ->
      recorded d sid (fold_left (settle d sid batch_results) pending st) n b.
Proof.
  induction pending as [|p pending IH]; intros st v Hold; cbn [fold_left]; [exact Hold|].
  apply IH. now apply recorded_sort_result.
Qed.

Section Recorded.
Variable E : env.
Variable cfg : config.

Lemma retry_round_recorded (fuel : nat) (d sid : Z) (pending : list profile)
    (final : gmap pystr bool) (c : pystr) (ts : Z) (s : sys)
    (credential' : pystr * Z) (pending' : list profile) (final' : gmap pystr bool)
    (s' : sys) :
  retry_round E cfg fuel d sid pending final c ts s
    = (Ok (credential', pending', final'), s') ->
  (forall n b, final !! n = Some b -> recorded d sid (store s) n b) ->
  (forall n b, final' !! n = Some b -> recorded d sid (store s') n b)
  /\ (forall n, is_Some (final' !! n) ->
        is_Some (final !! n) \/ n ∈ map profile_name pending)
  /\ pending' ⊆ pending.
Proof.
  intros Hrun Hold.
  destruct (dispatch_round E cfg fuel d sid pending c ts s)
    as [[[credential batch_results]| e |] s1] eqn:Hdisp;
    try (unfold retry_round, bind in Hrun; rewrite Hdisp in Hrun; discriminate).
  destruct (retry_round_outcome E cfg fuel d sid pending final c ts s credential
              batch_results s1 credential' pending' final' s' Hdisp Hrun)
    as (Hp & Hf & _).
  destruct (batch_dispatch_round E cfg fuel d sid pending c ts s) as [Hst1 _].
  rewrite Hdisp in Hst1. cbn [snd] in Hst1.
  unfold retry_round in Hrun. unfold bind at 1 in Hrun. rewrite Hdisp in Hrun.
  cbn [fst snd] in Hrun. unfold bind at 1 in Hrun.
  destruct (result_loop_spec E d sid batch_results pending
              {| final_results := final; captcha_error_profiles := [];
                 next_pending := [] |} s1) as (s2 & Hloop & Hst2).
  rewrite Hloop in Hrun.
  destruct (quiet_refresh_after_errors E cfg fuel credential
              (fold_left (sort_result batch_results) pending
                 {| final_results := final; captcha_error_profiles := [];
                    next_pending := [] |}) s2) as [Hst3 _].
  rewrite Hrun in Hst3. cbn [snd] in Hst3.
  assert (Hfinal : final' = final_results (fold_left (sort_result batch_results) pending
                     {| final_results := final; captcha_error_profiles := [];
                        next_pending := [] |})).
  { unfold refresh_after_errors in Hrun.
    destruct (captcha_error_profiles _).
    - cbv [ret] in Hrun. now injection Hrun as _ _ <- _.
    - unfold bind in Hrun.
      destruct (fetch_shared_captcha E cfg fuel s2) as [[c0| e |] s3]; try discriminate.
      cbv [ret] in Hrun. now injection Hrun as _ _ <- _. }
  split; [|split].
  - intros n b Hl. rewrite Hst3, Hst2, Hst1. rewrite Hfinal in Hl.
    eapply recorded_result_loop; [|exact Hl]. exact Hold.
  - intros n [b Hl]. rewrite Hf in Hl.
    destruct (bool_decide (n ∈ map profile_name pending)) eqn:Hin.
    + right. now apply bool_decide_eq_true in Hin.
    + left. cbn [andb] in Hl. eauto.
  - rewrite Hp. intros q Hq. apply elem_of_app in Hq as [Hq|Hq];
      apply list_elem_of_In, filter_In in Hq as [Hq _]; now apply list_elem_of_In.
Qed.

Lemma retry_loop_recorded (fuel rounds : nat) (d sid : Z) (eligible : list profile) :
  forall (pending : list profile) (final : gmap pystr bool) (c : pystr) (ts : Z) (s : sys)
         (results : gmap pystr bool) (s' : sys),
    retry_loop E cfg fuel rounds d sid pending final c ts s = (Ok results, s') ->
    pending ⊆ eligible ->
    (forall n b, final !! n = Some b ->
       recorded d sid (store s) n b /\ n ∈ map profile_name eligible) ->
    forall n b, results !! n = Some b ->
      recorded d sid (store s') n b /\ n ∈ map profile_name eligible.
Proof.
  induction rounds as [|rounds IH]; intros pending final c ts s results s';
    destruct pending as [|p0 pending0]; cbn [retry_loop];
    try (intros [= <- <-] _ Hold; exact Hold); try discriminate.
  set (pending := p0 :: pending0) in *.
  unfold bind at 1.
  destruct (retry_round E cfg fuel d sid pending final c ts s)
    as [[[[credential pending'] final']| e |] s1] eqn:Hround; try discriminate.
  intros Hrun Hsub Hold.
  destruct (retry_round_recorded fuel d sid pending final c ts s credential pending'
              final' s1 Hround (fun n b H => proj1 (Hold n b H))) as (Hrec & Hkeys & Hsub').
  assert (Hnew : forall n b, final' !! n = Some b ->
            recorded d sid (store s1) n b /\ n ∈ map profile_name eligible).
  { intros n b Hl. split; [now apply Hrec|].
    destruct (Hkeys n (ex_intro _ b Hl)) as [[b0 H0]|Hin].
    - apply (Hold n b0 H0).
    - apply list_elem_of_fmap in Hin as (q & -> & Hq). apply list_elem_of_fmap_2. auto. }
  unfold bind, gets, ret in Hrun.
  destruct (is_slot_full d sid (store s1)).
  - injection Hrun as <- <-. exact Hnew.
  - eapply IH; [exact Hrun | | exact Hnew]. etransitivity; eauto.
Qed.

(** X16. Every entry of the map [register_all_profiles_parallel] returns
    is backed by the tracking store at return: a name mapped to [True] is
    marked successful for the pair and registered for the date, a name
    mapped to [False] has the pair marked exhausted or itself marked
    registered for the date; and every key is the name of a configured
    profile that was eligible on entry. *)
Theorem reported_results_are_recorded (fuel : nat) (d sid : Z) (s : sys)
    (results : gmap pystr bool) (s' : sys) :
  register_all_profiles_parallel E cfg fuel d sid s = (Ok results, s') ->
  forall n b, results !! n = Some b ->
    recorded d sid (store s') n b
    /\ exists p, p ∈ profiles cfg /\ profile_name p = n
                 /\ fst (can_profile_register n d sid (store s)) = true.
Proof.
  intros Hrun n b Hl. unfold register_all_profiles_parallel in Hrun.
  unfold bind at 1 in Hrun. unfold gets at 1 in Hrun.
  destruct (is_slot_full d sid (store s)).
  { cbv [ret] in Hrun. injection Hrun as <- <-. rewrite lookup_empty in Hl. discriminate. }
  unfold bind at 1 in Hrun. unfold gets at 1 in Hrun.
  set (eligible := List.filter _ (profiles cfg)) in Hrun.
  assert (Hel : forall q, q ∈ eligible ->
            q ∈ profiles cfg
            /\ fst (can_profile_register (profile_name q) d sid (store s)) = true).
  { intros q Hq. apply list_elem_of_In, filter_In in Hq as [Hq1 Hq2].
    split; [now apply list_elem_of_In | exact Hq2]. }
  destruct eligible as [|p0 rest] eqn:Heq.
  { cbv [ret] in Hrun. injection Hrun as <- <-. rewrite lookup_empty in Hl. discriminate. }
  unfold bind at 1 in Hrun.
  destruct (fetch_shared_captcha E cfg fuel s) as [[credential| e |] s1]; try discriminate.
  destruct (retry_loop_recorded fuel fuel d sid (p0 :: rest) (p0 :: rest) ∅
              (fst credential) (snd credential) s1 results s' Hrun) with (n := n) (b := b)
    as [Hrec Hin]; [reflexivity | | exact Hl |].
  { intros n0 b0 H0. rewrite lookup_empty in H0. discriminate. }
  split; [exact Hrec|].
  apply list_elem_of_fmap in Hin as (q & -> & Hq). exists q.
  destruct (Hel q Hq). auto.
Qed.
End Recorded.

Lemma reported_results_are_recorded_witness :
  let cfg := sample_cfg 8 ["p1"; "p2"; "p3"] in
  let run := register_all_profiles_parallel one_slot_world cfg 5 67 101 (fresh_sys 8) in
  is_Ok (fst run) = true
  /\ value_of ∅ (fst run) !! py "p1" = Some false
  /\ recorded 67 101 (store (snd run)) (py "p1") false.
Proof.
  cbv zeta. split; [vm_compute; reflexivity|]. split; [vm_compute; reflexivity|].
  refine (proj1 (reported_results_are_recorded one_slot_world
            (sample_cfg 8 ["p1"; "p2"; "p3"]) 5 67 101 (fresh_sys 8)
            (value_of ∅ (fst (register_all_profiles_parallel one_slot_world
               (sample_cfg 8 ["p1"; "p2"; "p3"]) 5 67 101 (fresh_sys 8))))
            (snd (register_all_profiles_parallel one_slot_world
               (sample_cfg 8 ["p1"; "p2"; "p3"]) 5 67 101 (fresh_sys 8)))
            _ (py "p1") false _)).
  - vm_compute. reflexivity.
  - vm_compute. reflexivity.
Defined.

(* ===================================================================== *)
(** ** Phrases and the image reference *)

Lemma starts_with_spec (needle hay : pystr) :
  starts_with needle hay = true <-> exists post, hay = needle ++ post.
Proof.
  revert hay. induction needle as [|a needle IH]; intros hay; cbn [starts_with].
  - split; [intros _; exists hay; reflexivity | reflexivity].
  - destruct hay as [|b hay].
    + split; [discriminate | intros [post H]; discriminate].
    + rewrite andb_true_iff, N.eqb_eq, IH. split.
      * intros [-> [post ->]]. exists post. reflexivity.
      * intros [post [= -> ->]]. eauto.
Qed.

Lemma str_in_spec (needle hay : pystr) :
  str_in needle hay = true <-> occurs_in needle hay.
Proof.
  unfold occurs_in. induction hay as [|b hay IH]; cbn [str_in].
  - rewrite orb_false_r, starts_with_spec. split.
    + intros [post H]. exists [], post. exact H.
    + intros (pre & post & H). destruct pre; [eauto|discriminate].
  - rewrite orb_true_iff, starts_with_spec, IH. split.
    + intros [[post H]|(pre & post & H)].
      * exists [], post. exact H.
      * exists (b :: pre), post. cbn. now rewrite H.
    + intros (pre & post & H). destruct pre as [|c pre].
      * left. exists post. exact H.
      * right. injection H as _ H. eauto.
Qed.

Lemma any_in_spec (indicators : list pystr) (text : pystr) :
  any_in indicators text = true
  <-> exists m, m ∈ indicators /\ occurs_in m text.
Proof.
  unfold any_in. rewrite existsb_exists. split.
  - intros (m & Hm & H). exists m. split; [now apply list_elem_of_In|].
    now apply str_in_spec.
  - intros (m & Hm & H). exists m. split; [now apply list_elem_of_In|].
    now apply str_in_spec.
Qed.

Lemma any_in_none (indicators : list pystr) (text : pystr) :
  any_in indicators text = false
  <-> forall m, m ∈ indicators -> ~ occurs_in m text.
Proof.
  rewrite <- not_true_iff_false, any_in_spec. split.
  - intros H m Hm Ho. apply H. eauto.
  - intros H (m & Hm & Ho). eapply H; eauto.
Qed.

(** X17. [classify_error] yields [SUCCESS] exactly when the body is not
    empty and one of the four success phrases occurs somewhere in the
    lower-cased body, [UNKNOWN_ERROR] exactly when the body is not empty
    and no phrase of any list occurs in it, and [EMPTY_RESPONSE] exactly
    for the empty body. *)
Theorem classify_error_by_occurrence (lower : pystr -> pystr) (body : pystr) (code : Z) :
  (fst (classify_error lower body code) = SUCCESS
   <-> body <> [] /\ exists m, m ∈ success_indicators /\ occurs_in m (lower body))
  /\ (fst (classify_error lower body code) = UNKNOWN_ERROR
      <-> body <> [] /\ forall m, m ∈ all_indicators -> ~ occurs_in m (lower body))
  /\ (fst (classify_error lower body code) = EMPTY_RESPONSE <-> body = []).
Proof.
  unfold classify_error. destruct body as [|b0 body]; cbn [truthy negb fst].
  { split; [|split]; split; try discriminate; try tauto; intros [H _]; congruence. }
  set (text := lower (b0 :: body)).
  assert (Hall : (forall m, m ∈ all_indicators -> ~ occurs_in m text)
                 <-> any_in success_indicators text = false
                     /\ any_in captcha_error_indicators text = false
                     /\ any_in slot_full_indicators text = false
                     /\ any_in already_registered_indicators text = false
                     /\ any_in server_error_indicators text = false
                     /\ any_in server_closed_indicators text = false
                     /\ any_in connection_error_indicators text = false).
  { rewrite !any_in_none. unfold all_indicators, precedence_table.
    cbn [map fst concat]. split.
    - intros H. repeat split; intros m Hm; apply H; rewrite !elem_of_app; tauto.
    - intros (H1 & H2 & H3 & H4 & H5 & H6 & H7) m.
      rewrite !elem_of_app, elem_of_nil. intros [?|[?|[?|[?|[?|[?|[?|[]]]]]]]]; eauto. }
  pose proof (any_in_spec success_indicators text) as Hs.
  destruct (any_in success_indicators text) eqn:H1; cbn [fst].
  { split; [|split]; split; try discriminate; try tauto.
    - intros _. split; [discriminate | now apply Hs].
    - intros [_ H]. apply Hall in H as [? _]. discriminate. }
  assert (Hno : ~ exists m, m ∈ success_indicators /\ occurs_in m text).
  { intros H. apply Hs in H. discriminate. }
  repeat (match goal with |- context [if ?b then _ else _] => destruct b eqn:? end;
          cbn [fst];
          [split; [|split]; split; try discriminate; try tauto;
           intros [_ H]; apply Hall in H; intuition congruence|]).
  split; [|split]; split; try discriminate; try tauto.
  intros _. split; [discriminate|]. apply Hall. repeat split.
Qed.

Lemma span_non_quote_spec (s : pystr) :
  s = fst (span_non_quote s) ++ snd (span_non_quote s)
  /\ Forall (fun c => is_quote c = false) (fst (span_non_quote s))
  /\ match snd (span_non_quote s) with
     | [] => True
     | q :: _ => is_quote q = true
     end.
Proof.
  induction s as [|c s IH]; cbn [span_non_quote].
  - cbn. auto.
  - destruct (is_quote c) eqn:Hc; cbn [fst snd app].
    + auto.
    + destruct (span_non_quote s) as [run rest]. cbn [fst snd app] in *.
      destruct IH as (H1 & H2 & H3). split; [now rewrite <- H1|]. split; [|exact H3].
      now constructor.
Qed.

Lemma span_non_quote_app (group : pystr) (q : N) (post : pystr) :
  Forall (fun c => is_quote c = false) group -> is_quote q = true ->
  span_non_quote (group ++ q :: post) = (group, q :: post).
Proof.
  intros Hg Hq. induction Hg as [|c group Hc _ IH]; cbn [app span_non_quote].
  - now rewrite Hq.
  - now rewrite Hc, IH.
Qed.

Lemma src_match_at_unique (s pre g1 g2 : pystr) :
  src_match_at s pre g1 -> src_match_at s pre g2 -> g1 = g2.
Proof.
  intros (q1 & q1' & post1 & H1 & _ & Hq1 & _ & Hg1) (q2 & q2' & post2 & H2 & _ & Hq2 & _ & Hg2).
  rewrite H1 in H2. apply app_inv_head in H2. apply app_inv_head in H2.
  injection H2 as _ H2.
  pose proof (span_non_quote_app g1 q1' post1 Hg1 Hq1) as S1.
  pose proof (span_non_quote_app g2 q2' post2 Hg2 Hq2) as S2.
  rewrite H2 in S1. congruence.
Qed.

Lemma match_src_here_spec (s group : pystr) :
  match_src_here s = Some group <-> src_match_at s [] group.
Proof.
  unfold match_src_here, src_match_at. split.
  - destruct (starts_with (py "src=") s) eqn:Hs; [|discriminate].
    apply starts_with_spec in Hs as [rest ->].
    change (drop 4 (py "src=" ++ rest)) with rest.
    destruct rest as [|q after]; [discriminate|].
    destruct (is_quote q) eqn:Hq; [|discriminate].
    destruct (span_non_quote_spec after) as (H1 & H2 & H3).
    destruct (span_non_quote after) as [run rest]. cbn [fst snd] in *.
    destruct run as [|c run]; [discriminate|]. destruct rest as [|q' post]; [discriminate|].
    intros [= <-]. exists q, q', post. rewrite H1. repeat split; auto; discriminate.
  - intros (q & q' & post & -> & Hq & Hq' & Hne & Hg). cbn [app].
    assert (Hs : starts_with (py "src=") (py "src=" ++ q :: group ++ q' :: post) = true)
      by (apply starts_with_spec; eauto).
    rewrite Hs.
    change (drop 4 (py "src=" ++ q :: group ++ q' :: post)) with (q :: group ++ q' :: post).
    cbv beta iota. rewrite Hq, span_non_quote_app by assumption.
    destruct group; [contradiction | reflexivity].
Qed.

Lemma src_match_at_cons (c : N) (s pre group : pystr) :
  src_match_at (c :: s) (c :: pre) group <-> src_match_at s pre group.
Proof.
  unfold src_match_at. split; intros (q & q' & post & H & Hr);
    exists q, q', post; (split; [|exact Hr]).
  - cbn [app] in H. now injection H.
  - cbn [app]. now rewrite H.
Qed.

(** X18. The image reference [get_fresh_captcha] takes from the page is the
    group of the leftmost place where the text [src=], a quote, a
    non-empty run of characters without quotes and a closing quote follow
    each other; no reference is found exactly when the page has no such
    place. *)
Theorem search_src_leftmost_match (s : pystr) :
  (forall group, search_src s = Some group ->
     exists pre,
       src_match_at s pre group
       /\ forall pre2 group2, src_match_at s pre2 group2 ->
            (length pre < length pre2)%nat \/ (pre2 = pre /\ group2 = group))
  /\ (search_src s = None <-> forall pre group, ~ src_match_at s pre group).
Proof.
  induction s as [|c s [IHsome IHnone]].
  - cbn [search_src].
    assert (Hnil : forall pre group, ~ src_match_at [] pre group).
    { intros pre group (q & q' & post & H & _). destruct pre; discriminate. }
    destruct (match_src_here []) as [g|] eqn:Hm.
    + apply match_src_here_spec in Hm. now apply Hnil in Hm.
    + split; [discriminate | tauto].
  - cbn [search_src]. destruct (match_src_here (c :: s)) as [g|] eqn:Hm.
    + apply match_src_here_spec in Hm. split.
      * intros group [= <-]. exists []. split; [exact Hm|].
        intros pre2 group2 H2. destruct pre2 as [|c2 pre2]; [|left; cbn; lia].
        right. split; [reflexivity|]. eapply src_match_at_unique; eauto.
      * split; [discriminate|]. intros H. now apply H in Hm.
    + assert (Hhere : forall group, ~ src_match_at (c :: s) [] group).
      { intros group H. apply match_src_here_spec in H. congruence. }
      assert (Hshift : forall pre2 group2, src_match_at (c :: s) pre2 group2 ->
                exists pre1, pre2 = c :: pre1 /\ src_match_at s pre1 group2).
      { intros pre2 group2 H2. destruct pre2 as [|c2 pre2]; [now apply Hhere in H2|].
        assert (c2 = c) as ->.
        { destruct H2 as (q & q' & post & H & _). cbn [app] in H. now injection H. }
        exists pre2. split; [reflexivity|]. now apply src_match_at_cons in H2. }
      split.
      * intros group Hg. destruct (IHsome group Hg) as (pre & Hmatch & Hleft).
        exists (c :: pre). split; [now apply src_match_at_cons|].
        intros pre2 group2 H2. destruct (Hshift _ _ H2) as (pre1 & -> & H1).
        destruct (Hleft _ _ H1) as [Hlt|[-> ->]]; [left; cbn; lia | right; auto].
      * rewrite IHnone. split.
        -- intros H pre2 group2 H2. destruct (Hshift _ _ H2) as (pre1 & -> & H1).
           now apply H in H1.
        -- intros H pre group H1. apply (H (c :: pre) group).
           now apply src_match_at_cons.
Qed.

(* ===================================================================== *)
(** ** Profile validation *)

Section ValidationFacts.
Context {value : Type}.
Variable py_bool : value -> bool.
Variable py_int : value -> raises Z.

Lemma check_fields_none (fields : list pystr) (profile : gmap pystr value) (index : Z) :
  check_fields py_bool fields profile index = None
  <-> forall field, field ∈ fields ->
        exists v, profile !! field = Some v /\ py_bool v = true.
Proof.
  induction fields as [|f fields IH]; cbn [check_fields].
  - split; [intros _ field H; now apply elem_of_nil in H | reflexivity].
  - destruct (profile !! f) as [v|] eqn:Hf.
    + destruct (py_bool v) eqn:Hv; cbn [negb].
      * rewrite IH. split.
        -- intros H field [->|Hin]%elem_of_cons; eauto.
        -- intros H field Hin. apply H. now right.
      * split; [discriminate|]. intros H.
        destruct (H f) as (v' & Hv' & Ht); [left|]. congruence.
    + split; [discriminate|]. intros H.
      destruct (H f) as (v' & Hv' & Ht); [left|]. congruence.
Qed.

Lemma check_fields_false (fields : list pystr) (profile : gmap pystr value) (index : Z)
    (b : bool) (msg : pystr) :
  check_fields py_bool fields profile index = Some (b, msg) -> b = false.
Proof.
  induction fields as [|f fields IH]; cbn [check_fields]; [discriminate|].
  destruct (profile !! f) as [v|]; [|now intros [= <- _]].
  destruct (negb (py_bool v)); [now intros [= <- _] | exact IH].
Qed.

Lemma check_date_true (profile : gmap pystr value) (index : Z) (msg : pystr) :
  check_date py_int profile index = Returned (true, msg)
  <-> msg = py "OK"
      /\ exists day month year,
           int_field py_int profile (py "dob_day") = Returned day
           /\ int_field py_int profile (py "dob_month") = Returned month
           /\ int_field py_int profile (py "dob_year") = Returned year
           /\ 1 <= day <= 31 /\ 1 <= month <= 12 /\ 1900 <= year <= 2100.
Proof.
  unfold check_date.
  destruct (int_field py_int profile (py "dob_day")) as [day|e1].
  2:{ split; [discriminate | intros (_ & d & m & y & H & _); discriminate]. }
  destruct (int_field py_int profile (py "dob_month")) as [month|e2].
  2:{ split; [discriminate | intros (_ & d & m & y & _ & H & _); discriminate]. }
  destruct (int_field py_int profile (py "dob_year")) as [year|e3].
  2:{ split; [discriminate | intros (_ & d & m & y & _ & _ & H & _); discriminate]. }
  destruct ((1 <=? day) && (day <=? 31) && (1 <=? month) && (month <=? 12)
            && (1900 <=? year) && (year <=? 2100)) eqn:Hr; cbn [negb].
  - repeat (apply andb_true_iff in Hr as [Hr ?]).
    split.
    + intros [= <-]. split; [reflexivity|]. exists day, month, year. repeat split; lia.
    + intros [-> _]. reflexivity.
  - split; [discriminate|]. intros (_ & d & m & y & [= <-] & [= <-] & [= <-] & H).
    assert (Ht : (1 <=? day) && (day <=? 31) && (1 <=? month) && (month <=? 12)
                 && (1900 <=? year) && (year <=? 2100) = true).
    { repeat (apply andb_true_iff; split); lia. }
    congruence.
Qed.

Lemma check_date_index (profile : gmap pystr value) (i j : Z) :
  match check_date py_int profile i, check_date py_int profile j with
  | Returned (b1, _), Returned (b2, _) => b1 = b2
  | Raised e1, Raised e2 => e1 = e2
  | _, _ => False
  end.
Proof.
  unfold check_date.
  destruct (int_field py_int profile (py "dob_day")); [|reflexivity].
  destruct (int_field py_int profile (py "dob_month")); [|reflexivity].
  destruct (int_field py_int profile (py "dob_year")); [|reflexivity].
  destruct (negb _); reflexivity.
Qed.

Lemma validate_profile_true (profile : gmap pystr value) (index : Z) (msg : pystr) :
  validate_profile py_bool py_int profile index = Returned (true, msg)
  <-> well_formed py_bool py_int profile /\ msg = py "OK".
Proof.
  unfold validate_profile, well_formed.
  pose proof (check_fields_none required_fields profile index) as Hn.
  destruct (check_fields py_bool required_fields profile index) as [[b m]|] eqn:Hc.
  - apply check_fields_false in Hc as ->. split; [discriminate|].
    intros [[H _] _]. apply Hn in H. discriminate.
  - pose proof (check_date_true profile index msg) as Hd.
    destruct (check_date py_int profile index) as [[b m]|e] eqn:Hdate.
    + split.
      * intros H. apply Hd in H as [-> H]. split; [|reflexivity].
        split; [now apply Hn | exact H].
      * intros [[_ H] ->]. apply Hd. auto.
    + split.
      * destruct e; discriminate.
      * intros [[_ H] ->]. assert (Raised e = Returned (true, py "OK")) by (apply Hd; auto).
        discriminate.
Qed.

Lemma validate_profile_index (profile : gmap pystr value) (i j : Z) :
  match validate_profile py_bool py_int profile i,
        validate_profile py_bool py_int profile j with
  | Returned (b1, _), Returned (b2, _) => b1 = b2
  | Raised e1, Raised e2 => e1 = e2
  | _, _ => False
  end.
Proof.
  unfold validate_profile.
  pose proof (check_fields_none required_fields profile i) as Hi.
  pose proof (check_fields_none required_fields profile j) as Hj.
  destruct (check_fields py_bool required_fields profile i) as [[b1 m1]|] eqn:Hc1;
    destruct (check_fields py_bool required_fields profile j) as [[b2 m2]|] eqn:Hc2.
  - apply check_fields_false in Hc1, Hc2. congruence.
  - assert (H : Some (b1, m1) = None) by (apply Hi, Hj; reflexivity). discriminate.
  - assert (H : Some (b2, m2) = None) by (apply Hj, Hi; reflexivity). discriminate.
  - pose proof (check_date_index profile i j) as Hd.
    destruct (check_date py_int profile i) as [[b1 m1]|e1];
      destruct (check_date py_int profile j) as [[b2 m2]|e2];
      try contradiction; [exact Hd|].
    subst e2. destruct e1; reflexivity.
Qed.
End ValidationFacts.

Section LoadFacts.
Context {value : Type}.
Variable py_bool : value -> bool.
Variable py_int : value -> raises Z.

Lemma accepts_well_formed (profile : gmap pystr value) :
  accepts py_bool py_int profile = true <-> well_formed py_bool py_int profile.
Proof.
  unfold accepts.
  destruct (validate_profile py_bool py_int profile 0) as [[[|] msg]|e] eqn:Hv.
  - apply validate_profile_true in Hv as [Hw _]. tauto.
  - split; [discriminate|]. intros Hw.
    assert (H : validate_profile py_bool py_int profile 0 = Returned (true, py "OK"))
      by (apply validate_profile_true; auto).
    congruence.
  - split; [discriminate|]. intros Hw.
    assert (H : validate_profile py_bool py_int profile 0 = Returned (true, py "OK"))
      by (apply validate_profile_true; auto).
    congruence.
Qed.

Lemma validate_all_step (i : nat) (profile : gmap pystr value)
    (rest : list (nat * gmap pystr value)) (acc : list (gmap pystr value)) :
  validate_all py_bool py_int ((i, profile) :: rest) acc
  = match validate_profile py_bool py_int profile 0 with
    | Raised e => Raised e
    | Returned _ =>
        validate_all py_bool py_int rest (if accepts py_bool py_int profile then acc ++ [profile] else acc)
    end.
Proof.
  cbn [validate_all]. unfold accepts.
  pose proof (validate_profile_index py_bool py_int profile (Z.of_nat i) 0) as H.
  destruct (validate_profile py_bool py_int profile (Z.of_nat i)) as [[b1 m1]|e1];
    destruct (validate_profile py_bool py_int profile 0) as [[b2 m2]|e2];
    try contradiction; subst; [|reflexivity].
  destruct b2; reflexivity.
Qed.

Lemma validate_all_spec (indexed : list (nat * gmap pystr value)) :
  forall acc : list (gmap pystr value),
    match validate_all py_bool py_int indexed acc with
    | Returned validated =>
        validated = acc ++ List.filter (accepts py_bool py_int) (map snd indexed)
        /\ forall x, x ∈ indexed -> ~ breaks py_bool py_int (snd x)
    | Raised _ => exists x, x ∈ indexed /\ breaks py_bool py_int (snd x)
    end.
Proof.
  induction indexed as [|[i profile] rest IH]; intros acc.
  - cbn. rewrite app_nil_r. split; [reflexivity|]. intros x H. now apply elem_of_nil in H.
  - rewrite validate_all_step. cbn [map snd List.filter].
    destruct (validate_profile py_bool py_int profile 0) as [[b m]|e] eqn:Hv.
    + specialize (IH (if accepts py_bool py_int profile then acc ++ [profile] else acc)).
      destruct (validate_all py_bool py_int rest _) as [validated|e].
      * destruct IH as [-> Hnb]. split.
        -- destruct (accepts py_bool py_int profile); [now rewrite <- app_assoc | reflexivity].
        -- intros x [->|Hx]%elem_of_cons; [|auto].
           intros [e He]. cbn [snd] in He. congruence.
      * destruct IH as (x & Hx & Hb). exists x. split; [now right | exact Hb].
    + exists (i, profile). split; [left|]. exists e. exact Hv.
Qed.

Lemma enumerate_from_has {A} (l : list A) :
  forall (k : nat) (x : A), x ∈ l -> exists i, (i, x) ∈ enumerate_from k l.
Proof.
  induction l as [|y l IH]; intros k x Hx.
  - now apply elem_of_nil in Hx.
  - cbn [enumerate_from]. apply elem_of_cons in Hx as [->|Hx].
    + exists k. left.
    + destruct (IH (S k) x Hx) as [i Hi]. exists i. now right.
Qed.

Lemma snd_enumerate_from {A} (k : nat) (l : list A) :
  map snd (enumerate_from k l) = l.
Proof.
  revert k. induction l as [|x l IH]; intros k; cbn [enumerate_from map snd];
    [reflexivity | now rewrite IH].
Qed.

(** X19. [validate_profile] returns [True] exactly for a profile that has
    all eight required fields with a truthy value and whose day, month and
    year convert to integers within 1..31, 1..12 and 1900..2100, and the
    message is then [OK]; a missing or falsy required field gives [False]
    with a message, never an exception; an exception of the conversion
    gets out only if it is not a [ValueError]. *)
Theorem validate_profile_accepts_the_well_formed (profile : gmap pystr value) (index : Z) :
  (forall msg, validate_profile py_bool py_int profile index = Returned (true, msg)
               <-> well_formed py_bool py_int profile /\ msg = py "OK")
  /\ (forall field, field ∈ required_fields ->
        profile !! field = None
        \/ (exists v, profile !! field = Some v /\ py_bool v = false) ->
        exists msg, validate_profile py_bool py_int profile index = Returned (false, msg))
  /\ (forall e, validate_profile py_bool py_int profile index = Raised e -> e <> ValueError).
Proof.
  split; [intros msg; apply validate_profile_true|]. split.
  - intros field Hin Hbad. unfold validate_profile.
    pose proof (check_fields_none py_bool required_fields profile index) as Hn.
    destruct (check_fields py_bool required_fields profile index) as [[b m]|] eqn:Hc.
    + apply check_fields_false in Hc as ->. eauto.
    + destruct (proj1 Hn eq_refl field Hin) as (v & Hv & Ht).
      destruct Hbad as [Hbad|(v' & Hv' & Hf)]; congruence.
  - intros e. unfold validate_profile.
    destruct (check_fields py_bool required_fields profile index) as [[b m]|];
      [discriminate|].
    destruct (check_date py_int profile index) as [[b m]|e0]; [discriminate|].
    destruct e0; try discriminate; intros [= <-]; discriminate.
Qed.

(** X20. When [load_profiles] succeeds, the profiles it keeps are those of
    the document that [validate_profile] accepts, in the order of the
    document, at least one, each well formed, and no validation raised.
    It fails exactly when the validation of some profile raises, which
    discards the whole document, or when no profile is accepted. *)
Theorem load_profiles_keeps_the_valid (profiles : list (gmap pystr value)) :
  (forall loaded, load_profiles py_bool py_int profiles = Some loaded ->
     loaded = List.filter (accepts py_bool py_int) profiles
     /\ loaded <> []
     /\ Forall (well_formed py_bool py_int) loaded
     /\ forall p, p ∈ profiles -> ~ breaks py_bool py_int p)
  /\ (load_profiles py_bool py_int profiles = None
      <-> (exists p, p ∈ profiles /\ breaks py_bool py_int p)
          \/ Forall (fun p => accepts py_bool py_int p = false) profiles).
Proof.
  unfold load_profiles.
  pose proof (validate_all_spec (enumerate_from 1 profiles) []) as Hspec.
  rewrite snd_enumerate_from in Hspec. cbn [app] in Hspec.
  assert (Hin : forall x, x ∈ enumerate_from 1 profiles -> snd x ∈ profiles).
  { intros [i p] Hx. eapply enumerate_from_elem; eauto. }
  assert (Hin' : forall p, p ∈ profiles -> exists i, (i, p) ∈ enumerate_from 1 profiles)
    by (intros p Hp; now apply enumerate_from_has).
  assert (Hnone : forall l : list (gmap pystr value),
            List.filter (accepts py_bool py_int) l = [] <-> Forall (fun p => accepts py_bool py_int p = false) l).
  { induction l as [|q l IH]; cbn [List.filter].
    - split; [constructor | reflexivity].
    - destruct (accepts py_bool py_int q) eqn:Hq.
      + split; [discriminate|]. intros H. inversion H; congruence.
      + rewrite IH. split; [now constructor | intros H; now inversion H]. }
  destruct (validate_all py_bool py_int (enumerate_from 1 profiles) []) as [validated|e].
  - destruct Hspec as [-> Hnb].
    assert (Hnobreak : forall p, p ∈ profiles -> ~ breaks py_bool py_int p).
    { intros p Hp. destruct (Hin' p Hp) as [i Hi]. apply (Hnb _ Hi). }
    destruct (List.filter (accepts py_bool py_int) profiles) as [|q l] eqn:Hf.
    + split; [discriminate|]. split; [intros _; right; now apply Hnone|reflexivity].
    + split.
      * intros loaded [= <-]. split; [reflexivity|]. split; [discriminate|].
        split; [|exact Hnobreak]. rewrite <- Hf. apply Forall_forall. intros p Hp.
        apply list_elem_of_In, filter_In in Hp as [_ Hp]. now apply accepts_well_formed.
      * split; [discriminate|]. intros [(p & Hp & Hb)|Hall].
        -- now apply Hnobreak in Hb.
        -- apply Hnone in Hall. congruence.
  - destruct Hspec as (x & Hx & Hb). split; [discriminate|].
    split; [|reflexivity]. intros _. left. exists (snd x). split; [now apply Hin | exact Hb].
Qed.
End LoadFacts.

Lemma load_profiles_keeps_the_valid_witness :
  let good := sample_record (SStr (py "07")) in
  let empty_day := sample_record (SStr []) in
  let late_day := sample_record (SStr (py "32")) in
  load_profiles sample_bool sample_int [empty_day; good; late_day] = Some [good]
  /\ Forall (well_formed sample_bool sample_int) [good]
  /\ load_profiles sample_bool sample_int [good; sample_record SList] = None.
Proof.
  cbv zeta.
  assert (H : load_profiles sample_bool sample_int
                [sample_record (SStr []); sample_record (SStr (py "07"));
                 sample_record (SStr (py "32"))]
              = Some [sample_record (SStr (py "07"))]) by (vm_compute; reflexivity).
  split; [exact H|]. split.
  - exact (proj1 (proj2 (proj2 (proj1 (load_profiles_keeps_the_valid sample_bool sample_int
             [sample_record (SStr []); sample_record (SStr (py "07"));
              sample_record (SStr (py "32"))]) _ H)))).
  - vm_compute. reflexivity.
Defined.

(* ===================================================================== *)
(** ** Pairs of the list *)

#[global] Instance emits_refl P : Reflexive (emits P).
Proof. intros s. exists []. now rewrite app_nil_r. Qed.

#[global] Instance emits_trans P : Transitive (emits P).
Proof.
  intros s1 s2 s3 (t1 & Ht1 & H1) (t2 & Ht2 & H2).
  exists (t1 ++ t2). rewrite Ht2, Ht1, app_assoc. split; [reflexivity|].
  now apply Forall_app.
Qed.

Lemma grows_emits (P Q : event -> Prop) (s s' : sys) :
  (forall e, P e -> Q e) -> grows P s s' -> emits Q s s'.
Proof.
  intros HPQ [_ (t & Ht & Hev)]. exists t. split; [exact Ht|].
  eapply Forall_impl; eauto.
Qed.

Lemma quiet_pair_event (d sid : Z) (e : event) : quiet_event e -> pair_event d sid e.
Proof. destruct e; cbn; tauto. Qed.

Lemma batch_pair_event (batch : list profile) (d sid : Z) (e : event) :
  batch_event batch d sid e -> pair_event d sid e.
Proof.
  intros [Hq|(p & c & _ & ->)]; [now apply quiet_pair_event | cbn; auto].
Qed.

Lemma justified_pair_event (batch_results : gmap pystr outcome) (d sid : Z) (e : event) :
  justified_mark batch_results d sid e -> pair_event d sid e.
Proof. destruct e; cbn; tauto. Qed.

Section Pairs.
Variable E : env.
Variable cfg : config.

Lemma retry_round_pair (fuel : nat) (d sid : Z) (pending : list profile)
    (final : gmap pystr bool) (c : pystr) (ts : Z) :
  rel (emits (pair_event d sid)) (retry_round E cfg fuel d sid pending final c ts).
Proof.
  unfold retry_round. apply rel_bind.
  { intros s. eapply grows_emits; [apply batch_pair_event|].
    apply batch_dispatch_round. }
  intros round. apply rel_bind.
  { intros s.
    destruct (result_loop_marks E d sid (snd round) pending
                {| final_results := final; captcha_error_profiles := [];
                   next_pending := [] |} s) as (v & s2 & marks & Hloop & Ht & _ & Hj & _).
    rewrite Hloop. exists marks. split; [exact Ht|].
    eapply Forall_impl; [exact Hj|]. apply justified_pair_event. }
  intros v s. eapply grows_emits; [apply quiet_pair_event|].
  apply quiet_refresh_after_errors.
Qed.

Lemma retry_loop_pair (fuel rounds : nat) (d sid : Z) :
  forall (pending : list profile) (final : gmap pystr bool) (c : pystr) (ts : Z),
    rel (emits (pair_event d sid)) (retry_loop E cfg fuel rounds d sid pending final c ts).
Proof.
  induction rounds as [|rounds IH]; intros pending final c ts;
    destruct pending as [|p0 pending0]; cbn [retry_loop]; try apply rel_ret.
  - apply rel_out_of_fuel.
  - apply rel_bind; [apply retry_round_pair|].
    intros [[credential pending'] final'].
    apply rel_bind; [apply rel_gets|]. intros [|]; [apply rel_ret | apply IH].
Qed.

Lemma register_all_pair (fuel : nat) (d sid : Z) :
  rel (emits (pair_event d sid)) (register_all_profiles_parallel E cfg fuel d sid).
Proof.
  unfold register_all_profiles_parallel.
  apply rel_bind; [apply rel_gets|]. intros [|]; [apply rel_ret|].
  apply rel_bind; [apply rel_gets|]. intros [|p0 rest]; [apply rel_ret|].
  apply rel_bind; [|intros; apply retry_loop_pair].
  intros s. eapply grows_emits; [apply quiet_pair_event|].
  apply quiet_fetch_shared_captcha.
Qed.

Lemma pairs_loop_listed (fuel : nat) (all : list phien) (phien_data : list phien) :
  phien_data ⊆ all ->
  rel (emits (listed_event all)) (pairs_loop E cfg fuel phien_data).
Proof.
  assert (Hq : forall A (c : M A), rel (grows quiet_event) c ->
                 rel (emits (listed_event all)) c).
  { intros A c Hc s. eapply grows_emits; [|apply Hc]. intros e He. now left. }
  induction phien_data as [|ph rest IH]; intros Hsub; cbn [pairs_loop].
  - apply rel_ret.
  - assert (Hrest : rest ⊆ all) by (intros x Hx; apply Hsub; now right).
    apply rel_bind; [apply Hq, io_stop|]. intros [|]; [apply rel_ret|].
    apply rel_bind; [apply rel_gets|]. intros [|]; [now apply IH|].
    apply rel_bind; [|intros _; now apply IH].
    intros s.
    destruct (register_all_pair fuel (phien_date_id ph) (phien_session_id ph) s)
      as (t & Ht & Hev).
    exists t. split; [exact Ht|]. eapply Forall_impl; [exact Hev|].
    intros e He. right. exists ph. split; [apply Hsub; left | exact He].
Qed.

Lemma run_registration_algorithm_listed (fuel : nat) (phien_data : list phien) :
  rel (emits (listed_event phien_data)) (run_registration_algorithm E cfg fuel phien_data).
Proof.
  assert (Hq : forall A (c : M A), rel (grows quiet_event) c ->
                 rel (emits (listed_event phien_data)) c).
  { intros A c Hc s. eapply grows_emits; [|apply Hc]. intros e He. now left. }
  unfold run_registration_algorithm.
  apply rel_bind; [apply Hq, io_time_time|]. intros _.
  generalize fuel at 2. intros rounds.
  induction rounds as [|rounds IH]; cbn [iterations].
  - apply rel_out_of_fuel.
  - apply rel_bind; [now apply pairs_loop_listed|]. intros [|]; [|apply rel_ret].
    apply rel_bind; [apply Hq, io_time_time | intros _; exact IH].
Qed.

(** X21. Every submission and every mark in the trace of
    [run_registration_algorithm] is for a pair of its list. *)
Theorem algorithm_stays_within_its_pairs (fuel : nat) (phien_data : list phien) (s : sys) :
  exists t,
    trace (snd (run_registration_algorithm E cfg fuel phien_data s)) = trace s ++ t
    /\ Forall (listed_event phien_data) t.
Proof. apply run_registration_algorithm_listed. Qed.

(** X22. With [filter_odd_sessions], [load_scan_results] keeps exactly the
    entries whose session id is odd, and a run of the algorithm on the
    kept list submits only for listed pairs with an odd session id. *)
Theorem filtered_run_targets_odd_sessions (fuel : nat) (all_phien_data : list phien)
    (s : sys) :
  let phien_data := load_scan_results true all_phien_data in
  (forall ph, ph ∈ phien_data <-> ph ∈ all_phien_data /\ phien_session_id ph mod 2 = 1)
  /\ exists t,
       trace (snd (run_registration_algorithm E cfg fuel phien_data s)) = trace s ++ t
       /\ forall name d sid c, EvSubmit name d sid c ∈ t ->
            sid mod 2 = 1
            /\ {| phien_date_id := d; phien_session_id := sid |} ∈ all_phien_data.
Proof.
  cbv zeta. unfold load_scan_results.
  assert (Hin : forall ph,
            ph ∈ List.filter (fun phien => phien_session_id phien mod 2 =? 1) all_phien_data
            <-> ph ∈ all_phien_data /\ phien_session_id ph mod 2 = 1).
  { intros ph. rewrite !list_elem_of_In, filter_In, Z.eqb_eq. reflexivity. }
  split; [exact Hin|].
  destruct (run_registration_algorithm_listed fuel
              (List.filter (fun phien => phien_session_id phien mod 2 =? 1) all_phien_data) s)
    as (t & Ht & Hev).
  exists t. split; [exact Ht|]. intros name d sid c He.
  rewrite Forall_forall in Hev. destruct (Hev _ He) as [Hq|(ph & Hph & Hd & Hs)].
  - destruct Hq.
  - apply Hin in Hph as [Hall Hodd]. destruct ph as [d0 s0]. cbn in Hd, Hs. subst.
    auto.
Qed.
End Pairs.

(* ===================================================================== *)
(** ** Initial pool and sessions of a fetch *)

Lemma fill_pool_fresh (n : nat) (ps : pool_state) :
  fill_pool n ps
  = {| session_pool := session_pool ps ++ seq (created ps) n;
       inflight_sessions := inflight_sessions ps;
       created := created ps + n |}.
Proof.
  revert ps. induction n as [|n IH]; intros ps; cbn [fill_pool seq].
  - destruct ps. cbn. now rewrite app_nil_r, Nat.add_0_r.
  - unfold create_session_with_pool. rewrite IH.
    cbn [session_pool inflight_sessions created]. rewrite <- app_assoc. cbn [app].
    f_equal. lia.
Qed.

(** X23. [init_session_pool] leaves a deque of exactly [pool_size] sessions
    ([max_workers] when no size is given, none for a size below 1), all
    newly created and pairwise different; the idle sessions of an earlier
    pool are dropped from the deque, and the in-flight counter is
    untouched. *)
Theorem init_session_pool_makes_new_sessions (cfg : config) (pool_size : option Z)
    (ps : pool_state) :
  let n := Z.to_nat (default (max_workers cfg) pool_size) in
  init_session_pool cfg pool_size ps
  = {| session_pool := seq (created ps) n;
       inflight_sessions := inflight_sessions ps;
       created := created ps + n |}.
Proof. cbv zeta. unfold init_session_pool. cbv zeta. now rewrite fill_pool_fresh. Qed.

Section OwnSession.
Variable E : env.

Lemma request_session_get (x : session) (r : request) :
  rel (grows (request_of x)) (session_get E x r).
Proof.
  unfold session_get. apply rel_bind; [apply rel_silent; intros s; now mred|].
  intros k. apply rel_bind; [now apply rel_emit|].
  intros _. destruct (http E k x r); [apply rel_ret | apply rel_raise].
Qed.

Lemma request_captcha_attempt (x : session) :
  rel (grows (request_of x)) (captcha_attempt E x).
Proof.
  unfold captcha_attempt. apply rel_try_except.
  - apply rel_bind; [apply request_session_get|]. intros response.
    destruct (status_code response =? 503); [apply rel_ret|].
    destruct (negb (status_code response =? 200)); [apply rel_ret|].
    destruct (search_src (text response)) as [path|]; [|apply rel_ret].
    apply rel_bind; [apply request_session_get|]. intros img_response.
    destruct (status_code img_response =? 503); [apply rel_ret|].
    destruct (negb (status_code img_response =? 200)); [apply rel_ret|].
    apply rel_bind; [apply io_predict|]. intros captcha_text.
    destruct (_ || _); [apply rel_ret|].
    apply rel_bind; [apply io_time_time | intros; apply rel_ret].
  - intros e h Hh. destruct e; inversion Hh; subst; apply rel_ret.
Qed.

Lemma request_captcha_loop (fuel : nat) (x : session) :
  rel (grows (request_of x)) (captcha_loop E fuel x).
Proof.
  induction fuel as [|fuel IH]; cbn [captcha_loop].
  - apply rel_out_of_fuel.
  - apply rel_bind; [apply request_captcha_attempt|].
    intros [c|]; [apply rel_ret | exact IH].
Qed.

(** X24. Called without a session, [get_fresh_captcha] creates one of its
    own, makes all its requests through it and closes it as the last thing
    it does, whether it returns or raises; the deque and the in-flight
    counter are untouched. *)
Theorem own_session_is_closed (fuel : nat) (s : sys) :
  let run := get_fresh_captcha E fuel None s in
  let own := created (pool s) in
  is_Fuel (fst run) = false ->
  exists requests,
    Forall (request_of own) requests
    /\ trace (snd run)
       = trace s ++ requests
         ++ match fst run with Ok c => [EvCaptcha (fst c) (snd c)] | _ => [] end
         ++ [EvClose own]
    /\ pool (snd run)
       = {| session_pool := session_pool (pool s);
            inflight_sessions := inflight_sessions (pool s);
            created := S own |}.
Proof.
  cbv zeta. unfold get_fresh_captcha. mred. cbv [create_session_with_pool]. mred.
  match goal with |- context [captcha_loop E fuel ?x ?y] =>
    destruct (request_captcha_loop fuel x y) as [_ (t & Ht & Hev)];
    destruct (calm_captcha_loop E fuel x y) as [Hp _];
    destruct (captcha_loop E fuel x y) as [[c| e |] s1] end;
    cbn [fst snd pool trace is_Fuel] in *; intros Hf; try discriminate;
    exists t; (split; [exact Hev|]); rewrite Ht, Hp, <- ?app_assoc; split; reflexivity.
Qed.
End OwnSession.

Lemma own_session_is_closed_witness :
  let run := get_fresh_captcha (flaky_world 2) 5 None (fresh_sys 1) in
  is_Fuel (fst run) = false
  /\ exists requests,
       Forall (request_of 1%nat) requests
       /\ trace (snd run) = requests ++ [EvCaptcha (py "abcde") 5; EvClose 1%nat].
Proof.
  cbv zeta.
  assert (H : is_Fuel (fst (get_fresh_captcha (flaky_world 2) 5 None (fresh_sys 1))) = false)
    by (vm_compute; reflexivity).
  split; [exact H|].
  destruct (own_session_is_closed (flaky_world 2) 5 (fresh_sys 1) H)
    as (requests & Hev & Ht & _).
  exists requests. split; [exact Hev|]. rewrite Ht.
  assert (Hr : fst (get_fresh_captcha (flaky_world 2) 5 None (fresh_sys 1))
               = Ok (py "abcde", 5)) by (vm_compute; reflexivity).
  rewrite Hr. reflexivity.
Defined.

(* ===================================================================== *)
(** ** Store invariants across the algorithm *)

Section StoreFacts.
Variable E : env.
Variable cfg : config.

(** X25. The two records of successes, the per-profile sets and the flat
    set of triples, agree after a run of [run_registration_algorithm] when
    they agreed before it. *)
Theorem successful_indexes_agree (fuel : nat) (phien_data : list phien) (s : sys) :
  pairs_consistent (store s) ->
  pairs_consistent (store (snd (run_registration_algorithm E cfg fuel phien_data s))).
Proof.
  intros H.
  destruct (run_registration_algorithm_safe E cfg fuel phien_data s) as (t & _ & _ & ->).
  now apply replay_consistent.
Qed.

(** X26. Eligibility is never regained: a profile that
    [can_profile_register] admits for a pair after a run of
    [run_registration_algorithm] was admitted for it before the run. *)
Theorem eligibility_never_regained (fuel : nat) (phien_data : list phien) (s : sys)
    (name : pystr) (d sid : Z) :
  fst (can_profile_register name d sid
         (store (snd (run_registration_algorithm E cfg fuel phien_data s)))) = true ->
  fst (can_profile_register name d sid (store s)) = true.
Proof.
  destruct (run_registration_algorithm_safe E cfg fuel phien_data s) as (t & _ & _ & ->).
  apply replay_keeps_ineligible.
Qed.
End StoreFacts.

Lemma successful_indexes_agree_witness :
  let run := run_registration_algorithm accepting_world (sample_cfg 8 ["p1"; "p2"]) 2
               sample_pairs (fresh_sys 8) in
  pairs_consistent (store (fresh_sys 8))
  /\ pairs_consistent (store (snd run))
  /\ is_profile_successful (py "p1") 67 101 (store (snd run)) = true.
Proof.
  cbv zeta.
  assert (H0 : pairs_consistent (store (fresh_sys 8))).
  { intros n d sid. cbn [fresh_sys store empty_tracking successful_pairs_set
                         profile_successful_pairs].
    rewrite lookup_empty. cbn [default id]. split; intros H; now apply not_elem_of_empty in H. }
  split; [exact H0|]. split; [|vm_compute; reflexivity].
  exact (successful_indexes_agree accepting_world (sample_cfg 8 ["p1"; "p2"]) 2
           sample_pairs (fresh_sys 8) H0).
Defined.

Lemma eligibility_never_regained_witness :
  let run := run_registration_algorithm accepting_world (sample_cfg 8 ["p1"; "p2"]) 2
               sample_pairs (fresh_sys 8) in
  fst (can_profile_register (py "p1") 69 103 (store (snd run))) = true
  /\ fst (can_profile_register (py "p1") 69 103 (store (fresh_sys 8))) = true.
Proof.
  cbv zeta.
  assert (H : fst (can_profile_register (py "p1") 69 103
                     (store (snd (run_registration_algorithm accepting_world
                        (sample_cfg 8 ["p1"; "p2"]) 2 sample_pairs (fresh_sys 8))))) = true)
    by (vm_compute; reflexivity).
  split; [exact H|].
  exact (eligibility_never_regained accepting_world (sample_cfg 8 ["p1"; "p2"]) 2
           sample_pairs (fresh_sys 8) (py "p1") 69 103 H).
Defined.

Lemma pooled_sessions_stay_distinct_witness :
  let run := run_registration_algorithm accepting_world (sample_cfg 8 ["p1"; "p2"]) 2
               sample_pairs (fresh_sys 8) in
  pool_wf (pool (fresh_sys 8))
  /\ pool_wf (pool (snd run))
  /\ length (session_pool (pool (snd run))) = 8%nat.
Proof.
  cbv zeta.
  assert (H0 : pool_wf (pool (fresh_sys 8))) by apply init_session_pool_wf.
  split; [exact H0|]. split; [|vm_compute; reflexivity].
  exact (pooled_sessions_stay_distinct accepting_world (sample_cfg 8 ["p1"; "p2"]) 2
           sample_pairs (fresh_sys 8) H0).
Defined.

Lemma no_submission_after_mark_witness :
  let run := run_registration_algorithm accepting_world (sample_cfg 8 ["p1"; "p2"]) 2
               sample_pairs (fresh_sys 8) in
  let t := trace (snd run) in
  let mark := EvMarkRegistered (py "p1") 67 in
  trace (snd run) = trace (fresh_sys 8) ++ take 15 t ++ mark :: drop 16 t
  /\ EvSubmit (py "p1") 68 102 (py "abcde") ∈ drop 16 t
  /\ mark <> EvMarkRegistered (py "p1") 68.
Proof.
  cbv zeta.
  assert (H1 : trace (snd (run_registration_algorithm accepting_world
                  (sample_cfg 8 ["p1"; "p2"]) 2 sample_pairs (fresh_sys 8)))
               = trace (fresh_sys 8)
                 ++ take 15 (trace (snd (run_registration_algorithm accepting_world
                      (sample_cfg 8 ["p1"; "p2"]) 2 sample_pairs (fresh_sys 8))))
                 ++ EvMarkRegistered (py "p1") 67
                    :: drop 16 (trace (snd (run_registration_algorithm accepting_world
                         (sample_cfg 8 ["p1"; "p2"]) 2 sample_pairs (fresh_sys 8)))))
    by (vm_compute; reflexivity).
  assert (H2 : EvSubmit (py "p1") 68 102 (py "abcde")
               ∈ drop 16 (trace (snd (run_registration_algorithm accepting_world
                    (sample_cfg 8 ["p1"; "p2"]) 2 sample_pairs (fresh_sys 8))))).
  { apply list_elem_of_In. vm_compute. do 8 right. left. reflexivity. }
  split; [exact H1|]. split; [exact H2|].
  exact (proj1 (proj2 (no_submission_after_mark accepting_world (sample_cfg 8 ["p1"; "p2"]) 2
           sample_pairs (fresh_sys 8) _ _ _ (py "p1") 68 102 (py "abcde") H1 H2))).
Defined.

Lemma algorithm_returns_only_on_stop_witness :
  let run := run_registration_algorithm stopped_world (sample_cfg 8 ["p1"; "p2"]) 2
               sample_pairs (fresh_sys 8) in
  is_Ok (fst run) = true
  /\ trace (snd run) = []
  /\ exists k, tick (snd run) = S k /\ stop_is_set stopped_world k = true.
Proof.
  cbv zeta.
  assert (H : is_Ok (fst (run_registration_algorithm stopped_world
                 (sample_cfg 8 ["p1"; "p2"]) 2 sample_pairs (fresh_sys 8))) = true)
    by (vm_compute; reflexivity).
  split; [exact H|]. split; [vm_compute; reflexivity|].
  exact (algorithm_returns_only_on_stop stopped_world (sample_cfg 8 ["p1"; "p2"]) 2
           sample_pairs (fresh_sys 8) H).
Defined.

Lemma retry_round_sorts_pending_witness :
  let cfg := sample_cfg 8 ["p1"; "p2"; "p3"] in
  let round := dispatch_round mixed_world cfg 1 67 101 (profiles cfg) (py "abcde") 0
                 (fresh_sys 8) in
  let run := retry_round mixed_world cfg 1 67 101 (profiles cfg) ∅ (py "abcde") 0
               (fresh_sys 8) in
  let r := value_of (([], 0), [], ∅) (fst run) in
  is_Ok (fst round) = true
  /\ is_Ok (fst run) = true
  /\ snd (fst r) = map sample_profile ["p3"; "p2"]
  /\ snd r !! py "p1" = Some false.
Proof.
  cbv zeta. split; [vm_compute; reflexivity|]. split; [vm_compute; reflexivity|].
  destruct (retry_round_sorts_pending mixed_world (sample_cfg 8 ["p1"; "p2"; "p3"]) 1 67 101
              (profiles (sample_cfg 8 ["p1"; "p2"; "p3"])) ∅ (py "abcde") 0 (fresh_sys 8)
              (py "abcde", 0)
              (snd (value_of (([], 0), ∅)
                      (fst (dispatch_round mixed_world (sample_cfg 8 ["p1"; "p2"; "p3"]) 1
                              67 101 (profiles (sample_cfg 8 ["p1"; "p2"; "p3"]))
                              (py "abcde") 0 (fresh_sys 8)))))
              (snd (dispatch_round mixed_world (sample_cfg 8 ["p1"; "p2"; "p3"]) 1
                      67 101 (profiles (sample_cfg 8 ["p1"; "p2"; "p3"]))
                      (py "abcde") 0 (fresh_sys 8)))
              (fst (fst (value_of (([], 0), [], ∅)
                 (fst (retry_round mixed_world (sample_cfg 8 ["p1"; "p2"; "p3"]) 1 67 101
                         (profiles (sample_cfg 8 ["p1"; "p2"; "p3"])) ∅ (py "abcde") 0
                         (fresh_sys 8))))))
              (snd (fst (value_of (([], 0), [], ∅)
                 (fst (retry_round mixed_world (sample_cfg 8 ["p1"; "p2"; "p3"]) 1 67 101
                         (profiles (sample_cfg 8 ["p1"; "p2"; "p3"])) ∅ (py "abcde") 0
                         (fresh_sys 8))))))
              (snd (value_of (([], 0), [], ∅)
                 (fst (retry_round mixed_world (sample_cfg 8 ["p1"; "p2"; "p3"]) 1 67 101
                         (profiles (sample_cfg 8 ["p1"; "p2"; "p3"])) ∅ (py "abcde") 0
                         (fresh_sys 8)))))
              (snd (retry_round mixed_world (sample_cfg 8 ["p1"; "p2"; "p3"]) 1 67 101
                      (profiles (sample_cfg 8 ["p1"; "p2"; "p3"])) ∅ (py "abcde") 0
                      (fresh_sys 8))))
    as (Hp & Hf & _).
  - vm_compute. reflexivity.
  - vm_compute. reflexivity.
  - split.
    + rewrite Hp. vm_compute. reflexivity.
    + rewrite Hf. vm_compute. reflexivity.
Defined.

Lemma validate_profile_accepts_the_well_formed_witness :
  validate_profile sample_bool sample_int (sample_record (SStr (py "07"))) 1
    = Returned (true, py "OK")
  /\ well_formed sample_bool sample_int (sample_record (SStr (py "07"))).
Proof.
  assert (H : validate_profile sample_bool sample_int (sample_record (SStr (py "07"))) 1
              = Returned (true, py "OK")) by (vm_compute; reflexivity).
  split; [exact H|].
  exact (proj1 (proj1 (proj1 (validate_profile_accepts_the_well_formed sample_bool sample_int
           (sample_record (SStr (py "07"))) 1) (py "OK")) H)).
Defined.

(* ===================================================================== *)
(** ** Failed requests and the journal *)

Section Failures.
Variable E : env.
Variable cfg : config.

(** X27. When the registration call raises, [register_single_attempt]
    turns a timeout into the [TIMEOUT] outcome and any other [Exception]
    into the [EXCEPTION] outcome carrying its text; only an exception
    outside [Exception] propagates. In every case the request is followed
    by the release of the session. *)
Theorem request_failure_becomes_outcome (fuel : nat) (p : profile) (d sid : Z) (c : pystr)
    (s : sys) (x : session) (s1 : sys) (e : exn) :
  get_session_from_pool E cfg fuel s = (Ok x, s1) ->
  http E (tick s1) x (Register (make_payload cfg p d sid c)) = Failed e ->
  let run := register_single_attempt E cfg fuel p d sid c s in
  fst run = failure_outcome e
  /\ exists closing,
       trace (snd run)
       = trace s1 ++ EvGet x (Register (make_payload cfg p d sid c))
                  :: EvRelease x :: closing
       /\ (closing = [] \/ closing = [EvClose x]).
Proof.
  intros Hacq Hhttp. cbv zeta. unfold register_single_attempt, bind. rewrite Hacq.
  unfold try_finally.
  destruct (submit_request_spec E cfg x p d sid c s1) as (r1 & Hsub & Hfuel & Hres).
  rewrite Hsub. rewrite Hhttp in Hres.
  match goal with |- context [return_session_to_pool cfg x ?s2] =>
    destruct (return_session_to_pool_shape cfg x s2) as (closing & Heq & Htr & Hcl & _) end.
  rewrite Heq. subst r1. unfold failure_outcome.
  split.
  - destruct e; reflexivity.
  - exists closing. split; [|exact Hcl].
    assert (Hs : forall r : res outcome, is_Fuel r = false ->
              snd (match r with
                   | Fuel => (Fuel, add_event (EvGet x (Register (make_payload cfg p d sid c)))
                                      (next_tick s1))
                   | _ => (r, snd (return_session_to_pool cfg x
                                     (add_event (EvGet x (Register (make_payload cfg p d sid c)))
                                        (next_tick s1))))
                   end)
              = snd (return_session_to_pool cfg x
                       (add_event (EvGet x (Register (make_payload cfg p d sid c)))
                          (next_tick s1)))).
    { intros [o| e0 |]; [reflexivity | reflexivity | discriminate]. }
    rewrite Hs by exact Hfuel. rewrite Htr. cbn [trace add_event next_tick].
    now rewrite <- app_assoc.
Qed.
End Failures.

Lemma request_failure_becomes_outcome_witness :
  let cfg := sample_cfg 2 ["p1"] in
  let run := register_single_attempt timeout_world cfg 1 (sample_profile "p1") 67 101
               (py "abcde") (fresh_sys 1) in
  fst run = Ok (false, TIMEOUT, py "Request timeout")
  /\ released (trace (snd run)) = [0%nat].
Proof.
  cbv zeta.
  destruct (request_failure_becomes_outcome timeout_world (sample_cfg 2 ["p1"]) 1
              (sample_profile "p1") 67 101 (py "abcde") (fresh_sys 1) 0%nat
              (snd (get_session_from_pool timeout_world (sample_cfg 2 ["p1"]) 1 (fresh_sys 1)))
              (ExTimeout (py "read timed out")))
    as (Hr & _).
  - vm_compute. reflexivity.
  - vm_compute. reflexivity.
  - split; [exact Hr | vm_compute; reflexivity].
Defined.

Section Journal.
Variable E : env.

Lemma handle_result_counts (d sid : Z) (batch_results : gmap pystr outcome)
    (v : round_vars) (p : profile) (s : sys) :
  let s' := snd (handle_result E d sid batch_results v p s) in
  let success := fst (fst (result_of batch_results (profile_name p))) in
  length (successful_registrations (book s'))
  = (length (successful_registrations (book s)) + (if success then 1 else 0))%nat
  /\ length (failed_registrations (book s'))
     = (length (failed_registrations (book s)) + (if success then 0 else 1))%nat
  /\ (length (log_queue (book s)) <= length (log_queue (book s'))
      <= length (log_queue (book s)) + 1)%nat
  /\ (Z.of_nat (length (log_queue (book s'))) <= 10000
      \/ log_queue (book s') = log_queue (book s)).
Proof.
  cbv zeta. unfold handle_result.
  destruct (result_of batch_results (profile_name p))
    as [[success error_type] full_response]. cbn [fst].
  destruct success; [|destruct error_type]; book_red;
    destruct (Z.of_nat (length (log_queue (book s))) <? 10000) eqn:Hroom;
    cbn [book successful_registrations failed_registrations log_queue];
    rewrite ?length_app; cbn [length];
    try apply Z.ltb_lt in Hroom;
    (split; [lia|]); (split; [lia|]); (split; [lia|]); first [left; lia | right; reflexivity].
Qed.

(** X28. The result loop of a round writes one record per pending profile:
    a success record for each profile whose outcome has the success flag,
    a failure record for each of the others, the retried ones included;
    the log queue grows by at most one entry per profile and, when it was
    within its capacity of 10000 entries, stays within it. *)
Theorem every_outcome_is_journalled (d sid : Z) (batch_results : gmap pystr outcome)
    (pending : list profile) (v : round_vars) (s : sys) :
  let s' := snd (for_each (handle_result E d sid batch_results) pending v s) in
  let successes :=
    length (List.filter (fun p => fst (fst (result_of batch_results (profile_name p))))
                        pending) in
  length (successful_registrations (book s'))
  = (length (successful_registrations (book s)) + successes)%nat
  /\ (length (failed_registrations (book s')) + successes
      = length (failed_registrations (book s)) + length pending)%nat
  /\ (length (log_queue (book s)) <= length (log_queue (book s'))
      <= length (log_queue (book s)) + length pending)%nat
  /\ (Z.of_nat (length (log_queue (book s))) <= 10000 ->
      Z.of_nat (length (log_queue (book s'))) <= 10000).
Proof.
  cbv zeta. revert v s. induction pending as [|p pending IH]; intros v s;
    cbn [for_each List.filter length].
  - cbn. lia.
  - destruct (handle_result_counts d sid batch_results v p s) as (H1 & H2 & H3 & H4).
    destruct (handle_result_spec E d sid batch_results v p s) as (s1 & Hrun & _).
    rewrite Hrun in H1, H2, H3. cbn [snd] in H1, H2, H3.
    unfold bind. rewrite Hrun.
    rewrite Hrun in H4. cbn [snd] in H4.
    destruct (IH (sort_result batch_results v p) s1) as (K1 & K2 & K3 & K4).
    assert (Hcap : Z.of_nat (length (log_queue (book s))) <= 10000 ->
                   Z.of_nat (length (log_queue (book s1))) <= 10000).
    { intros Hle. destruct H4 as [H4|H4]; [exact H4 | now rewrite H4]. }
    destruct (fst (fst (result_of batch_results (profile_name p)))); cbn [length];
      (split; [lia|]); (split; [lia|]); (split; [lia|]); auto.
Qed.
End Journal.
